(** * local-ssl-certs: the certificate builder and validator

    A shallow embedding of [workspaces/local-ssl-certs/cert-builder.js]
    (classes [CertOptions] and [CertBuilder]) together with the helpers it
    calls: [spawnAsync] of [util/process-util], [confirm] of [util/cli] and
    [CertInfo] of [cert-info.js]; with the [validate] and [issue] commands
    of [index.js] that call the builder, and [splitKeyValueArgs] of
    [util/cli].

    The repository snapshot holds several revisions of the helpers.  The
    embedding follows the revisions that [cert-builder.js] is written
    against: [spawnAsync] resolving with [{stdout, stderr}] (the builder
    reads [command.stdout]), the module-level [confirm] of [util/cli], and
    [CertInfo(certPath, keyPath, password)].

    Everything outside the repository is an explicit parameter (record
    [Env]): the openssl executable, the operator at the terminal, the
    clock, [Date] parsing and printing, [node:path], [node:os], [node:fs]
    removal and [node:crypto]. *)

From Stdlib Require Import ZArith NArith String Ascii List Lia.
From stdpp Require Import base option list gmap pretty.

Local Open Scope N_scope.

(** ** JavaScript strings

    A JavaScript string is a sequence of UTF-16 code units.  The regular
    expressions of the validator have neither the [u] nor the [s] flag, so
    they work on code units; [\s], [.] and [trim] single out code units
    beyond the ASCII range, which is why the units are numbers and not
    [ascii]. *)

Abbreviation jsstring := (list N) (only parsing).

(** [js "text"] is the JavaScript string literal ["text"] (ASCII only). *)
Definition js (s : string) : jsstring := map N_of_ascii (list_ascii_of_string s).
Arguments js : simpl never.

Definition nl : jsstring := [10].
Definition dquote : jsstring := [34].

(** WhiteSpace and LineTerminator of ECMAScript: what [\s] matches and what
    [String.prototype.trim] removes. *)
Definition is_space (c : N) : bool :=
  (c =? 9) || (c =? 10) || (c =? 11) || (c =? 12) || (c =? 13) || (c =? 32)
  || (c =? 160) || (c =? 5760) || ((8192 <=? c) && (c <=? 8202))
  || (c =? 8232) || (c =? 8233) || (c =? 8239) || (c =? 8287)
  || (c =? 12288) || (c =? 65279).

(** LineTerminator: the code units [.] does not match. *)
Definition is_line_terminator (c : N) : bool :=
  (c =? 10) || (c =? 13) || (c =? 8232) || (c =? 8233).

Fixpoint trimStart (s : jsstring) : jsstring :=
  match s with
  | c :: s' => if is_space c then trimStart s' else s
  | [] => []
  end.

Definition trimEnd (s : jsstring) : jsstring := rev (trimStart (rev s)).

(** [String.prototype.trim]. *)
Definition trim (s : jsstring) : jsstring := trimEnd (trimStart s).

(** [Array.prototype.join] on an array of strings. *)
Fixpoint join_with (sep : jsstring) (l : list jsstring) : jsstring :=
  match l with
  | [] => []
  | [x] => x
  | x :: l' => x ++ sep ++ join_with sep l'
  end.

(** [Array.prototype.includes] on an array of strings. *)
Definition includes (l : list jsstring) (x : jsstring) : bool :=
  bool_decide (x ∈ l).

(** Truthiness of a value that is a string, [null] or [undefined]: only a
    non-empty string is truthy. *)
Definition truthy (v : option jsstring) : bool :=
  match v with
  | Some (_ :: _) => true
  | _ => false
  end.

(** ** Regular expressions

    The fragment of ECMAScript regular expressions the validator uses,
    with the backtracking semantics of the language: a quantifier is
    greedy and gives characters back, longest first, when what follows it
    fails. *)

Module Regex.

Inductive t : Type :=
| Lit (s : jsstring)          (* a literal run of characters *)
| Star (p : N -> bool)        (* [c*] for a character class [c] *)
| Plus (p : N -> bool)        (* [c+] for a character class [c] *)
| Cat (r1 r2 : t)             (* concatenation *)
| Group (r : t).              (* a capturing group *)

Fixpoint strip (l s : jsstring) : option jsstring :=
  match l, s with
  | [], _ => Some s
  | a :: l', c :: s' => if a =? c then strip l' s' else None
  | _ :: _, [] => None
  end.

(** Greedy repetition: take one more character when possible and fall back
    to stopping here when the rest of the pattern then fails. *)
Fixpoint star {R} (p : N -> bool) (s : jsstring)
    (k : jsstring -> option R) : option R :=
  match s with
  | c :: s' =>
      if p c then
        match star p s' k with
        | Some r => Some r
        | None => k s
        end
      else k s
  | [] => k []
  end.

(** [run r s caps k]: match [r] at the start of [s]; on success hand the
    unread input and the captures made so far to the continuation [k],
    whose failure makes [r] try its next alternative. *)
Fixpoint run {R} (r : t) (s : jsstring) (caps : list jsstring)
    (k : jsstring -> list jsstring -> option R) : option R :=
  match r with
  | Lit l =>
      match strip l s with
      | Some s' => k s' caps
      | None => None
      end
  | Star p => star p s (fun s' => k s' caps)
  | Plus p =>
      match s with
      | c :: s' => if p c then star p s' (fun s'' => k s'' caps) else None
      | [] => None
      end
  | Cat r1 r2 => run r1 s caps (fun s' caps' => run r2 s' caps' k)
  | Group r1 =>
      run r1 s caps
        (fun s' caps' => k s' (caps' ++ [take (length s - length s') s]))
  end.

(** A match at the start of [s]: the number of characters matched and the
    captured groups. *)
Definition at_start (r : t) (s : jsstring) : option (nat * list jsstring) :=
  run r s [] (fun s' caps => Some ((length s - length s')%nat, caps)).

(** [String.prototype.match] with a non-global expression: the leftmost
    position at which the expression matches; the result is the list of
    captured groups ([match[1]], [match[2]], ...). *)
Fixpoint exec (r : t) (s : jsstring) : option (list jsstring) :=
  match at_start r s with
  | Some (_, caps) => Some caps
  | None =>
      match s with
      | [] => None
      | _ :: s' => exec r s'
      end
  end.

(** [String.prototype.matchAll] with a global expression: successive
    matches, each search resuming where the previous match ended (one
    character further after an empty match).  [skip] counts the characters
    of the current match still to be stepped over. *)
Fixpoint matchAll_from (r : t) (s : jsstring) (skip : nat)
    : list (list jsstring) :=
  match s with
  | [] =>
      match skip, at_start r [] with
      | O, Some (_, caps) => [caps]
      | _, _ => []
      end
  | _ :: s' =>
      match skip with
      | S n => matchAll_from r s' n
      | O =>
          match at_start r s with
          | Some (n, caps) => caps :: matchAll_from r s' (n - 1)
          | None => matchAll_from r s' 0
          end
      end
  end.

Definition matchAll (r : t) (s : jsstring) : list (list jsstring) :=
  matchAll_from r s 0.

(** [match[1]]. *)
Definition group1 (caps : list jsstring) : jsstring := default [] (caps !! 0%nat).

End Regex.

(** [.] *)
Definition dot (c : N) : bool := negb (is_line_terminator c).

(** [[^/,\n]] *)
Definition name_char (c : N) : bool :=
  negb ((c =? 47) || (c =? 44) || (c =? 10)).

(** [[^,\n]] *)
Definition san_char (c : N) : bool := negb ((c =? 44) || (c =? 10)).

(** [/notAfter=(.+)/] *)
Definition notAfter_re : Regex.t :=
  Regex.Cat (Regex.Lit (js "notAfter=")) (Regex.Group (Regex.Plus dot)).

(** [/subject=.*CN\s*=\s*([^/,\n]+)/] *)
Definition subject_cn_re : Regex.t :=
  Regex.Cat (Regex.Lit (js "subject="))
    (Regex.Cat (Regex.Star dot)
       (Regex.Cat (Regex.Lit (js "CN"))
          (Regex.Cat (Regex.Star is_space)
             (Regex.Cat (Regex.Lit (js "="))
                (Regex.Cat (Regex.Star is_space)
                   (Regex.Group (Regex.Plus name_char))))))).

(** [/DNS:([^,\n]+)/g] *)
Definition dns_re : Regex.t :=
  Regex.Cat (Regex.Lit (js "DNS:")) (Regex.Group (Regex.Plus san_char)).

(** ** Values, errors and the outside world *)

(** [new Error(message)]. *)
Record JsError : Type := Error { message : jsstring }.

(** The values the program hands to [console]. *)
Inductive JsValue : Type :=
| VString (s : jsstring)
| VArray (l : list jsstring)
| VError (e : JsError)
| VUndefined.

Inductive Channel : Type := ConsoleLog | ConsoleInfo | ConsoleWarn | ConsoleError.

(** The [stdio] option of a spawn: ["inherit"] (the default of
    [spawnAsync]), ["pipe"], or [["ignore", "pipe", "inherit"]]. *)
Inductive Stdio : Type := StdioInherit | StdioPipe | StdioIgnorePipeInherit.

Definition stdout_piped (o : Stdio) : bool :=
  match o with
  | StdioInherit => false
  | StdioPipe | StdioIgnorePipeInherit => true
  end.

(** How a child process ends: the ["close"] event with its exit code
    ([None] is the [null] code of a process killed by a signal) and what it
    wrote to its standard output, or the ["error"] event. *)
Inductive SpawnResult : Type :=
| Closed (code : option Z) (stdout : jsstring)
| SpawnError (e : JsError).

(** The file system: regular files with their content, and directories. *)
Record FS : Type := { files : gmap jsstring jsstring; dirs : gset jsstring }.

(** What the program does to the outside, in the order it does it. *)
Inductive Event : Type :=
| Spawn (command : jsstring) (args : list jsstring) (stdio : Stdio)
        (stdin : option jsstring)
| Console (ch : Channel) (args : list JsValue)
| Question (question answer : jsstring)
| PasswordPrompt (prompt retypePrompt : jsstring) (result : JsError + jsstring)
| Mkdtemp (prefix path : jsstring)
| Mkdir (path : jsstring)
| WriteFile (path content : jsstring)
| RmRecursive (path : jsstring).

Record World : Type := { fs : FS; trace : list Event }.

(** Everything that is not code of the repository. *)
Record Env : Type := {
  (** [child_process.spawn(command, args)], with what is written to the
      child's standard input before it is closed: the result of the run
      and its effect on the file system. *)
  spawn : jsstring -> list jsstring -> option jsstring -> FS -> SpawnResult * FS;
  (** the line the operator types in answer to a [readline] question *)
  operator : jsstring -> jsstring;
  (** [passwordPrompt(prompt, retypePrompt)] of [util/password-prompt]:
      the password, or the error it rejects with *)
  passwordPrompt : jsstring -> jsstring -> JsError + jsstring;
  (** [crypto.randomBytes(32).toString("hex")] *)
  randomHex32 : jsstring;
  (** the time value of [new Date(text)]; [None] is an Invalid Date (NaN) *)
  date_parse : jsstring -> option Z;
  (** the time value of [new Date()] *)
  date_now : Z;
  (** [Date.prototype.toUTCString] *)
  toUTCString : option Z -> jsstring;
  (** [path.join] and [os.tmpdir()] *)
  path_join : jsstring -> jsstring -> jsstring;
  tmpdir : jsstring;
  (** the random characters [fs.mkdtemp] appends to its prefix (six on
      Node; the model relies on there being at least one), or the error
      the call rejects with *)
  mkdtemp_pick : jsstring -> FS -> JsError + (N * jsstring);
  (** [fs.rmSync(path, {recursive: true})]: the file system afterwards, or
      the error it throws *)
  rmSync : jsstring -> FS -> JsError + FS;
  (** whether [execSync("openssl version")] succeeds *)
  openssl_available : bool
}.

(** ** Computations

    An [async] function is a state transformer over the state it can
    reach.  It ends by returning, by throwing (a rejected promise), or in
    [process.exit(code)], which skips everything that would follow. *)

Inductive Outcome (A : Type) : Type :=
| Ret (a : A)
| Throw (e : JsError)
| Exit (code : Z).
Arguments Ret {A} a.
Arguments Throw {A} e.
Arguments Exit {A} code.

Definition M (S A : Type) : Type := S -> Outcome A * S.

Definition ret {S A} (a : A) : M S A := fun s => (Ret a, s).
Definition throw {S A} (e : JsError) : M S A := fun s => (Throw e, s).
Definition process_exit {S A} (code : Z) : M S A := fun s => (Exit code, s).

Definition bind {S A B} (m : M S A) (f : A -> M S B) : M S B :=
  fun s =>
    match m s with
    | (Ret a, s') => f a s'
    | (Throw e, s') => (Throw e, s')
    | (Exit c, s') => (Exit c, s')
    end.

(** [try { m } catch (err) { h err }]. *)
Definition try_catch {S A} (m : M S A) (h : JsError -> M S A) : M S A :=
  fun s =>
    match m s with
    | (Throw e, s') => h e s'
    | r => r
    end.

Declare Scope js_scope.
Delimit Scope js_scope with js.
Notation "x <- c1 ;; c2" := (bind c1 (fun x => c2))
  (at level 100, c1 at next level, right associativity) : js_scope.
Notation "c1 ;; c2" := (bind c1 (fun _ => c2))
  (at level 100, right associativity) : js_scope.
Local Open Scope js_scope.

Definition when {S} (b : bool) (m : M S unit) : M S unit :=
  if b then m else ret tt.

Definition emit (e : Event) : M World unit :=
  fun w => (Ret tt, {| fs := fs w; trace := trace w ++ [e] |}).

Definition console (ch : Channel) (args : list JsValue) : M World unit :=
  emit (Console ch args).

(** ** [spawnAsync] (util/process-util)

    The promise of [spawnAsync(command, args, options)], awaited.  The
    optional [stdin] is what the caller writes to the child's input before
    awaiting.  The promise resolves with the captured output when the
    child closes with code 0 and rejects otherwise. *)

Definition render_code (code : option Z) : jsstring :=
  match code with
  | Some z => js (pretty z)
  | None => js "null"
  end.

Definition command_failed (command : jsstring) (args : list jsstring)
    (code : option Z) : JsError :=
  Error (js "Command:" ++ nl ++ js "  " ++ command ++ js " "
         ++ join_with (js " ") (map (fun arg => dquote ++ arg ++ dquote) args)
         ++ nl ++ js "failed with exit code " ++ render_code code).

Definition spawnAsync (env : Env) (command : jsstring) (args : list jsstring)
    (stdio : Stdio) (stdin : option jsstring) : M World jsstring :=
  fun w =>
    let '(r, fs') := spawn env command args stdin (fs w) in
    let w' := {| fs := fs'; trace := trace w ++ [Spawn command args stdio stdin] |} in
    match r with
    | Closed (Some 0%Z) out => (Ret (if stdout_piped stdio then out else []), w')
    | Closed code _ => (Throw (command_failed command args code), w')
    | SpawnError e => (Throw e, w')
    end.

(** ** [CertInfo] (cert-info.js) *)

Record CertInfo : Type := {
  certPath : jsstring;
  keyPath : jsstring;
  password : option jsstring     (* [null] by default *)
}.

(** ** Dates

    A [Date] is its time value: a number of milliseconds, or NaN for an
    Invalid Date.  Time values are integers of magnitude at most 8.64e15,
    below 2^53, so they are exact; a difference of two of them that is
    not exactly representable exceeds 2^53 in magnitude and rounds to a
    number on the same side of the fourteen-day bound.  Integer
    arithmetic therefore gives the comparisons of the source.  A
    comparison with NaN is false. *)

Definition date_ge (a b : option Z) : bool :=
  match a, b with
  | Some x, Some y => (y <=? x)%Z
  | _, _ => false
  end.

Definition date_sub (a b : option Z) : option Z :=
  match a, b with
  | Some x, Some y => Some (x - y)%Z
  | _, _ => None
  end.

Definition num_lt (a : option Z) (b : Z) : bool :=
  match a with
  | Some x => (x <? b)%Z
  | None => false
  end.

Arguments date_ge : simpl never.
Arguments date_sub : simpl never.
Arguments num_lt : simpl never.

(** ** [CertBuilder.validateSslCert] *)

Section Validate.

Variable env : Env.
Variable certInfo : CertInfo.
Variable hostnames : list jsstring.
Variable verbose : bool.

(** [const log = verbose ? console.log.bind(console) : () => {}] *)
Definition log (args : list JsValue) : M World unit :=
  when verbose (console ConsoleLog args).

Definition runOpenSSL (args : list jsstring) : M World jsstring :=
  log [VString (js "% openssl " ++ join_with (js " ") args)];;
  spawnAsync env (js "openssl") args StdioIgnorePipeInherit None.

(** The engine invocations of the six checks. *)
Definition checkend_args : list jsstring :=
  [js "x509"; js "-in"; certPath certInfo; js "-noout"; js "-checkend"; js "0"].
Definition rsa_check_args : list jsstring :=
  [js "rsa"; js "-in"; keyPath certInfo; js "-noout"; js "-check"].
Definition verify_args : list jsstring :=
  [js "verify"] ++ (if verbose then [js "-verbose"] else [])
  ++ [js "-purpose"; js "sslserver"; certPath certInfo].
Definition enddate_args : list jsstring :=
  [js "x509"; js "-enddate"; js "-noout"; js "-in"; certPath certInfo].
Definition subject_args : list jsstring :=
  [js "x509"; js "-noout"; js "-subject"; js "-in"; certPath certInfo].
Definition altNames_args : list jsstring :=
  [js "x509"; js "-noout"; js "-ext"; js "subjectAltName"; js "-in";
   certPath certInfo].
Definition cert_modulus_args : list jsstring :=
  [js "x509"; js "-noout"; js "-modulus"; js "-in"; certPath certInfo].
Definition key_modulus_args : list jsstring :=
  [js "rsa"; js "-noout"; js "-modulus"; js "-in"; keyPath certInfo].

(** Basic validations (source lines 186-202). *)
Definition expiryCheck : M World unit :=
  _ <- runOpenSSL checkend_args;; ret tt.

Definition keyIntegrityCheck : M World unit :=
  _ <- runOpenSSL rsa_check_args;; ret tt.

Definition trustChainCheck : M World unit :=
  _ <- runOpenSSL verify_args;; ret tt.

Definition fourteen_days : Z := 14 * 24 * 60 * 60 * 1000.

(** Check expiration date (source lines 204-228). *)
Definition expirationWindow : M World unit :=
  dateCommand <- runOpenSSL enddate_args;;
  match Regex.exec notAfter_re dateCommand with
  | Some m =>
      let notAfter := date_parse env (Regex.group1 m) in
      let now := Some (date_now env) in
      if date_ge now notAfter then
        throw (Error (js "Certificate expired on " ++ toUTCString env notAfter))
      else
        when (num_lt (date_sub notAfter now) fourteen_days)
          (console ConsoleWarn
             [VString (js "Warning: Certificate expires on "
                       ++ toUTCString env notAfter)]);;
        log [VString (js "Certificate valid until " ++ toUTCString env notAfter)]
  | None => throw (Error (js "Could not parse certificate expiration date."))
  end.

(** The names of a certificate: the Common Name of the subject line and
    the [DNS:] entries of the alternative names (source lines 247-255). *)
Definition cert_names (cnMatch : list jsstring) (altNames : jsstring)
    : list jsstring :=
  [trim (Regex.group1 cnMatch)]
  ++ map (fun m => trim (Regex.group1 m)) (Regex.matchAll dns_re altNames).

Definition missing_names (names : list jsstring) : list jsstring :=
  List.filter (fun hostname => negb (includes names hostname)) hostnames.

Definition missing_error (missingNames : list jsstring) : JsError :=
  Error (js "Some hostnames not found in certificate: "
         ++ join_with (js ", ") missingNames).

(** Subject and alternative names (source lines 230-265). *)
Definition nameCoverage : M World unit :=
  subjCommand <- runOpenSSL subject_args;;
  altNamesCommand <- runOpenSSL altNames_args;;
  match Regex.exec subject_cn_re subjCommand with
  | None => throw (Error (js "Could not find common name (CN) in certificate."))
  | Some cnMatch =>
      let names := cert_names cnMatch altNamesCommand in
      log [VString (js "Common name and subject alt names:"); VArray names];;
      let missingNames := missing_names names in
      if (0 <? length missingNames)%nat then throw (missing_error missingNames)
      else ret tt
  end.

(** Check that the private key matches the cert (source lines 267-287). *)
Definition keyPairing : M World unit :=
  keyCommand <- runOpenSSL cert_modulus_args;;
  let modCert := trim keyCommand in
  privKeyCommand <- runOpenSSL key_modulus_args;;
  let modKey := trim privKeyCommand in
  if bool_decide (modCert <> modKey) then
    throw (Error (js "Certificate and private key do not match."))
  else ret tt.

Definition validateSslCert : M World unit :=
  log [VString (js "Validating SSL cert " ++ certPath certInfo
                ++ js " for hostnames:"); VArray hostnames];;
  expiryCheck;;
  keyIntegrityCheck;;
  trustChainCheck;;
  expirationWindow;;
  nameCoverage;;
  keyPairing.

(** The checks in the order of the specification, and the engine
    invocations they make. *)
Definition checks : list (M World unit) :=
  [expiryCheck; keyIntegrityCheck; trustChainCheck; expirationWindow;
   nameCoverage; keyPairing].

Definition validation_calls : list (list jsstring) :=
  [checkend_args; rsa_check_args; verify_args; enddate_args; subject_args;
   altNames_args; cert_modulus_args; key_modulus_args].

End Validate.

(** The argument lists of the engine invocations of a trace. *)
Definition spawned (t : list Event) : list (list jsstring) :=
  omap (fun e => match e with Spawn _ args _ _ => Some args | _ => None end) t.

(** Fail-fast execution of a list of checks, as the specification words
    it: the checks run in order; the first one that does not succeed ends
    the run with its own outcome, in the state it left. *)
Inductive FailFast {S : Type} : list (M S unit) -> S -> Outcome unit -> S -> Prop :=
| FailFast_done s : FailFast [] s (Ret tt) s
| FailFast_pass c cs s s1 o s2 :
    c s = (Ret tt, s1) -> FailFast cs s1 o s2 -> FailFast (c :: cs) s o s2
| FailFast_stop c cs s o s1 :
    c s = (o, s1) -> o <> Ret tt -> FailFast (c :: cs) s o s1.

(** ** [confirm] (util/cli) *)

(** [String.prototype.toLowerCase] on the ASCII letters.  No other code
    unit lowercases to a letter of ["y"] or ["yes"], the only strings the
    result is compared with. *)
Definition toLowerCase (s : jsstring) : jsstring :=
  map (fun c => if (65 <=? c) && (c <=? 90) then c + 32 else c) s.

(** [assumeTrue] is [None] when the argument is omitted. *)
Definition confirm (env : Env) (question : jsstring) (assumeTrue : option bool)
    : M World bool :=
  let msg := question ++ js " ("
             ++ (if default false assumeTrue then js "Y/n" else js "y/N")
             ++ js ") " in
  let answer := operator env msg in
  emit (Question msg answer);;
  match answer with
  | [] => ret (bool_decide (assumeTrue = Some true))
  | _ => ret (includes [js "y"; js "yes"] (toLowerCase (trim answer)))
  end.

(** [promptPassword.passwordPrompt(prompt, retypePrompt)], awaited: the
    exchange on the terminal is recorded with its result, and the promise
    resolves with the password or rejects. *)
Definition promptPassword (env : Env) (prompt retypePrompt : jsstring)
    : M World jsstring :=
  let result := passwordPrompt env prompt retypePrompt in
  emit (PasswordPrompt prompt retypePrompt result);;
  match result with
  | inr pw => ret pw
  | inl e => throw e
  end.

(** ** [CertOptions] *)

Record CertOptionsConfig : Type := {
  cfg_org : option jsstring;
  cfg_countryName : option jsstring;
  cfg_keyType : option jsstring;
  cfg_keyCipher : option jsstring;
  cfg_safeMode : option bool
}.

Record CertOptions : Type := {
  org : jsstring;
  countryName : jsstring;
  keyType : jsstring;
  keyCipher : jsstring;
  safeMode : bool
}.

(** [v || d] for a string option of the configuration. *)
Definition or_else (v : option jsstring) (d : jsstring) : jsstring :=
  match v with
  | Some (c :: s) => c :: s
  | _ => d
  end.

(** [new CertOptions(options)]. *)
Definition new_CertOptions (options : CertOptionsConfig) : CertOptions :=
  {| org := or_else (cfg_org options) (js "Acme");
     countryName := or_else (cfg_countryName options) (js "US");
     keyType := or_else (cfg_keyType options) (js "rsa");
     keyCipher := or_else (cfg_keyCipher options) (js "aes256");
     safeMode := default true (cfg_safeMode options) |}.

(** [new CertOptions()]. *)
Definition default_CertOptionsConfig : CertOptionsConfig :=
  {| cfg_org := None; cfg_countryName := None; cfg_keyType := None;
     cfg_keyCipher := None; cfg_safeMode := None |}.

(** ** Configuration objects

    An object literal with string keys: its properties in insertion
    order, which is the order [Object.getOwnPropertyNames] and
    [Object.entries] list them in. *)

Definition Obj (V : Type) : Type := list (jsstring * V).

(** [o.k]; [None] is [undefined]. *)
Fixpoint get {V} (o : Obj V) (k : jsstring) : option V :=
  match o with
  | [] => None
  | (k', v) :: o' => if bool_decide (k' = k) then Some v else get o' k
  end.

(** [o.k = v]: an existing property keeps its place. *)
Fixpoint set {V} (o : Obj V) (k : jsstring) (v : V) : Obj V :=
  match o with
  | [] => [(k, v)]
  | (k', v') :: o' => if bool_decide (k' = k) then (k, v) :: o' else (k', v') :: set o' k v
  end.

Definition ConfSection : Type := Obj jsstring.
Definition Config : Type := Obj ConfSection.

(** A possibly undefined string inside a template literal. *)
Definition interpolate (v : option jsstring) : jsstring :=
  default (js "undefined") v.

Definition nameConstraints : jsstring := js "critical,permitted;DNS:.test".

(** [this.sharedConfig] as the constructor builds it. *)
Definition make_sharedConfig (options : CertOptions) : Config :=
  [ (js "req",
      [ (js "prompt", js "no");
        (js "distinguished_name", js "root_distinguished_name") ]);
    (js "root_distinguished_name",
      [ (js "organizationName", org options);
        (js "commonName", org options ++ js " Root Dev CA");
        (js "countryName", countryName options) ]);
    (js "req_distinguished_name",
      [ (js "organizationName", org options);
        (js "commonName", org options ++ js " Intermediate Dev CA");
        (js "countryName", countryName options) ]);
    (js "root_cert_extensions",
      [ (js "basicConstraints", js "critical,CA:TRUE");
        (js "keyUsage", js "critical,keyCertSign");
        (js "extendedKeyUsage", js "serverAuth,clientAuth");
        (js "subjectKeyIdentifier", js "hash");
        (js "subjectAltName", js "dirName:root_distinguished_name") ]);
    (js "cert_extensions",
      [ (js "basicConstraints", js "critical,CA:TRUE");
        (js "nameConstraints", nameConstraints);
        (js "keyUsage", js "critical,keyCertSign");
        (js "extendedKeyUsage", js "serverAuth,clientAuth");
        (js "subjectKeyIdentifier", js "hash");
        (js "subjectAltName", js "dirName:req_distinguished_name");
        (js "authorityKeyIdentifier", js "keyid:always") ]);
    (js "ssl_cert_extensions",
      [ (js "basicConstraints", js "critical,CA:FALSE");
        (js "keyUsage", js "critical,digitalSignature,keyEncipherment");
        (js "extendedKeyUsage", js "serverAuth,clientAuth");
        (js "subjectKeyIdentifier", js "hash");
        (js "subjectAltName", js "dirName:req_distinguished_name");
        (js "authorityKeyIdentifier", js "keyid:always") ]) ].

(** [sections.a.b] where the section [sections.a] exists, and [None] too
    where it does not: there JavaScript throws a [TypeError], so a method
    that reads [sections.a.b] looks the section up first (see
    [undefined_section_error]) and this function serves to state what a
    configuration holds. *)
Definition get2 (sections : Config) (a b : jsstring) : option jsstring :=
  match get sections a with
  | Some s => get s b
  | None => None
  end.

(** The text [#writeConfFile] writes. *)
Definition render_section (s : jsstring * ConfSection) : jsstring :=
  js "[" ++ fst s ++ js "]" ++ nl
  ++ concat (map (fun kv => fst kv ++ js " = " ++ snd kv ++ nl) (snd s)).

Definition render_conf (sections : Config) : jsstring :=
  concat (map render_section sections).

(** ** [CertBuilder] *)

Record Builder : Type := {
  options : CertOptions;
  certDir : jsstring;
  sharedConfig : Config;
  rootCAInfo : option CertInfo;                 (* #rootCAInfo *)
  persistentRootCAKeyPath : option jsstring;    (* #persistentRootCAKeyPath *)
  newCAs : list jsstring;                       (* #newCAs *)
  tempDir : option jsstring;                    (* #tempDir *)
  verbose_log : bool                            (* #log is console.info, or a no-op *)
}.

Definition set_tempDir (d : jsstring) (b : Builder) : Builder :=
  {| options := options b; certDir := certDir b; sharedConfig := sharedConfig b;
     rootCAInfo := rootCAInfo b;
     persistentRootCAKeyPath := persistentRootCAKeyPath b;
     newCAs := newCAs b; tempDir := Some d; verbose_log := verbose_log b |}.

Definition set_rootCAInfo (c : CertInfo) (b : Builder) : Builder :=
  {| options := options b; certDir := certDir b; sharedConfig := sharedConfig b;
     rootCAInfo := Some c;
     persistentRootCAKeyPath := persistentRootCAKeyPath b;
     newCAs := newCAs b; tempDir := tempDir b; verbose_log := verbose_log b |}.

(** [this.#newCAs.push(path)] *)
Definition push_newCA (path : jsstring) (b : Builder) : Builder :=
  {| options := options b; certDir := certDir b; sharedConfig := sharedConfig b;
     rootCAInfo := rootCAInfo b;
     persistentRootCAKeyPath := persistentRootCAKeyPath b;
     newCAs := newCAs b ++ [path]; tempDir := tempDir b;
     verbose_log := verbose_log b |}.

(** The fields a new instance has after the constructor. *)
Definition new_CertBuilder (dir : jsstring) (opts : CertOptions)
    (rootCAKeyPath : option jsstring) (verbose : bool) : Builder :=
  {| options := opts; certDir := dir; sharedConfig := make_sharedConfig opts;
     rootCAInfo := None; persistentRootCAKeyPath := rootCAKeyPath;
     newCAs := []; tempDir := None; verbose_log := verbose |}.

(** A builder at work: the instance and the world around it. *)
Record State : Type := { this : Builder; world : World }.

Definition liftW {A} (m : M World A) : M State A :=
  fun st =>
    let '(o, w) := m (world st) in (o, {| this := this st; world := w |}).

Definition get_this : M State Builder := fun st => (Ret (this st), st).

Definition update_this (f : Builder -> Builder) : M State unit :=
  fun st => (Ret tt, {| this := f (this st); world := world st |}).

(** ** File system operations *)

Definition existsSync (f : FS) (path : jsstring) : bool :=
  bool_decide (is_Some (files f !! path)) || bool_decide (path ∈ dirs f).

Definition get_world : M World World := fun w => (Ret w, w).

Definition exists_now (path : jsstring) : M World bool :=
  w <- get_world;; ret (existsSync (fs w) path).

(** [fsPromises.mkdtemp(prefix)]. *)
Definition mkdtemp (env : Env) (prefix : jsstring) : M World jsstring :=
  fun w =>
    match mkdtemp_pick env prefix (fs w) with
    | inr (c, cs) =>
        let path := prefix ++ c :: cs in
        (Ret path,
         {| fs := {| files := files (fs w); dirs := {[path]} ∪ dirs (fs w) |};
            trace := trace w ++ [Mkdtemp prefix path] |})
    | inl e => (Throw e, w)
    end.

(** [fs.mkdirSync(path, {recursive: true})], taken to succeed. *)
Definition mkdirSync (path : jsstring) : M World unit :=
  fun w =>
    (Ret tt,
     {| fs := {| files := files (fs w); dirs := {[path]} ∪ dirs (fs w) |};
        trace := trace w ++ [Mkdir path] |}).

(** Opening [path] with ["w+"], writing [content], closing; the open is
    taken to succeed (the builder only writes into its own workspace). *)
Definition writeFile (path content : jsstring) : M World unit :=
  fun w =>
    (Ret tt,
     {| fs := {| files := <[path := content]> (files (fs w)); dirs := dirs (fs w) |};
        trace := trace w ++ [WriteFile path content] |}).

(** [fs.rmSync(path, {recursive: true})]. *)
Definition rmRecursive (env : Env) (path : jsstring) : M World unit :=
  fun w =>
    match rmSync env path (fs w) with
    | inr fs' => (Ret tt, {| fs := fs'; trace := trace w ++ [RmRecursive path] |})
    | inl e => (Throw e, {| fs := fs w; trace := trace w ++ [RmRecursive path] |})
    end.

(** [hostnames] of [issueSignedCert]: [null] (also when omitted), one
    hostname, or an array of hostnames. *)
Inductive Hostnames : Type :=
| HostsNull
| HostsString (hostname : jsstring)
| HostsArray (hostnames : list jsstring).

(** [hostnames?.length > 0] *)
Definition has_hostnames (h : Hostnames) : bool :=
  match h with
  | HostsNull => false
  | HostsString s => (0 <? length s)%nat
  | HostsArray l => (0 <? length l)%nat
  end.

(** [if (typeof hostnames === "string") hostnames = [hostnames]] *)
Definition hostname_array (h : Hostnames) : list jsstring :=
  match h with
  | HostsNull => []
  | HostsString s => [s]
  | HostsArray l => l
  end.

(** The report [#cleanUp] prints. *)
Definition newCAs_report (paths : list jsstring) : jsstring :=
  js "Install new CA certs:" ++ nl
  ++ join_with nl (map (fun path => js "  + " ++ path) paths).

(** The [TypeError] of reading [commonName] off a section that the
    configuration does not have, as Node words it. *)
Definition undefined_section_error : JsError :=
  Error (js "Cannot read properties of undefined (reading 'commonName')").

Section BuilderMethods.

Variable env : Env.

(** [this.#log(...)] *)
Definition builder_log (args : list JsValue) : M State unit :=
  b <- get_this;;
  liftW (when (verbose_log b) (console ConsoleInfo args)).

(** [#getTempDir]: [this.#tempDir] is falsy until the first directory is
    made, and holds its path from then on. *)
Definition getTempDir : M State jsstring :=
  b <- get_this;;
  match tempDir b with
  | Some (c :: s) => ret (c :: s)
  | _ =>
      d <- liftW (mkdtemp env (path_join env (tmpdir env) (js "local-ssl-certs-")));;
      update_this (set_tempDir d);;
      builder_log [VString (js "Created temp dir:"); VString d];;
      ret d
  end.

(** [#getConfFile] *)
Definition getConfFile : M State jsstring :=
  d <- getTempDir;;
  ret (path_join env d (js "shared.conf")).

(** [#writeConfFile] *)
Definition writeConfFile (path : jsstring) (sections : Config) : M State unit :=
  builder_log [VString (js "Writing config file to"); VString path];;
  liftW (writeFile path (render_conf sections)).

(** [CertBuilder.create]: the constructor (which prints a persistent key
    path it is given), the store directory and the shared configuration
    file.  The method is static: the [this] of the state it starts from is
    not read, the new instance takes its place.  The constructor's guard
    on [#constructing] and its rejection of a key path that is neither a
    string nor [null] are excluded by the types. *)
Definition create (dir : jsstring) (rootCAKeyPath : option jsstring)
    (certOptions : option CertOptions) (verbose : bool) : M State Builder :=
  let certOptions :=
    default (new_CertOptions default_CertOptionsConfig) certOptions in
  if negb (openssl_available env) then
    throw (Error (js "openssl command not available."))
  else
    match rootCAKeyPath with
    | Some path => liftW (console ConsoleLog [VString path])
    | None => ret tt
    end;;
    update_this (fun _ => new_CertBuilder dir certOptions rootCAKeyPath verbose);;
    liftW (mkdirSync dir);;
    conf <- getConfFile;;
    b <- get_this;;
    writeConfFile conf (sharedConfig b);;
    get_this.

(** The root CA request of [createRootCA]. *)
Definition root_req_args (b : Builder) (certInfo : CertInfo) (conf : jsstring)
    : list jsstring :=
  [js "req"; js "-x509"; js "-new"; js "-newkey"; keyType (options b);
   js "-keyout"; keyPath certInfo; js "-passout"; js "stdin";
   js "-out"; certPath certInfo; js "-days"; js "9999";
   js "-config"; conf; js "-extensions"; js "root_cert_extensions"; js "-text"].

(** [createRootCA].  Its first statement reads [commonName] off the
    section [root_distinguished_name] and throws when the configuration
    has no such section; a missing [commonName] is interpolated as
    [undefined].  The password of a persistent root key is prompted for
    after the safe-mode check, whatever safe mode is. *)
Definition createRootCA : M State unit :=
  b <- get_this;;
  match get (sharedConfig b) (js "root_distinguished_name") with
  | None => throw undefined_section_error
  | Some root_distinguished_name =>
  let certName := interpolate (get root_distinguished_name (js "commonName")) in
  privKeyPath <-
    match persistentRootCAKeyPath b with
    | Some (c :: path) => ret (c :: path)
    | _ =>
        d <- getTempDir;;
        (* the source writes `$certName.key`, without braces: no
           interpolation happens *)
        ret (path_join env d (js "$certName.key"))
    end;;
  let certInfo :=
    {| certPath := path_join env (certDir b) (certName ++ js ".crt");
       keyPath := privKeyPath; password := None |} in
  (if safeMode (options b) then
     w <- liftW get_world;;
     let existingFiles :=
       List.filter (existsSync (fs w)) [keyPath certInfo; certPath certInfo] in
     if (0 <? length existingFiles)%nat then
       ok <- liftW (confirm env
                      (js "Files exist:" ++ nl ++ js "  "
                       ++ join_with (nl ++ js "  ") existingFiles
                       ++ nl ++ js "Overwrite existing files ?") None);;
       if negb ok then
         liftW (console ConsoleWarn [VString (js "Aborting.")]);;
         process_exit 1%Z
       else ret tt
     else ret tt
   else ret tt);;
  pw <-
    (if truthy (persistentRootCAKeyPath b) then
       liftW (promptPassword env (js "Create a password for the root CA: ")
                (js "Confirm password: "))
     else ret (randomHex32 env));;
  let certInfo :=
    {| certPath := certPath certInfo; keyPath := keyPath certInfo;
       password := Some pw |} in
  builder_log [VString (js "Creating self-signed root CA cert")];;
  try_catch
    (conf <- getConfFile;;
     _ <- liftW (spawnAsync env (js "openssl") (root_req_args b certInfo conf)
                   StdioPipe (Some pw));;
     update_this (set_rootCAInfo certInfo);;
     update_this (push_newCA (certPath certInfo)))
    (fun err =>
       liftW (console ConsoleError
                [VString (js "Error creating root CA cert:"); VError err]);;
       liftW (console ConsoleLog [VUndefined]);;   (* err.cmd *)
       process_exit 1%Z)
  end.

(** The safe-mode loop of [issueSignedCert] over the key and certificate
    paths: [false] when the operator declines an overwrite, which makes
    the method return [null]. *)
Fixpoint confirm_overwrite (paths : list jsstring) : M State bool :=
  match paths with
  | [] => ret true
  | path :: rest =>
      present <- liftW (exists_now path);;
      if present then
        ok <- liftW (confirm env
                       (js "Overwrite existing file " ++ path ++ js "?") None);;
        if negb ok then
          liftW (console ConsoleWarn [VString (js "Aborting.")]);;
          ret false
        else confirm_overwrite rest
      else confirm_overwrite rest
  end.

(** The certificate request of [issueSignedCert]. *)
Definition csr_args (b : Builder) (name : jsstring) (certInfo : CertInfo)
    (tempDir conf : jsstring) : list jsstring :=
  [js "req"; js "-batch"; js "-new"; js "-newkey"; keyType (options b);
   js "-nodes"; js "-keyout"; keyPath certInfo;
   js "-out"; path_join env tempDir (js "req.csr");
   js "-config"; conf;
   js "-subj"; js "/C=US/O=" ++ org (options b) ++ js "/CN=" ++ name;
   js "-text"].

(** The signing command of [issueSignedCert], before the [-extfile] and
    [-passin] options are pushed.  The source passes the number [9999],
    which reaches the child as the string ["9999"]. *)
Definition sign_args (issuer : CertInfo) (pathPrefix tempDir : jsstring)
    : list jsstring :=
  [js "x509"; js "-req"; js "-in"; path_join env tempDir (js "req.csr");
   js "-CA"; certPath issuer; js "-CAkey"; keyPath issuer;
   js "-CAserial"; path_join env tempDir (js "ca.srl"); js "-CAcreateserial";
   js "-extensions"; js "cert_extensions"; js "-days"; js "9999";
   js "-trustout"; js "-out"; pathPrefix ++ js ".crt"; js "-text"].

(** The configuration written to the extension file of an SSL cert. *)
Definition ssl_extensions_config (b : Builder) (subjAltName : list jsstring)
    : Config :=
  let extensions :=
    set (default [] (get (sharedConfig b) (js "ssl_cert_extensions")))
      (js "subjectAltName") (join_with (js ",") subjAltName) in
  [(js "cert_extensions", extensions)].

(** [issueSignedCert]; [None] is the [null] it returns when the operator
    declines. *)
Definition issueSignedCert (name : jsstring) (issuer : CertInfo)
    (hostnames : Hostnames) : M State (option CertInfo) :=
  b <- get_this;;
  let pathPrefix := path_join env (certDir b) name in
  let certInfo :=
    {| certPath := pathPrefix ++ js ".crt"; keyPath := pathPrefix ++ js ".key";
       password := None |} in
  proceed <-
    (if safeMode (options b) then
       confirm_overwrite [keyPath certInfo; certPath certInfo]
     else ret true);;
  if negb proceed then ret None
  else
    subjAltName <-
      (if has_hostnames hostnames then
         ret (Some (map (fun hostname => js "DNS:" ++ hostname)
                      (hostname_array hostnames)))
       else
         update_this (push_newCA (certPath certInfo));;
         ret None);;
    tempDir <- getTempDir;;
    try_catch
      (conf <- getConfFile;;
       _ <- liftW (spawnAsync env (js "openssl")
                     (csr_args b name certInfo tempDir conf) StdioInherit None);;
       ret tt)
      (fun err =>
         liftW (console ConsoleError
                  [VString (js "Error creating cert request:"); VError err]);;
         liftW (console ConsoleLog [VUndefined]);;   (* err.cmd *)
         process_exit 1%Z);;
    builder_log [VString (js "Signing requested cert using issuer "
                          ++ certPath issuer)];;
    try_catch
      (extfile <-
         match subjAltName with
         | Some subjAltName =>
             let extFile := path_join env tempDir (js "ssl_extensions.conf") in
             writeConfFile extFile (ssl_extensions_config b subjAltName);;
             ret extFile
         | None => getConfFile
         end;;
       let args :=
         sign_args issuer pathPrefix tempDir ++ [js "-extfile"; extfile]
         ++ (if truthy (password issuer) then [js "-passin"; js "stdin"] else []) in
       _ <- liftW (spawnAsync env (js "openssl") args StdioPipe
                     (if truthy (password issuer) then password issuer else None));;
       ret tt)
      (fun err =>
         liftW (console ConsoleError [VString (js "Error signing cert:" ++ nl)]);;
         liftW (console ConsoleError [VError err]);;
         liftW (console ConsoleLog [VUndefined]);;   (* err.cmd *)
         process_exit 1%Z);;
    ret (Some certInfo).

(** [#cleanUp], the handler of the process's ["exit"] event.  A
    [process.exit] inside an exit handler ends the process at once. *)
Definition cleanUp : M State unit :=
  b <- get_this;;
  match tempDir b with
  | Some (c :: d) =>
     builder_log [VString (js "Cleaning up temp dir:"); VString (c :: d)];;
     try_catch
       (liftW (rmRecursive env (c :: d)))
       (fun err =>
          liftW (console ConsoleError
                   [VString (js "Error cleaning up temp dir:"); VError err]);;
          match persistentRootCAKeyPath b, rootCAInfo b with
          | (None | Some []), Some (Build_CertInfo _ (c :: k) _) =>
              liftW (console ConsoleError
                       [VString (js "Could not delete root CA key file:");
                        VString (c :: k)]);;
              liftW (console ConsoleError
                       [VString (js "Delete it manually before trusting the root CA.")]);;
              process_exit 1%Z
          | _, _ => ret tt
          end)
  | _ => ret tt
  end;;
  b <- get_this;;
  if (0 <? length (newCAs b))%nat then
    liftW (console ConsoleLog [VString (newCAs_report (newCAs b))])
  else ret tt.

(** A run of the process: the program, then the exit handler.  The
    ["exit"] event is emitted when the program has nothing left to do,
    when it calls [process.exit], and when a rejection goes unhandled. *)
Definition run_process {A} (main : M State A) (st : State) : Outcome A * State :=
  let '(o, st1) := main st in
  (o, snd (cleanUp st1)).

End BuilderMethods.

(** What the process prints through [console.log]. *)
Definition logged (t : list Event) : list (list JsValue) :=
  omap (fun e => match e with Console ConsoleLog args => Some args | _ => None end) t.

(** The engine invocations of a trace, with what was written to their
    standard input. *)
Definition invocations (t : list Event) : list (list jsstring * option jsstring) :=
  omap (fun e => match e with
                 | Spawn _ args _ stdin => Some (args, stdin)
                 | _ => None
                 end) t.

(** ** A concrete world, for running the model

    A scripted engine that answers by the sub-command and option it is
    asked for, a POSIX-style [path.join], and an operator whose answer to
    every question is fixed. *)

Module Demo.

Definition day : Z := 24 * 60 * 60 * 1000.
Definition now : Z := 1700000000000.

(** The certificate the scripted engine describes covers [a.test] and
    [b.test]; [expires] is the text of its [notAfter] line. *)
Definition engine_reply (expires : jsstring) (args : list jsstring) : jsstring :=
  if includes args (js "-enddate") then js "notAfter=" ++ expires ++ nl
  else if includes args (js "-subject") then
    js "subject=C = US, O = Acme, CN = a.test" ++ nl
  else if includes args (js "-ext") then
    js "X509v3 Subject Alternative Name: " ++ nl
    ++ js "    DNS:a.test, DNS:b.test" ++ nl
  else if includes args (js "-modulus") then js "Modulus=C0FFEE" ++ nl
  else [].

(** An engine that fails (exit code 1) on the sub-commands listed in
    [failing] and succeeds on the others; it leaves the files alone. *)
Definition engine (failing : list jsstring) (expires : jsstring)
    (command : jsstring) (args : list jsstring) (stdin : option jsstring)
    (f : FS) : SpawnResult * FS :=
  if includes failing (default [] (head args)) then (Closed (Some 1%Z) [], f)
  else (Closed (Some 0%Z) (engine_reply expires args), f).

(** Dates the scripted clock knows, by their text. *)
Definition parse (text : jsstring) : option Z :=
  if bool_decide (text = js "in 10 days") then Some (now + 10 * day)%Z
  else if bool_decide (text = js "in 20 days") then Some (now + 20 * day)%Z
  else if bool_decide (text = js "yesterday") then Some (now - day)%Z
  else None.

Definition utc (t : option Z) : jsstring :=
  match t with
  | Some z => js (pretty z)
  | None => js "Invalid Date"
  end.

Definition env (failing : list jsstring) (expires answer : jsstring) : Env :=
  {| spawn := engine failing expires;
     operator := fun _ => answer;
     passwordPrompt := fun _ _ => inr (js "correct horse");
     randomHex32 := js "00112233445566778899aabbccddeeff00112233445566778899aabbccddeeff";
     date_parse := parse;
     date_now := now;
     toUTCString := utc;
     path_join := fun a b => a ++ js "/" ++ b;
     tmpdir := js "/tmp";
     mkdtemp_pick := fun _ _ => inr (97, js "bcdef");
     rmSync := fun path f => inr {| files := files f; dirs := dirs f ∖ {[path]} |};
     openssl_available := true |}.

Definition empty_world : World :=
  {| fs := {| files := ∅; dirs := ∅ |}; trace := [] |}.

Definition cert : CertInfo :=
  {| certPath := js "certs/a.test.crt"; keyPath := js "certs/a.test.key";
     password := None |}.

(** A builder over the store [certs] with safe mode off, as
    [new CertOptions({countryName: "DE", safeMode: false})] configures it. *)
Definition options_DE : CertOptions :=
  new_CertOptions
    {| cfg_org := None; cfg_countryName := Some (js "DE"); cfg_keyType := None;
       cfg_keyCipher := None; cfg_safeMode := Some false |}.

Definition builder_DE : State :=
  {| this := new_CertBuilder (js "certs") options_DE None false;
     world := empty_world |}.

(** A builder in safe mode (the default options) whose store already
    holds the key and the certificate of [a.test]. *)
Definition store_with_a_test : World :=
  {| fs := {| files := <[js "certs/a.test.key" := js "KEY"]>
                         (<[js "certs/a.test.crt" := js "CERT"]> ∅);
              dirs := {[js "certs"]} |};
     trace := [] |}.

Definition builder_safe : State :=
  {| this := new_CertBuilder (js "certs")
               (new_CertOptions default_CertOptionsConfig) None false;
     world := store_with_a_test |}.

(** The root CA, as issuer of the intermediate. *)
Definition root : CertInfo :=
  {| certPath := js "certs/Acme Root Dev CA.crt";
     keyPath := js "/tmp/local-ssl-certs-abcdef/$certName.key";
     password := Some (js "00ff") |}.

End Demo.

(** ** Vocabulary of the properties *)

(** A check [makes_calls L]: whatever happens, the engine invocations it
    adds are a prefix of [L], and all of [L] when it succeeds. *)
Definition makes_calls (c : M World unit) (L : list (list jsstring)) : Prop :=
  forall w,
    exists n,
      spawned (trace (snd (c w))) = spawned (trace w) ++ take n L
      /\ (fst (c w) = Ret tt -> n = length L).

(** A list of checks run one after the other, as [await a; await b; ...]
    runs them. *)
Definition in_sequence {S} (cs : list (M S unit)) : M S unit :=
  fold_right (fun c k => bind c (fun _ => k)) (ret tt) cs.

(** What the process prints through [console.warn]. *)
Definition warnings (t : list Event) : list (list JsValue) :=
  omap (fun e => match e with Console ConsoleWarn args => Some args | _ => None end) t.


(** The operator's answer to [question] makes [confirm] resolve to
    [false]. *)
Definition declines (env : Env) (question : jsstring) : Prop :=
  forall w, fst (confirm env question None w) = Ret false.

(** Events that only talk to the operator: a question, or console output. *)
Definition only_talks (e : Event) : Prop :=
  match e with
  | Question _ _ | Console _ _ => True
  | _ => False
  end.

(** A program logic for computations: [has_post m s Q] when running [m]
    from [s] ends in an outcome and a state that satisfy [Q]. *)
Definition has_post {S A} (m : M S A) (s : S) (Q : Outcome A -> S -> Prop) : Prop :=
  Q (fst (m s)) (snd (m s)).

(** The state after more events. *)
Definition add_events (evs : list Event) (st : State) : State :=
  {| this := this st;
     world := {| fs := fs (world st); trace := trace (world st) ++ evs |} |}.

(** The directories a trace makes with [mkdtemp], and the files it writes. *)
Definition made_dirs (t : list Event) : list jsstring :=
  omap (fun e => match e with Mkdtemp _ path => Some path | _ => None end) t.

Definition written (t : list Event) : list jsstring :=
  omap (fun e => match e with WriteFile path _ => Some path | _ => None end) t.

(** The state in which [#getTempDir] has just made the workspace [d]. *)
Definition workspace_made (prefix d : jsstring) (st : State) : State :=
  {| this := set_tempDir d (this st);
     world :=
       {| fs := {| files := files (fs (world st));
                   dirs := {[d]} ∪ dirs (fs (world st)) |};
          trace := trace (world st) ++ [Mkdtemp prefix d]
                   ++ (if verbose_log (this st)
                       then [Console ConsoleInfo
                               [VString (js "Created temp dir:"); VString d]]
                       else []) |} |}.

(** The environment in which the operator's password for the root CA, and
    the random password of an ephemeral root CA, is [pw]. *)
Definition with_password (env : Env) (pw : jsstring) : Env :=
  {| spawn := spawn env;
     operator := operator env;
     passwordPrompt := fun _ _ => inr pw;
     randomHex32 := pw;
     date_parse := date_parse env;
     date_now := date_now env;
     toUTCString := toUTCString env;
     path_join := path_join env;
     tmpdir := tmpdir env;
     mkdtemp_pick := mkdtemp_pick env;
     rmSync := rmSync env;
     openssl_available := openssl_available env |}.

(** The issuer with its key protected by [pw]. *)
Definition protected_by (issuer : CertInfo) (pw : jsstring) : CertInfo :=
  {| certPath := certPath issuer; keyPath := keyPath issuer; password := Some pw |}.

(** The argument lists of all engine invocations up to a state, and the
    invocations made between two states. *)
Definition arguments_of (st : State) : list (list jsstring) :=
  map fst (invocations (trace (world st))).

Definition new_invocations (before after : State)
    : list (list jsstring * option jsstring) :=
  drop (length (invocations (trace (world before))))
    (invocations (trace (world after))).

(** Two runs that passed the same arguments to the engine. *)
Definition same_arguments {A B} (r1 : Outcome A * State) (r2 : Outcome B * State)
    : Prop :=
  arguments_of (snd r1) = arguments_of (snd r2).

(** [only_invokes P m]: every engine invocation that [m] makes satisfies
    [P]. *)
Definition only_invokes {A} (P : list jsstring * option jsstring -> Prop)
    (m : M State A) : Prop :=
  forall st,
    exists new,
      invocations (trace (world (snd (m st))))
      = invocations (trace (world st)) ++ new
      /\ Forall P new.

(** * The rest of the builder, and its helpers *)

(** ** [#loadCertKeyPair], [#loadRootCA] and [issueSslCert] *)

(** Why [fs.promises.readFile] rejects.  The file system of the model has
    no permissions: a read fails on a path that is absent ([ENOENT]) or
    that is a directory ([EISDIR]). *)
Inductive ReadError : Type := ENOENT | EISDIR.

Definition read_failure (f : FS) (path : jsstring) : option ReadError :=
  match files f !! path with
  | Some _ => None
  | None => if bool_decide (path ∈ dirs f) then Some EISDIR else Some ENOENT
  end.

(** [err.message] of a read that failed on a directory, as Node words it. *)
Definition EISDIR_message : jsstring :=
  js "EISDIR: illegal operation on a directory, read".

(** The [TypeError] of [path.join] given [undefined], and the one of
    reading [certPath] off a [null] issuer, as Node words them. *)
Definition path_type_error : JsError :=
  Error (js "The " ++ dquote ++ js "path" ++ dquote
         ++ js " argument must be of type string. Received undefined").

Definition null_issuer_error : JsError :=
  Error (js "Cannot read properties of null (reading 'certPath')").

(** [this.#rootCAInfo = info], where [info] may be [null]. *)
Definition assign_rootCAInfo (info : option CertInfo) (b : Builder) : Builder :=
  {| options := options b; certDir := certDir b; sharedConfig := sharedConfig b;
     rootCAInfo := info;
     persistentRootCAKeyPath := persistentRootCAKeyPath b;
     newCAs := newCAs b; tempDir := tempDir b; verbose_log := verbose_log b |}.

(** [hostnames] of [issueSslCert]: one hostname or an array of them. *)
Inductive SslHostnames : Type :=
| SslString (hostname : jsstring)
| SslArray (hostnames : list jsstring).

Section Bootstrap.

Variable env : Env.

(** The two reads of [#loadCertKeyPair] run concurrently and
    [Promise.all] rejects with the rejection that comes first; when both
    reads fail, [key_settles_first] says whether that is the key's. *)
Variable key_settles_first : bool.

(** [#loadCertKeyPair]: the pair when both files can be read, [null]
    when the deciding failure is a missing file, an error otherwise. *)
Definition loadCertKeyPair (keyPath certPath : jsstring)
    : M State (option CertInfo) :=
  let certInfo :=
    {| certPath := certPath; keyPath := keyPath; password := None |} in
  let rejected (err : ReadError) : M State (option CertInfo) :=
    match err with
    | ENOENT => ret None
    | EISDIR =>
        throw (Error (js "Unexpected error loading cert files: "
                      ++ EISDIR_message))
    end in
  w <- liftW get_world;;
  match read_failure (fs w) keyPath, read_failure (fs w) certPath with
  | None, None => ret (Some certInfo)
  | Some err, None => rejected err
  | None, Some err => rejected err
  | Some keyErr, Some certErr =>
      rejected (if key_settles_first then keyErr else certErr)
  end.

(** [#loadRootCA].  The arguments of [#loadCertKeyPair] are evaluated
    first: reading [commonName] off a missing section throws before any
    file is read and before [#rootCAInfo] is assigned. *)
Definition loadRootCA : M State bool :=
  b <- get_this;;
  match persistentRootCAKeyPath b with
  | Some (c :: path) =>
      match get (sharedConfig b) (js "root_distinguished_name") with
      | None => throw undefined_section_error
      | Some root_distinguished_name =>
          loaded <-
            loadCertKeyPair (c :: path)
              (path_join env (certDir b)
                 (interpolate (get root_distinguished_name (js "commonName"))
                  ++ js ".crt"));;
          update_this (assign_rootCAInfo loaded);;
          ret (bool_decide (is_Some loaded))
      end
  | _ => ret false
  end.

(** [issueSignedCert(name, null, hostnames)]: the method as far as it gets
    with no issuer.  The certificate request does not need the issuer; the
    template of the log line that follows reads [issuer.certPath], which
    throws outside any [try]. *)
Definition issueSignedCert_null_issuer (name : jsstring) (hostnames : Hostnames)
    : M State (option CertInfo) :=
  b <- get_this;;
  let pathPrefix := path_join env (certDir b) name in
  let certInfo :=
    {| certPath := pathPrefix ++ js ".crt"; keyPath := pathPrefix ++ js ".key";
       password := None |} in
  proceed <-
    (if safeMode (options b) then
       confirm_overwrite env [keyPath certInfo; certPath certInfo]
     else ret true);;
  if negb proceed then ret None
  else
    (if has_hostnames hostnames then ret tt
     else update_this (push_newCA (certPath certInfo)));;
    tempDir <- getTempDir env;;
    try_catch
      (conf <- getConfFile env;;
       _ <- liftW (spawnAsync env (js "openssl")
                     (csr_args env b name certInfo tempDir conf) StdioInherit None);;
       ret tt)
      (fun err =>
         liftW (console ConsoleError
                  [VString (js "Error creating cert request:"); VError err]);;
         liftW (console ConsoleLog [VUndefined]);;   (* err.cmd *)
         process_exit 1%Z);;
    throw null_issuer_error.

(** [issueSignedCert] as [issueSslCert] calls it: the name may be
    [undefined] (an empty array has no first element), in which case
    [path.join], the first thing the method does, throws; the issuer may be
    [null]. *)
Definition issueSignedCert_any (name : option jsstring)
    (issuer : option CertInfo) (hostnames : Hostnames)
    : M State (option CertInfo) :=
  match name, issuer with
  | None, _ => throw path_type_error
  | Some name, Some issuer => issueSignedCert env name issuer hostnames
  | Some name, None => issueSignedCert_null_issuer name hostnames
  end.

(** [issueSslCert]; [issuer] is [None] when omitted. *)
Definition issueSslCert (hostnames : SslHostnames) (issuer : option CertInfo)
    : M State (option CertInfo) :=
  let hostnames :=
    match hostnames with
    | SslString hostname => [hostname]
    | SslArray hostnames => hostnames
    end in
  issuer <-
    match issuer with
    | Some issuer => ret (Some issuer)
    | None =>
        b <- get_this;;
        match get (sharedConfig b) (js "req_distinguished_name") with
        | None => throw undefined_section_error
        | Some section =>
            match get section (js "commonName") with
            | None => throw path_type_error
            | Some intermediateName =>
                let intermediatePath :=
                  path_join env (certDir b) intermediateName in
                loaded <- loadCertKeyPair (intermediatePath ++ js ".key")
                            (intermediatePath ++ js ".crt");;
                match loaded with
                | Some issuer => ret (Some issuer)
                | None =>
                    (* Intermediate CA cert not found. Create one now.
                       First, check for the root CA. *)
                    haveRoot <-
                      match rootCAInfo b with
                      | Some _ => ret true
                      | None => loadRootCA
                      end;;
                    (if negb haveRoot then
                       match get (sharedConfig b)
                               (js "root_distinguished_name") with
                       | None => throw undefined_section_error
                       | Some root_distinguished_name =>
                           liftW (console ConsoleLog
                                    [VString (js "Root CA not found at");
                                     VString
                                       (path_join env (certDir b)
                                          (interpolate
                                             (get root_distinguished_name
                                                (js "commonName"))
                                           ++ js ".crt"))]);;
                           ok <- liftW (confirm env (js "Create one now?")
                                          (Some true));;
                           if negb ok then
                             liftW (console ConsoleWarn
                                      [VString (js "Aborting.")]);;
                             process_exit 1%Z
                           else createRootCA env
                       end
                     else ret tt);;
                    liftW (console ConsoleLog
                             [VString (js "Intermediate CA not found at "
                                       ++ intermediatePath ++ js ".crt")]);;
                    ok <- liftW (confirm env
                                   (js "Intermediate CA not found. Create one now?")
                                   (Some true));;
                    (if negb ok then
                       liftW (console ConsoleWarn [VString (js "Aborting.")]);;
                       process_exit 1%Z
                     else ret tt);;
                    b' <- get_this;;
                    issueSignedCert_any (Some intermediateName) (rootCAInfo b')
                      HostsNull
                end
            end
        end
    end;;
  builder_log [VString (js "Requesting SSL cert")];;
  issueSignedCert_any (head hostnames) issuer (HostsArray hostnames).

End Bootstrap.

(** ** [CertInfo.getDetails] (cert-info.js)

    The object keeps what the engine printed in [#x509].  [#hydrate] puts
    the empty object there before it asks the engine, and the result of
    the engine after it. *)

(** [#x509] once set: [{}], or the [{stdout, stderr}] the promise of
    [spawnAsync] resolved with ([stderr] is not piped and stays empty). *)
Inductive Details : Type :=
| EmptyObject
| EngineOutput (stdout : jsstring).

(** A [CertInfo] object in its surroundings: [#x509] ([None] is the
    initial [null]), the file system, and the argument lists the engine was
    run with. *)
Record InfoState : Type := {
  x509 : option Details;
  disk : FS;
  engine_runs : list (list jsstring)
}.

(** The arguments [#hydrate] passes to the engine. *)
Definition details_args (certInfo : CertInfo) : list jsstring :=
  [js "x509"; js "-in"; certPath certInfo; js "-text"; js "-ext";
   js "subjectAltName"; js "-trustout"; js "-certopt";
   js "no_header,no_version,no_serial,no_validity,no_pubkey,no_sigdump";
   js "-noout"].

(** [#hydrate]; the spawn has the standard output piped, the input and
    the error stream inherited. *)
Definition hydrate (env : Env) (certInfo : CertInfo) : M InfoState unit :=
  fun s =>
    let args := details_args certInfo in
    let '(r, disk') := spawn env (js "openssl") args None (disk s) in
    let runs := engine_runs s ++ [args] in
    match r with
    | Closed (Some 0%Z) out =>
        (Ret tt, {| x509 := Some (EngineOutput out); disk := disk';
                    engine_runs := runs |})
    | Closed code _ =>
        (Throw (command_failed (js "openssl") args code),
         {| x509 := Some EmptyObject; disk := disk'; engine_runs := runs |})
    | SpawnError e =>
        (Throw e,
         {| x509 := Some EmptyObject; disk := disk'; engine_runs := runs |})
    end.

(** [getDetails]: an object, be it empty, is truthy. *)
Definition getDetails (env : Env) (certInfo : CertInfo) : M InfoState Details :=
  fun s =>
    match x509 s with
    | Some details => (Ret details, s)
    | None =>
        match hydrate env certInfo s with
        | (Ret _, s') => (Ret (default EmptyObject (x509 s')), s')
        | (Throw e, s') => (Throw e, s')
        | (Exit c, s') => (Exit c, s')
        end
    end.

(** ** [splitKeyValueArgs] (util/cli) *)

(** [s.split("=")] *)
Fixpoint split_equals (s : jsstring) : list jsstring :=
  match s with
  | [] => [[]]
  | c :: s' =>
      if c =? 61 then [] :: split_equals s'
      else
        match split_equals s' with
        | segment :: rest => (c :: segment) :: rest
        | [] => [[c]]
        end
  end.

(** The properties every object literal inherits from
    [Object.prototype]: [key in obj] holds for them before anything is
    stored. *)
Definition object_prototype_keys : list jsstring :=
  [js "constructor"; js "__defineGetter__"; js "__defineSetter__";
   js "hasOwnProperty"; js "__lookupGetter__"; js "__lookupSetter__";
   js "isPrototypeOf"; js "propertyIsEnumerable"; js "toString";
   js "valueOf"; js "__proto__"; js "toLocaleString"].

(** [key in obj] for an object literal with the own properties [obj]. *)
Definition key_in (key : jsstring) (obj : gmap jsstring jsstring) : bool :=
  bool_decide (is_Some (obj !! key)) || includes object_prototype_keys key.

(** The loop of [splitKeyValueArgs] from the object built so far.
    [program.error(message)] prints the message and ends the process:
    [inl message]. *)
Fixpoint splitKeyValueArgs_from (obj : gmap jsstring jsstring)
    (args : list jsstring) : jsstring + gmap jsstring jsstring :=
  match args with
  | [] => inr obj
  | kvPair :: rest =>
      match split_equals kvPair with
      | [] => inl (js "Invalid key-value pair: " ++ kvPair)
      | key :: valueParts =>
          let value := join_with (js "=") valueParts in
          match key, value with
          | [], _ | _, [] => inl (js "Invalid key-value pair: " ++ kvPair)
          | _, _ =>
              if key_in key obj then inl (js "Duplicate key: " ++ key)
              else splitKeyValueArgs_from (<[key := value]> obj) rest
          end
      end
  end.

Definition splitKeyValueArgs (args : list jsstring)
    : jsstring + gmap jsstring jsstring :=
  splitKeyValueArgs_from ∅ args.

(** ** Vocabulary of the further properties *)

(** What [validateSslCert] may do to the outside: run [openssl] with
    nothing on its input, and print. *)
Definition validator_event (e : Event) : Prop :=
  match e with
  | Spawn command _ StdioIgnorePipeInherit None => command = js "openssl"
  | Console ConsoleLog _ | Console ConsoleWarn _ => True
  | _ => False
  end.

(** [emits P m]: the events a computation over the world adds all satisfy
    [P], and it never ends the process. *)
Definition emits {A} (P : Event -> Prop) (m : M World A) : Prop :=
  forall w,
    (exists evs, trace (snd (m w)) = trace w ++ evs /\ Forall P evs)
    /\ (forall c, fst (m w) <> Exit c).

(** [obeys I P T X m]: from a builder that satisfies [I], the method [m]
    leaves a builder that satisfies [I], adds only events that satisfy
    [P], throws only errors that satisfy [T] and exits only with a status
    that satisfies [X]. *)
Definition obeys {A} (I : Builder -> Prop) (P : Event -> Prop)
    (T : JsError -> Prop) (X : Z -> Prop) (m : M State A) : Prop :=
  forall st,
    I (this st) ->
    I (this (snd (m st)))
    /\ (exists evs,
          trace (world (snd (m st))) = trace (world st) ++ evs /\ Forall P evs)
    /\ (forall e, fst (m st) = Throw e -> T e)
    /\ (forall c, fst (m st) = Exit c -> X c).

(** The configuration of a builder: what no method assigns to. *)
Definition same_configuration (b0 b : Builder) : Prop :=
  options b = options b0
  /\ certDir b = certDir b0
  /\ sharedConfig b = sharedConfig b0
  /\ persistentRootCAKeyPath b = persistentRootCAKeyPath b0
  /\ verbose_log b = verbose_log b0.

(** From [b0] to [b] the configuration stayed, a recorded workspace
    stayed, and [#newCAs] only grew at its end. *)
Definition evolved_from (b0 b : Builder) : Prop :=
  same_configuration b0 b
  /\ (truthy (tempDir b0) = true -> tempDir b = tempDir b0)
  /\ (exists added, newCAs b = newCAs b0 ++ added).

(** The workspace of the builder is recorded. *)
Definition has_workspace (b : Builder) : Prop := truthy (tempDir b) = true.



(** The events between two states of a run. *)
Definition events_since (before after : State) : list Event :=
  drop (length (trace (world before))) (trace (world after)).

(** What the issuing methods may do to the outside when safe mode is
    [safe] and the root key is persistent or not: they put a question to
    the operator only in safe mode, the only password they prompt for is
    that of a persistent root key, and they never make a directory other
    than the workspace nor remove anything. *)
Definition issuing_event (safe persistent : bool) (e : Event) : Prop :=
  match e with
  | Question _ _ => safe = true
  | PasswordPrompt prompt retypePrompt _ =>
      persistent = true
      /\ prompt = js "Create a password for the root CA: "
      /\ retypePrompt = js "Confirm password: "
  | Mkdir _ | RmRecursive _ => False
  | _ => True
  end.

(** An event in which the operator is asked nothing. *)
Definition asks_nothing (e : Event) : Prop :=
  match e with
  | Question _ _ | PasswordPrompt _ _ _ => False
  | _ => True
  end.

(** What they may do once the workspace [d] is recorded: the only file
    they write themselves is the extension file of an SSL cert, inside
    [d], and they make no directory at all. *)
Definition workspace_event (env : Env) (d : jsstring) (e : Event) : Prop :=
  match e with
  | WriteFile path _ => path = path_join env d (js "ssl_extensions.conf")
  | Mkdtemp _ _ | Mkdir _ | RmRecursive _ => False
  | _ => True
  end.

(** A promise that does not reject: the method returns, or the process
    exits with status 1. *)
Definition settles {A} (o : Outcome A) : Prop :=
  match o with
  | Ret _ => True
  | Throw _ => False
  | Exit c => c = 1%Z
  end.

(** [registers I Q m]: from a builder that satisfies [I], the method [m]
    leaves a builder that satisfies [Q] when it returns, and one that
    still satisfies [I] when it does not. *)
Definition registers {A} (I Q : Builder -> Prop) (m : M State A) : Prop :=
  forall st,
    I (this st) ->
    match fst (m st) with
    | Ret _ => Q (this (snd (m st)))
    | _ => I (this (snd (m st)))
    end.

(** Where [createRootCA] puts the certificate of the root CA, for a
    configuration that has the section [root_distinguished_name] (without
    it the methods that need this path throw). *)
Definition root_cert_path (env : Env) (b : Builder) : jsstring :=
  path_join env (certDir b)
    (interpolate (get2 (sharedConfig b) (js "root_distinguished_name")
                    (js "commonName")) ++ js ".crt").

(** When the exit handler cannot go on: the workspace could not be
    removed, and it holds the key of an ephemeral root CA. *)
Definition cleanup_fatal (env : Env) (st : State) : bool :=
  match tempDir (this st) with
  | Some (c :: d) =>
      match rmSync env (c :: d) (fs (world st)) with
      | inl _ =>
          negb (truthy (persistentRootCAKeyPath (this st)))
          && match rootCAInfo (this st) with
             | Some info => truthy (Some (keyPath info))
             | None => false
             end
      | inr _ => false
      end
  | _ => false
  end.

(** What a trace removes with [fs.rmSync]. *)
Definition removed (t : list Event) : list jsstring :=
  omap (fun e => match e with RmRecursive path => Some path | _ => None end) t.

(** An engine run, if the event is one, is a certificate request. *)
Definition request_only (e : Event) : Prop :=
  match e with
  | Spawn _ args _ _ => head args = Some (js "req")
  | _ => True
  end.

(** A key-value pair as [splitKeyValueArgs] takes it: a non-empty key
    without [=] that is not a property every object has, and a non-empty
    value.  [encode_pair] writes it as [key=value]. *)
Definition well_formed_pair (kv : jsstring * jsstring) : Prop :=
  fst kv <> [] /\ (61 ∉ fst kv) /\ snd kv <> []
  /\ fst kv ∉ object_prototype_keys.

Definition encode_pair (kv : jsstring * jsstring) : jsstring :=
  fst kv ++ js "=" ++ snd kv.

(** ** The commands (index.js) *)

(** [validate <crt> <key> [hostnames...]]: the action of the command. *)
Definition validate_command (env : Env) (crt key : jsstring)
    (hostnames : list jsstring) (verbose : bool) : M World unit :=
  validateSslCert env {| certPath := crt; keyPath := key; password := None |}
    hostnames verbose;;
  console ConsoleLog [VString (js "Certificate validation successful.")].

(** [issue <directory> <hostnames...>]: the action of the command.
    [name] and [root] are the values of [--name] and [--root], [None]
    when the option is not given; [yes] is [--yes]. *)
Definition issue_command (env : Env) (key_settles_first : bool)
    (directory : jsstring) (hostnames : list jsstring)
    (name root : option jsstring) (verbose yes : bool)
    : M State (option CertInfo) :=
  _ <- create env directory root
         (Some (new_CertOptions
                  {| cfg_org := Some (default (js "Acme") name);
                     cfg_countryName := None; cfg_keyType := None;
                     cfg_keyCipher := None; cfg_safeMode := Some (negb yes) |}))
         verbose;;
  issueSslCert env key_settles_first (SslArray hostnames) None.

(** The process of the [issue] command.  The exit handler is registered
    by the constructor, which [create] reaches only when the engine is
    available; without the engine the rejection ends the process with no
    handler to run. *)
Definition issue_process (env : Env) (key_settles_first : bool)
    (directory : jsstring) (hostnames : list jsstring)
    (name root : option jsstring) (verbose yes : bool) (st : State)
    : Outcome (option CertInfo) * State :=
  let main :=
    issue_command env key_settles_first directory hostnames name root verbose yes in
  if openssl_available env then run_process env main st else main st.

(** What the operator is asked by [issue --yes]: the offers of
    [issueSslCert] to create a missing CA and, when [--root] gave a path
    for the key of the root CA, the password of a root CA that is
    created. *)
Definition offers_to_create (root : option jsstring) (e : Event) : Prop :=
  match e with
  | Question q _ =>
      q = js "Create one now? (Y/n) "
      \/ q = js "Intermediate CA not found. Create one now? (Y/n) "
  | PasswordPrompt prompt retypePrompt _ =>
      truthy root = true
      /\ prompt = js "Create a password for the root CA: "
      /\ retypePrompt = js "Confirm password: "
  | _ => True
  end.

(** The extensions of an SSL cert for [hostnames], as they are to stand in
    its extension file. *)
Definition ssl_extensions_for (hostnames : list jsstring) : Config :=
  [ (js "cert_extensions",
      [ (js "basicConstraints", js "critical,CA:FALSE");
        (js "keyUsage", js "critical,digitalSignature,keyEncipherment");
        (js "extendedKeyUsage", js "serverAuth,clientAuth");
        (js "subjectKeyIdentifier", js "hash");
        (js "subjectAltName",
          join_with (js ",") (map (fun hostname => js "DNS:" ++ hostname) hostnames));
        (js "authorityKeyIdentifier", js "keyid:always") ]) ].

(** What issuing an SSL cert for [hostnames] may do, with the workspace
    [d]: the only file written is the extension file, with these
    extensions; an engine run is the certificate request, or a signing
    that takes its extensions from that file. *)
Definition ssl_issuing_event (env : Env) (d : jsstring) (hostnames : list jsstring)
    (e : Event) : Prop :=
  match e with
  | WriteFile path content =>
      path = path_join env d (js "ssl_extensions.conf")
      /\ content = render_conf (ssl_extensions_for hostnames)
  | Spawn command args _ _ =>
      command = js "openssl"
      /\ (head args = Some (js "req")
          \/ (head args = Some (js "x509")
              /\ exists before after,
                   args = before
                          ++ [js "-extensions"; js "cert_extensions"]
                          ++ after
                   /\ exists before' after',
                        args = before'
                               ++ [js "-extfile";
                                   path_join env d (js "ssl_extensions.conf")]
                               ++ after'))
  | Mkdtemp _ _ | Mkdir _ | RmRecursive _ => False
  | _ => True
  end.


(** What [createRootCA] may do for an ephemeral root CA, with the
    workspace [d]: it writes no file itself, and an engine run is told to
    put the key into [d] and to read its password, the random one, from
    the standard input. *)
Definition ephemeral_root_event (env : Env) (d : jsstring) (e : Event) : Prop :=
  match e with
  | Spawn command args _ stdin =>
      command = js "openssl"
      /\ stdin = Some (randomHex32 env)
      /\ exists before after,
           args = before
                  ++ [js "-keyout"; path_join env d (js "$certName.key");
                      js "-passout"; js "stdin"]
                  ++ after
  | WriteFile _ _ | Mkdtemp _ _ | Mkdir _ | RmRecursive _ => False
  | _ => True
  end.

(** ** The entries of an alternative-names text, as the specification
    speaks of them

    The text [openssl x509 -ext subjectAltName] prints is a list of
    items, divided by commas and line feeds.  An item in which the tag
    [DNS:] is followed by something holds an entry, whose value is what
    follows the first [DNS:] up to the end of the item (the tag need not
    begin the item).  These definitions do not use the regular expression
    of the source; [cert_names] is compared with them. *)

Definition is_separator (c : N) : bool := (c =? 44) || (c =? 10).

(** The items of a text: what lies between its separators. *)
Fixpoint fields (s : jsstring) : list jsstring :=
  match s with
  | [] => [[]]
  | c :: s' =>
      if is_separator c then [] :: fields s'
      else
        match fields s' with
        | item :: items => (c :: item) :: items
        | [] => [[c]]
        end
  end.

(** What follows the first occurrence of [tag] in [s]. *)
Fixpoint after_first (tag s : jsstring) : option jsstring :=
  if bool_decide (tag `prefix_of` s) then Some (drop (length tag) s)
  else
    match s with
    | [] => None
    | _ :: s' => after_first tag s'
    end.

(** The value of the [DNS:] entry an item holds, if it holds one. *)
Definition dns_entry (item : jsstring) : option jsstring :=
  match after_first (js "DNS:") item with
  | Some (c :: value) => Some (c :: value)
  | _ => None
  end.

(** Every [DNS:] entry of a text, in the order of the text. *)
Definition dns_entries (altNames : jsstring) : list jsstring :=
  omap dns_entry (fields altNames).



Fixpoint after_item (s : jsstring) : jsstring :=
  match s with
  | c :: s' => if is_separator c then s else after_item s'
  | [] => []
  end.

(** * Properties *)

(** ** Basic facts about computations and traces *)

Lemma bind_ret_tt {S} (m : M S unit) (s : S) :
  bind m (fun _ => ret tt) s = m s.
Proof.
  unfold bind, ret. destruct (m s) as [[[]|e|c] s']; reflexivity.
Qed.

Lemma spawned_app (t1 t2 : list Event) :
  spawned (t1 ++ t2) = spawned t1 ++ spawned t2.
Proof. unfold spawned. apply omap_app. Qed.

Lemma invocations_app (t1 t2 : list Event) :
  invocations (t1 ++ t2) = invocations t1 ++ invocations t2.
Proof. unfold invocations. apply omap_app. Qed.

Lemma logged_app (t1 t2 : list Event) :
  logged (t1 ++ t2) = logged t1 ++ logged t2.
Proof. unfold logged. apply omap_app. Qed.

(** An awaited [spawnAsync] adds exactly its own invocation to the trace
    and never ends the process. *)
Lemma spawnAsync_spec env command args stdio stdin w :
  exists o w',
    spawnAsync env command args stdio stdin w = (o, w')
    /\ trace w' = trace w ++ [Spawn command args stdio stdin]
    /\ (forall c, o <> Exit c).
Proof.
  unfold spawnAsync.
  destruct (spawn env command args stdin (fs w)) as [[[[| |]|] out|e] fs'];
    eexists _, _; (split; [reflexivity|]); split; try reflexivity;
    intros c; discriminate.
Qed.

Lemma log_spawned verbose args w :
  fst (log verbose args w) = Ret tt
  /\ spawned (trace (snd (log verbose args w))) = spawned (trace w).
Proof.
  unfold log, when, console, emit, ret. destruct verbose; simpl.
  - split; [reflexivity|]. rewrite spawned_app. simpl. apply app_nil_r.
  - split; reflexivity.
Qed.

Lemma runOpenSSL_spec env verbose args w :
  exists o w',
    runOpenSSL env verbose args w = (o, w')
    /\ spawned (trace w') = spawned (trace w) ++ [args]
    /\ (forall c, o <> Exit c).
Proof.
  unfold runOpenSSL, bind.
  destruct (log_spawned verbose
              [VString (js "% openssl " ++ join_with (js " ") args)] w)
    as [Hl Ht].
  destruct (log verbose _ w) as [o0 w0]. simpl in Hl, Ht. subst o0.
  destruct (spawnAsync_spec env (js "openssl") args StdioIgnorePipeInherit None w0)
    as (o & w' & E & T & X).
  exists o, w'. split; [exact E|]. split; [|exact X].
  rewrite T, spawned_app, Ht. reflexivity.
Qed.

Ltac step_openssl env verbose args w out w1 :=
  let o := fresh "o" in
  let E := fresh "E" in
  let T := fresh "T" in
  let X := fresh "X" in
  destruct (runOpenSSL_spec env verbose args w) as (o & w1 & E & T & X);
  rewrite E; clear E;
  destruct o as [out|?e|?c]; [| | exfalso; eapply X; reflexivity].

Lemma single_call_check env verbose args :
  makes_calls (_ <- runOpenSSL env verbose args;; ret tt) [args].
Proof.
  intros w. unfold bind, ret.
  step_openssl env verbose args w out w1; simpl.
  - exists 1%nat. split; [exact T|reflexivity].
  - exists 1%nat. split; [exact T|discriminate].
Qed.

Lemma expirationWindow_calls env certInfo verbose :
  makes_calls (expirationWindow env certInfo verbose) [enddate_args certInfo].
Proof.
  intros w. unfold expirationWindow, bind.
  step_openssl env verbose (enddate_args certInfo) w out w1; simpl;
    [|exists 1%nat; split; [exact T|discriminate]].
  exists 1%nat.
  destruct (Regex.exec notAfter_re out) as [m|]; [|simpl; split; [exact T|discriminate]].
  cbv zeta.
  destruct (date_ge _ _); [simpl; split; [exact T|discriminate]|].
  unfold when, console, emit, log, ret.
  destruct (num_lt _ _), verbose; simpl;
    rewrite ?spawned_app; simpl; rewrite ?app_nil_r; split; auto.
Qed.

Lemma nameCoverage_calls env certInfo hostnames verbose :
  makes_calls (nameCoverage env certInfo hostnames verbose)
    [subject_args certInfo; altNames_args certInfo].
Proof.
  intros w. unfold nameCoverage, bind.
  step_openssl env verbose (subject_args certInfo) w subj w1; simpl;
    [|exists 1%nat; split; [exact T|discriminate]].
  step_openssl env verbose (altNames_args certInfo) w1 alt w2; simpl;
    [|exists 2%nat; split; [rewrite T0, T, <- app_assoc; reflexivity|discriminate]].
  exists 2%nat.
  assert (T2 : spawned (trace w2)
               = spawned (trace w) ++ [subject_args certInfo; altNames_args certInfo])
    by (rewrite T0, T, <- app_assoc; reflexivity).
  destruct (Regex.exec subject_cn_re subj) as [m|]; [|simpl; split; [exact T2|discriminate]].
  cbv zeta. unfold when, console, emit, log, ret, throw.
  destruct verbose, (0 <? length _)%nat; simpl;
    rewrite ?spawned_app; simpl; rewrite ?app_nil_r; split; auto.
Qed.

Lemma keyPairing_calls env certInfo verbose :
  makes_calls (keyPairing env certInfo verbose)
    [cert_modulus_args certInfo; key_modulus_args certInfo].
Proof.
  intros w. unfold keyPairing, bind.
  step_openssl env verbose (cert_modulus_args certInfo) w modc w1; simpl;
    [|exists 1%nat; split; [exact T|discriminate]].
  step_openssl env verbose (key_modulus_args certInfo) w1 modk w2; simpl;
    [|exists 2%nat; split; [rewrite T0, T, <- app_assoc; reflexivity|discriminate]].
  exists 2%nat. unfold throw, ret.
  destruct (bool_decide _); simpl;
    (split; [rewrite T0, T, <- app_assoc; reflexivity|auto]).
Qed.

(** Running a list of checks one after the other is fail-fast. *)
Lemma in_sequence_fail_fast {S} (cs : list (M S unit)) (s : S) :
  FailFast cs s (fst (in_sequence cs s)) (snd (in_sequence cs s)).
Proof.
  revert s. induction cs as [|c cs IH]; intros s; simpl.
  - apply FailFast_done.
  - unfold bind. destruct (c s) as [[[]|e|code] s1] eqn:E.
    + eapply FailFast_pass; [exact E|apply IH].
    + simpl. eapply FailFast_stop; [exact E|discriminate].
    + simpl. eapply FailFast_stop; [exact E|discriminate].
Qed.

(** The calls of a fail-fast run are a prefix of the calls of its checks. *)
Lemma fail_fast_calls cs Ls w o w' :
  Forall2 makes_calls cs Ls ->
  FailFast cs w o w' ->
  exists n,
    spawned (trace w') = spawned (trace w) ++ take n (concat Ls)
    /\ (o = Ret tt -> n = length (concat Ls)).
Proof.
  intros HF Hrun. revert Ls HF.
  induction Hrun as [s|c cs s s1 o s2 Hc Hrest IH|c cs s o s1 Hc Hne];
    intros Ls HF.
  - inversion HF; subst. exists 0%nat. simpl. rewrite app_nil_r. auto.
  - inversion HF as [|? L ? Ls' HcL HF']; subst.
    destruct (HcL s) as (n & Hn & Hall). rewrite Hc in Hn, Hall. simpl in Hn, Hall.
    specialize (Hall eq_refl). subst n. rewrite firstn_all in Hn.
    destruct (IH _ HF') as (m & Hm & Hmall).
    exists (length L + m)%nat. split.
    + rewrite Hm, Hn, <- app_assoc. f_equal. simpl.
      rewrite take_app_add'; reflexivity.
    + intros Ho. rewrite (Hmall Ho). simpl. rewrite length_app. reflexivity.
  - inversion HF as [|? L ? Ls' HcL HF']; subst.
    destruct (HcL s) as (n & Hn & Hall). rewrite Hc in Hn, Hall. simpl in Hn, Hall.
    exists (n `min` length L)%nat. split.
    + rewrite Hn. f_equal. simpl.
      rewrite take_app_le by lia. rewrite <- take_take, firstn_all. reflexivity.
    + intros Ho. contradiction.
Qed.

Lemma bind_ext {S A B} (m : M S A) (k k' : A -> M S B) (s : S) :
  (forall a s', k a s' = k' a s') -> bind m k s = bind m k' s.
Proof.
  intros H. unfold bind. destruct (m s) as [[a|e|c] s']; auto.
Qed.

Lemma validateSslCert_in_sequence env certInfo hostnames verbose w :
  validateSslCert env certInfo hostnames verbose w
  = in_sequence (checks env certInfo hostnames verbose)
      (snd (log verbose
              [VString (js "Validating SSL cert " ++ certPath certInfo
                        ++ js " for hostnames:"); VArray hostnames] w)).
Proof.
  unfold validateSslCert.
  unfold bind at 1.
  destruct (log_spawned verbose
              [VString (js "Validating SSL cert " ++ certPath certInfo
                        ++ js " for hostnames:"); VArray hostnames] w) as [Hl _].
  destruct (log verbose _ w) as [o w0]. cbn [fst snd] in *. subst o.
  unfold checks, in_sequence, fold_right.
  repeat (apply bind_ext; intros ? ?).
  symmetry. apply bind_ret_tt.
Qed.

Lemma checks_make_calls env certInfo hostnames verbose :
  Forall2 makes_calls (checks env certInfo hostnames verbose)
    [[checkend_args certInfo]; [rsa_check_args certInfo];
     [verify_args certInfo verbose]; [enddate_args certInfo];
     [subject_args certInfo; altNames_args certInfo];
     [cert_modulus_args certInfo; key_modulus_args certInfo]].
Proof.
  unfold checks.
  constructor; [exact (single_call_check env verbose (checkend_args certInfo))|].
  constructor; [exact (single_call_check env verbose (rsa_check_args certInfo))|].
  constructor; [exact (single_call_check env verbose (verify_args certInfo verbose))|].
  constructor; [exact (expirationWindow_calls env certInfo verbose)|].
  constructor; [exact (nameCoverage_calls env certInfo hostnames verbose)|].
  constructor; [exact (keyPairing_calls env certInfo verbose)|].
  constructor.
Qed.

(** C1.  [validateSslCert] runs the six checks in the order expiry, key
    integrity, trust chain, expiration window, name coverage, key pairing,
    fail-fast: the first check that does not succeed ends the validation
    with its own error, in the world that check left, so that no later
    check has run.  Accordingly the engine invocations made are an initial
    segment of the eight invocations of the checks, in their order, and
    all eight when the validation succeeds. *)
Theorem validateSslCert_checks_in_order env certInfo hostnames verbose w :
  let start :=
    snd (log verbose
           [VString (js "Validating SSL cert " ++ certPath certInfo
                     ++ js " for hostnames:"); VArray hostnames] w) in
  let result := validateSslCert env certInfo hostnames verbose w in
  FailFast (checks env certInfo hostnames verbose) start (fst result) (snd result)
  /\ exists n,
       spawned (trace (snd result))
       = spawned (trace w) ++ take n (validation_calls certInfo verbose)
       /\ (fst result = Ret tt -> n = 8%nat).
Proof.
  intros start result.
  assert (Hrun : FailFast (checks env certInfo hostnames verbose) start
                   (fst result) (snd result)).
  { subst result. rewrite validateSslCert_in_sequence.
    apply in_sequence_fail_fast. }
  split; [exact Hrun|].
  destruct (fail_fast_calls _ _ _ _ _
              (checks_make_calls env certInfo hostnames verbose) Hrun)
    as (n & Hn & Hall).
  exists n. split.
  - rewrite Hn. subst start.
    destruct (log_spawned verbose
                [VString (js "Validating SSL cert " ++ certPath certInfo
                          ++ js " for hostnames:"); VArray hostnames] w) as [_ Ht].
    rewrite Ht. reflexivity.
  - intros Ho. apply Hall in Ho. exact Ho.
Qed.

(** The scripted validation stops at the trust-chain check when the
    engine rejects the chain: three invocations, and the engine's error. *)
Example validateSslCert_stops_at_verify :
  let r := validateSslCert (Demo.env [js "verify"] (js "in 20 days") (js "n"))
             Demo.cert [js "a.test"] false Demo.empty_world in
  fst r = Throw (command_failed (js "openssl")
                   (verify_args Demo.cert false) (Some 1%Z))
  /\ spawned (trace (snd r))
     = [checkend_args Demo.cert; rsa_check_args Demo.cert;
        verify_args Demo.cert false].
Proof. vm_compute. split; reflexivity. Qed.

(** ** Name coverage *)

Lemma warnings_app (t1 t2 : list Event) :
  warnings (t1 ++ t2) = warnings t1 ++ warnings t2.
Proof. unfold warnings. apply omap_app. Qed.




Lemma after_item_length s : (length (after_item s) <= length s)%nat.
Proof.
  induction s as [|c s IH]; cbn; [lia|]. destruct (is_separator c); cbn; lia.
Qed.



Lemma dns_entry_nil : dns_entry [] = None.
Proof. reflexivity. Qed.

















(** The entries of a text as [openssl] prints it, and of one in which the
    tag does not begin the item or is followed by nothing. *)
Example dns_entries_demo :
  dns_entries (js "X509v3 Subject Alternative Name: " ++ nl
               ++ js "    DNS:a.test, DNS:b.test" ++ nl)
  = [js "a.test"; js "b.test"]
  /\ dns_entries (js "DNS:, IP Address:127.0.0.1, URI:DNS:c.test,DNS:d.test")
     = [js "c.test"; js "d.test"].
Proof. split; vm_compute; reflexivity. Qed.

(** The same through the whole validation. *)
Example validateSslCert_lists_missing_test :
  fst (validateSslCert (Demo.env [] (js "in 20 days") (js "n")) Demo.cert
         [js "a.test"; js "missing.test"] false Demo.empty_world)
  = Throw (missing_error [js "missing.test"]).
Proof. vm_compute. reflexivity. Qed.

(** ** Expiration window *)

(** C3.  Given the output of the engine's end-date command: when it does
    not match [notAfter=...] the step throws the parse error; when it does
    and the time [t] it parses to is reached ([now >= t]) the step throws
    the expiry error; when [t] lies ahead by strictly less than fourteen
    days the step succeeds after printing one warning; when it lies ahead
    by fourteen days or more, or the text is no date at all, the step
    succeeds without a warning.  No other effect reaches the file
    system or the engine. *)
Theorem expirationWindow_cases env certInfo verbose w out w1 :
  runOpenSSL env verbose (enddate_args certInfo) w = (Ret out, w1) ->
  let result := expirationWindow env certInfo verbose w in
  let now := date_now env in
  let warning text :=
    [VString (js "Warning: Certificate expires on "
              ++ toUTCString env (date_parse env text))] in
  (Regex.exec notAfter_re out = None ->
   result = (Throw (Error (js "Could not parse certificate expiration date.")), w1))
  /\ (forall m t,
        Regex.exec notAfter_re out = Some m ->
        date_parse env (Regex.group1 m) = Some t ->
        (now >= t)%Z ->
        result = (Throw (Error (js "Certificate expired on "
                                ++ toUTCString env (Some t))), w1))
  /\ (forall m t,
        Regex.exec notAfter_re out = Some m ->
        date_parse env (Regex.group1 m) = Some t ->
        (now < t)%Z -> (t - now < 14 * 24 * 60 * 60 * 1000)%Z ->
        fst result = Ret tt
        /\ warnings (trace (snd result))
           = warnings (trace w1) ++ [warning (Regex.group1 m)]
        /\ spawned (trace (snd result)) = spawned (trace w1)
        /\ fs (snd result) = fs w1)
  /\ (forall m t,
        Regex.exec notAfter_re out = Some m ->
        date_parse env (Regex.group1 m) = Some t ->
        (now < t)%Z -> (t - now >= 14 * 24 * 60 * 60 * 1000)%Z ->
        fst result = Ret tt
        /\ warnings (trace (snd result)) = warnings (trace w1)
        /\ spawned (trace (snd result)) = spawned (trace w1)
        /\ fs (snd result) = fs w1)
  /\ (forall m,
        Regex.exec notAfter_re out = Some m ->
        date_parse env (Regex.group1 m) = None ->
        fst result = Ret tt
        /\ warnings (trace (snd result)) = warnings (trace w1)
        /\ spawned (trace (snd result)) = spawned (trace w1)
        /\ fs (snd result) = fs w1).
Proof.
  intros Hrun result now warning.
  assert (Hres : result
    = match Regex.exec notAfter_re out with
      | Some m =>
          let notAfter := date_parse env (Regex.group1 m) in
          if date_ge (Some now) notAfter then
            (Throw (Error (js "Certificate expired on "
                           ++ toUTCString env notAfter)), w1)
          else
            bind (when (num_lt (date_sub notAfter (Some now)) fourteen_days)
                    (console ConsoleWarn (warning (Regex.group1 m))))
              (fun _ => log verbose
                          [VString (js "Certificate valid until "
                                    ++ toUTCString env notAfter)]) w1
      | None =>
          (Throw (Error (js "Could not parse certificate expiration date.")), w1)
      end).
  { subst result. unfold expirationWindow, bind at 1. rewrite Hrun.
    destruct (Regex.exec notAfter_re out) as [m|]; [|reflexivity].
    cbv zeta. destruct (date_ge _ _); reflexivity. }
  clearbody result. subst result.
  split; [intros Hm; rewrite Hm; reflexivity|].
  split; [|split; [|split]].
  - intros m t Hm Ht Hge. rewrite Hm. cbv zeta. rewrite Ht.
    unfold date_ge. rewrite (proj2 (Z.leb_le t now)) by lia. reflexivity.
  - intros m t Hm Ht Hlt Hnear. rewrite Hm. cbv zeta. rewrite Ht.
    unfold date_ge. rewrite (proj2 (Z.leb_gt t now)) by lia.
    unfold date_sub, num_lt, fourteen_days.
    rewrite (proj2 (Z.ltb_lt (t - now) _)) by lia.
    unfold warning, log, bind, when, console, emit, ret.
    destruct verbose; cbn [fst snd trace fs];
      rewrite ?warnings_app, ?spawned_app; cbn [warnings spawned omap];
      rewrite ?app_nil_r, <- ?app_assoc; auto.
  - intros m t Hm Ht Hlt Hfar. rewrite Hm. cbv zeta. rewrite Ht.
    unfold date_ge. rewrite (proj2 (Z.leb_gt t now)) by lia.
    unfold date_sub, num_lt, fourteen_days.
    rewrite (proj2 (Z.ltb_ge (t - now) _)) by lia.
    unfold log, bind, when, console, emit, ret.
    destruct verbose; cbn [fst snd trace fs];
      rewrite ?warnings_app, ?spawned_app; cbn [warnings spawned omap];
      rewrite ?app_nil_r, <- ?app_assoc; auto.
  - intros m Hm Ht. rewrite Hm. cbv zeta. rewrite Ht.
    unfold date_ge, date_sub, num_lt.
    unfold log, bind, when, console, emit, ret.
    destruct verbose; cbn [fst snd trace fs];
      rewrite ?warnings_app, ?spawned_app; cbn [warnings spawned omap];
      rewrite ?app_nil_r, <- ?app_assoc; auto.
Qed.

(** A certificate that expires in ten days passes with the warning. *)
Lemma expirationWindow_cases_witness :
  let env := Demo.env [] (js "in 10 days") (js "n") in
  let w := Demo.empty_world in
  let out := js "notAfter=in 10 days" ++ nl in
  let w1 := snd (runOpenSSL env false (enddate_args Demo.cert) w) in
  runOpenSSL env false (enddate_args Demo.cert) w = (Ret out, w1)
  /\ fst (expirationWindow env Demo.cert false w) = Ret tt
  /\ warnings (trace (snd (expirationWindow env Demo.cert false w)))
     = [[VString (js "Warning: Certificate expires on 1700864000000")]].
Proof.
  intros env w out w1.
  assert (H : runOpenSSL env false (enddate_args Demo.cert) w = (Ret out, w1))
    by (vm_compute; reflexivity).
  split; [exact H|].
  destruct (expirationWindow_cases env Demo.cert false w out w1 H)
    as (_ & _ & Hnear & _).
  destruct (Hnear [js "in 10 days"] (Demo.now + 10 * Demo.day)%Z)
    as (Hok & Hwarn & _).
  - vm_compute. reflexivity.
  - vm_compute. reflexivity.
  - vm_compute. reflexivity.
  - vm_compute. reflexivity.
  - split; [exact Hok|]. rewrite Hwarn. vm_compute. reflexivity.
Defined.

(** Twenty days ahead: no warning.  Already past: the expiry error.  No
    [notAfter] line: the parse error. *)
Example expirationWindow_20_days :
  let r := expirationWindow (Demo.env [] (js "in 20 days") (js "n"))
             Demo.cert false Demo.empty_world in
  fst r = Ret tt /\ warnings (trace (snd r)) = [].
Proof. vm_compute. split; reflexivity. Qed.

Example expirationWindow_expired :
  fst (expirationWindow (Demo.env [] (js "yesterday") (js "n"))
         Demo.cert false Demo.empty_world)
  = Throw (Error (js "Certificate expired on 1699913600000")).
Proof. vm_compute. reflexivity. Qed.

Example expirationWindow_unparsable :
  fst (expirationWindow (Demo.env [] [] (js "n")) Demo.cert false Demo.empty_world)
  = Throw (Error (js "Could not parse certificate expiration date.")).
Proof. vm_compute. reflexivity. Qed.

(** ** Declined overwrite *)

Lemma confirm_spec env question assumeTrue w :
  exists ok,
    confirm env question assumeTrue w
    = (Ret ok,
       {| fs := fs w;
          trace := trace w
                   ++ [Question (question ++ js " ("
                                 ++ (if default false assumeTrue
                                     then js "Y/n" else js "y/N") ++ js ") ")
                         (operator env (question ++ js " ("
                                        ++ (if default false assumeTrue
                                            then js "Y/n" else js "y/N")
                                        ++ js ") "))] |}).
Proof.
  unfold confirm, bind, emit, ret. cbv zeta.
  destruct (operator env _); eexists; reflexivity.
Qed.

(** The safe-mode loop only talks to the operator: it leaves the builder
    and the file system alone, and it always comes to an answer. *)
Lemma confirm_overwrite_spec env paths st :
  exists ok evs,
    confirm_overwrite env paths st
    = (Ret ok, {| this := this st;
                  world := {| fs := fs (world st);
                              trace := trace (world st) ++ evs |} |})
    /\ Forall only_talks evs.
Proof.
  revert st. induction paths as [|path rest IH]; intros [b [f t]].
  - exists true, []. cbn [confirm_overwrite this world fs trace]. unfold ret.
    rewrite app_nil_r. split; [reflexivity|constructor].
  - cbn [confirm_overwrite].
    unfold bind at 1, liftW at 1, exists_now, get_world, bind at 1, ret at 1.
    cbn [this world fs trace].
    destruct (existsSync f path).
    + unfold bind at 1, liftW at 1. cbn [this world].
      destruct (confirm_spec env (js "Overwrite existing file " ++ path ++ js "?")
                  None {| fs := f; trace := t |}) as (ok & Hc).
      rewrite Hc. cbn [fs trace]. destruct ok; cbn [negb].
      * match goal with |- context [confirm_overwrite env rest ?s] =>
          destruct (IH s) as (ok' & evs & Hr & Hev); rewrite Hr end.
        cbn [this world fs trace].
        eexists ok', (_ :: evs). rewrite <- app_assoc. split; [reflexivity|].
        constructor; [exact I|exact Hev].
      * unfold bind, liftW, console, emit, ret. cbn [this world fs trace].
        eexists false, [_; _]. rewrite <- app_assoc. split; [reflexivity|].
        repeat constructor.
    + destruct (IH {| this := b; world := {| fs := f; trace := t |} |})
        as (ok' & evs & Hr & Hev).
      rewrite Hr. cbn [this world fs trace]. eexists ok', evs.
      split; [reflexivity|exact Hev].
Qed.

(** A declined path ends the loop with [false]. *)
Lemma confirm_overwrite_declined env paths st path :
  path ∈ paths ->
  existsSync (fs (world st)) path = true ->
  declines env (js "Overwrite existing file " ++ path ++ js "?") ->
  fst (confirm_overwrite env paths st) = Ret false.
Proof.
  intros Hin. revert st.
  induction paths as [|p rest IH]; intros [b [f t]] Hex Hno; [inversion Hin|].
  cbn [this world fs] in Hex.
  cbn [confirm_overwrite].
  unfold bind at 1, liftW at 1, exists_now, get_world, bind at 1, ret at 1.
  cbn [this world fs trace].
  destruct (existsSync f p) eqn:Hp.
  - unfold bind at 1, liftW at 1. cbn [this world].
    destruct (confirm_spec env (js "Overwrite existing file " ++ p ++ js "?")
                None {| fs := f; trace := t |}) as (ok & Hc).
    rewrite Hc. cbn [fs trace]. destruct ok; cbn [negb].
    + apply list_elem_of_In in Hin. destruct Hin as [<-|Hin].
      * specialize (Hno {| fs := f; trace := t |}). rewrite Hc in Hno.
        discriminate Hno.
      * apply IH; [apply list_elem_of_In; exact Hin|exact Hex|exact Hno].
    + reflexivity.
  - apply list_elem_of_In in Hin. destruct Hin as [<-|Hin].
    + rewrite Hex in Hp. discriminate.
    + apply IH; [apply list_elem_of_In; exact Hin|exact Hex|exact Hno].
Qed.

Lemma only_talks_no_invocation evs :
  Forall only_talks evs -> invocations evs = [].
Proof.
  induction 1 as [|e evs He _ IH]; [reflexivity|].
  destruct e; try contradiction; exact IH.
Qed.

(** C4.  In safe mode, when the key file or the certificate file of the
    requested name exists and the operator declines to overwrite it,
    [issueSignedCert] returns [null] having only talked to the operator:
    no engine invocation is made, the file system is what it was (no file
    created, modified or deleted), and the builder is unchanged. *)
Theorem issueSignedCert_declined env name issuer hostnames st :
  let pathPrefix := path_join env (certDir (this st)) name in
  let keyFile := pathPrefix ++ js ".key" in
  let certFile := pathPrefix ++ js ".crt" in
  safeMode (options (this st)) = true ->
  (existsSync (fs (world st)) keyFile = true
   /\ declines env (js "Overwrite existing file " ++ keyFile ++ js "?"))
  \/ (existsSync (fs (world st)) certFile = true
      /\ declines env (js "Overwrite existing file " ++ certFile ++ js "?")) ->
  let result := issueSignedCert env name issuer hostnames st in
  fst result = Ret None
  /\ fs (world (snd result)) = fs (world st)
  /\ this (snd result) = this st
  /\ invocations (trace (world (snd result))) = invocations (trace (world st))
  /\ exists evs,
       trace (world (snd result)) = trace (world st) ++ evs
       /\ Forall only_talks evs.
Proof.
  intros pathPrefix keyFile certFile Hsafe Hdecl result.
  assert (Hfalse : fst (confirm_overwrite env [keyFile; certFile] st) = Ret false).
  { destruct Hdecl as [[Hex Hno]|[Hex Hno]].
    - apply (confirm_overwrite_declined env _ st keyFile); [left|exact Hex|exact Hno].
    - apply (confirm_overwrite_declined env _ st certFile);
        [right; left|exact Hex|exact Hno]. }
  destruct (confirm_overwrite_spec env [keyFile; certFile] st)
    as (ok & evs & Hr & Hev).
  rewrite Hr in Hfalse. cbn [fst] in Hfalse. injection Hfalse as ->.
  assert (Hres : result
                 = (Ret None,
                    {| this := this st;
                       world := {| fs := fs (world st);
                                   trace := trace (world st) ++ evs |} |})).
  { subst result. unfold issueSignedCert.
    unfold bind at 1, get_this. cbv zeta. rewrite Hsafe.
    unfold bind at 1. cbn [certPath keyPath].
    unfold certFile, keyFile, pathPrefix in Hr.
    rewrite Hr. reflexivity. }
  rewrite Hres. cbn [fst snd this world fs trace].
  repeat split; try reflexivity.
  - rewrite invocations_app, (only_talks_no_invocation evs Hev).
    apply app_nil_r.
  - exists evs. split; [reflexivity|exact Hev].
Qed.

(** The store holds [a.test.key] and [a.test.crt]; the operator answers
    [n]. *)
Lemma issueSignedCert_declined_witness :
  let env := Demo.env [] (js "in 20 days") (js "n") in
  let st := Demo.builder_safe in
  safeMode (options (this st)) = true
  /\ existsSync (fs (world st)) (js "certs/a.test.key") = true
  /\ declines env (js "Overwrite existing file certs/a.test.key?")
  /\ fst (issueSignedCert env (js "a.test") Demo.root
            (HostsArray [js "a.test"]) st) = Ret None
  /\ fs (world (snd (issueSignedCert env (js "a.test") Demo.root
                       (HostsArray [js "a.test"]) st)))
     = fs (world st).
Proof.
  intros env st.
  assert (Hsafe : safeMode (options (this st)) = true) by reflexivity.
  assert (Hex : existsSync (fs (world st)) (js "certs/a.test.key") = true)
    by (vm_compute; reflexivity).
  assert (Hno : declines env (js "Overwrite existing file certs/a.test.key?"))
    by (intros w; vm_compute; reflexivity).
  split; [exact Hsafe|]. split; [exact Hex|]. split; [exact Hno|].
  destruct (issueSignedCert_declined env (js "a.test") Demo.root
              (HostsArray [js "a.test"]) st Hsafe (or_introl (conj Hex Hno)))
    as (Hnull & Hfs & _).
  split; [exact Hnull|exact Hfs].
Defined.

(** ** The report of new CAs *)

(** C5, at the failing input.  A CA link is requested (no hostnames) and
    the engine fails on the certificate request: the process exits with
    status 1, and the report its exit handler prints lists the certificate
    of the link that was never made.  The path was pushed on [#newCAs]
    before the engine was asked for anything. *)
Theorem issueSignedCert_failed_request_is_reported :
  let env := Demo.env [js "req"] (js "in 20 days") (js "n") in
  let run :=
    run_process env
      (issueSignedCert env (js "Acme Intermediate Dev CA") Demo.root HostsNull)
      Demo.builder_DE in
  fst run = Exit 1%Z
  /\ invocations (trace (world (snd run)))
     = [(csr_args env (this Demo.builder_DE) (js "Acme Intermediate Dev CA")
           {| certPath := js "certs/Acme Intermediate Dev CA.crt";
              keyPath := js "certs/Acme Intermediate Dev CA.key";
              password := None |}
           (js "/tmp/local-ssl-certs-abcdef")
           (js "/tmp/local-ssl-certs-abcdef/shared.conf"), None)]
  /\ logged (trace (world (snd run)))
     = [[VUndefined];
        [VString (js "Install new CA certs:" ++ nl
                  ++ js "  + certs/Acme Intermediate Dev CA.crt")]].
Proof. vm_compute. repeat split; reflexivity. Qed.

(** The sibling path: when the engine fails on the root CA, [createRootCA]
    has pushed nothing and the exit handler prints no report. *)
Example createRootCA_failed_request_not_reported :
  let env := Demo.env [js "req"] (js "in 20 days") (js "n") in
  let run := run_process env (createRootCA env) Demo.builder_DE in
  fst run = Exit 1%Z
  /\ logged (trace (world (snd run))) = [[VUndefined]].
Proof. vm_compute. split; reflexivity. Qed.

(** ** The subject of the certificate request *)

(** The subject is built from the literal [US], whatever the options say. *)
Lemma csr_args_subject env b name certInfo tempDir conf :
  csr_args env b name certInfo tempDir conf !! 13%nat
  = Some (js "/C=US/O=" ++ org (options b) ++ js "/CN=" ++ name).
Proof. reflexivity. Qed.

(** C6, at the failing input.  With [countryName: "DE"] configured, the
    certificate request for [a.test] carries the subject
    [/C=US/O=Acme/CN=a.test]: the country of the subject is the literal
    [US] of the source, not the configured country. *)
Theorem csr_subject_ignores_countryName :
  let env := Demo.env [] (js "in 20 days") (js "n") in
  let run := issueSignedCert env (js "a.test") Demo.root
               (HostsArray [js "a.test"]) Demo.builder_DE in
  countryName (options (this Demo.builder_DE)) = js "DE"
  /\ (exists certInfo, fst run = Ret (Some certInfo))
  /\ fst <$> head (invocations (trace (world (snd run))))
     = Some [js "req"; js "-batch"; js "-new"; js "-newkey"; js "rsa";
             js "-nodes"; js "-keyout"; js "certs/a.test.key";
             js "-out"; js "/tmp/local-ssl-certs-abcdef/req.csr";
             js "-config"; js "/tmp/local-ssl-certs-abcdef/shared.conf";
             js "-subj"; js "/C=US/O=Acme/CN=a.test"; js "-text"].
Proof.
  vm_compute. split; [reflexivity|]. split; [eexists; reflexivity|reflexivity].
Qed.

(** ** The domain constraint *)

(** C7.  In the configuration of every constructed builder, the
    extension section of intermediate certificates ([cert_extensions])
    holds [nameConstraints = critical,permitted;DNS:.test], and it is the
    only section with a [nameConstraints] entry: the section of the root
    certificate has none, the section of SSL certificates has none, and
    neither has the extension file written for an SSL certificate.  The
    root request selects [root_cert_extensions] and the signing command
    selects [cert_extensions]. *)
Theorem nameConstraints_only_for_intermediate dir opts rootCAKeyPath verbose :
  let b := new_CertBuilder dir opts rootCAKeyPath verbose in
  get2 (sharedConfig b) (js "cert_extensions") (js "nameConstraints")
  = Some (js "critical,permitted;DNS:.test")
  /\ get2 (sharedConfig b) (js "root_cert_extensions") (js "nameConstraints") = None
  /\ get2 (sharedConfig b) (js "ssl_cert_extensions") (js "nameConstraints") = None
  /\ (forall section value,
        get2 (sharedConfig b) section (js "nameConstraints") = Some value ->
        section = js "cert_extensions")
  /\ (forall subjAltName section,
        get2 (ssl_extensions_config b subjAltName) section (js "nameConstraints")
        = None)
  /\ (forall certInfo conf,
        exists l1 l2,
          root_req_args b certInfo conf
          = l1 ++ [js "-extensions"; js "root_cert_extensions"] ++ l2)
  /\ (forall env issuer pathPrefix tempDir,
        exists l1 l2,
          sign_args env issuer pathPrefix tempDir
          = l1 ++ [js "-extensions"; js "cert_extensions"] ++ l2).
Proof.
  intros b. split; [reflexivity|]. split; [reflexivity|]. split; [reflexivity|].
  split; [|split; [|split]].
  - intros section value. subst b. cbn [sharedConfig new_CertBuilder].
    unfold make_sharedConfig, get2. cbn [get].
    repeat (case_bool_decide; [subst section; try (vm_compute; discriminate);
                               try (intros _; reflexivity)|]).
    discriminate.
  - intros subjAltName section. subst b. unfold ssl_extensions_config, get2.
    cbn [get]. case_bool_decide; [|reflexivity].
    cbn [sharedConfig new_CertBuilder]. reflexivity.
  - intros certInfo conf. unfold root_req_args.
    eexists (take 15 (root_req_args b certInfo conf)), [js "-text"]. reflexivity.
  - intros env issuer pathPrefix tempDir. unfold sign_args.
    eexists (take 11 (sign_args env issuer pathPrefix tempDir)), _. reflexivity.
Qed.

(** ** Rules of the program logic *)

Lemma has_post_ret {S A} (a : A) (s : S) Q :
  Q (Ret a) s -> has_post (ret a) s Q.
Proof. exact (fun H => H). Qed.

Lemma has_post_exit {S A} code (s : S) (Q : Outcome A -> S -> Prop) :
  Q (Exit code) s -> has_post (process_exit code) s Q.
Proof. exact (fun H => H). Qed.

Lemma has_post_bind {S A B} (m : M S A) (f : A -> M S B) (s : S) Q :
  has_post m s (fun o s' =>
                  match o with
                  | Ret a => has_post (f a) s' Q
                  | Throw e => Q (Throw e) s'
                  | Exit c => Q (Exit c) s'
                  end) ->
  has_post (bind m f) s Q.
Proof.
  unfold has_post, bind. destruct (m s) as [[a|e|c] s']; exact (fun H => H).
Qed.

Lemma has_post_try_catch {S A} (m : M S A) (h : JsError -> M S A) (s : S) Q :
  has_post m s (fun o s' =>
                  match o with
                  | Throw e => has_post (h e) s' Q
                  | _ => Q o s'
                  end) ->
  has_post (try_catch m h) s Q.
Proof.
  unfold has_post, try_catch. destruct (m s) as [[a|e|c] s']; exact (fun H => H).
Qed.

Lemma has_post_get_this st Q :
  Q (Ret (this st)) st -> has_post get_this st Q.
Proof. exact (fun H => H). Qed.

Lemma has_post_update_this f st Q :
  Q (Ret tt) {| this := f (this st); world := world st |} ->
  has_post (update_this f) st Q.
Proof. exact (fun H => H). Qed.

Lemma has_post_console ch args st Q :
  Q (Ret tt) (add_events [Console ch args] st) ->
  has_post (liftW (console ch args)) st Q.
Proof. exact (fun H => H). Qed.

Lemma has_post_builder_log args st Q :
  Q (Ret tt) (add_events (if verbose_log (this st)
                          then [Console ConsoleInfo args] else []) st) ->
  has_post (builder_log args) st Q.
Proof.
  unfold has_post, builder_log, bind, get_this, liftW, when, console, emit, ret,
    add_events.
  destruct st as [b [f t]]. cbn [this world fs trace].
  destruct (verbose_log b); cbn [fst snd]; rewrite ?app_nil_r; exact (fun H => H).
Qed.

Lemma has_post_spawn env command args stdio stdin st Q :
  (forall o f,
      (forall c, o <> Exit c) ->
      Q o {| this := this st;
             world := {| fs := f;
                         trace := trace (world st)
                                  ++ [Spawn command args stdio stdin] |} |}) ->
  has_post (liftW (spawnAsync env command args stdio stdin)) st Q.
Proof.
  intros H. unfold has_post, liftW.
  destruct (spawnAsync_spec env command args stdio stdin (world st))
    as (o & w' & E & T & X).
  rewrite E. cbn [fst snd]. destruct w' as [f t]. cbn [trace] in T. subst t.
  apply H. exact X.
Qed.

Lemma has_post_confirm_overwrite env paths st Q :
  (forall ok evs, Forall only_talks evs -> Q (Ret ok) (add_events evs st)) ->
  has_post (confirm_overwrite env paths) st Q.
Proof.
  intros H. unfold has_post.
  destruct (confirm_overwrite_spec env paths st) as (ok & evs & Hr & Hev).
  rewrite Hr. apply H. exact Hev.
Qed.

(** [#getTempDir]: the workspace that exists, a workspace just made, or
    the error of [mkdtemp]. *)
Lemma getTempDir_run env st :
  let prefix := path_join env (tmpdir env) (js "local-ssl-certs-") in
  getTempDir env st
  = match tempDir (this st) with
    | Some (c :: d) => (Ret (c :: d), st)
    | _ =>
        match mkdtemp_pick env prefix (fs (world st)) with
        | inr (c, cs) =>
            (Ret (prefix ++ c :: cs),
             workspace_made prefix (prefix ++ c :: cs) st)
        | inl e => (Throw e, st)
        end
    end.
Proof.
  intros prefix. subst prefix. destruct st as [b [f t]].
  unfold getTempDir, builder_log, bind, get_this, liftW, mkdtemp, update_this,
    when, console, emit, ret, workspace_made.
  generalize (path_join env (tmpdir env) (js "local-ssl-certs-")) as prefix.
  intros prefix. cbn [this world fs trace].
  destruct (tempDir b) as [[|c d]|]; cbn [this world fs trace];
    try reflexivity;
    destruct (mkdtemp_pick env prefix f) as [e|[c' cs]]; try reflexivity;
    cbn [this world fs trace set_tempDir verbose_log];
    destruct (verbose_log b); cbn [this world fs trace];
    rewrite <- ?app_assoc; reflexivity.
Qed.

Lemma has_post_getTempDir env st Q :
  let prefix := path_join env (tmpdir env) (js "local-ssl-certs-") in
  (forall c d, tempDir (this st) = Some (c :: d) -> Q (Ret (c :: d)) st) ->
  (forall c cs,
      truthy (tempDir (this st)) = false ->
      mkdtemp_pick env prefix (fs (world st)) = inr (c, cs) ->
      Q (Ret (prefix ++ c :: cs)) (workspace_made prefix (prefix ++ c :: cs) st)) ->
  (forall e,
      truthy (tempDir (this st)) = false ->
      mkdtemp_pick env prefix (fs (world st)) = inl e ->
      Q (Throw e) st) ->
  has_post (getTempDir env) st Q.
Proof.
  intros prefix Hhave Hmake Hfail.
  unfold has_post. rewrite getTempDir_run. fold prefix.
  destruct (tempDir (this st)) as [[|c d]|] eqn:Htd;
    try (apply Hhave; reflexivity);
    destruct (mkdtemp_pick env prefix (fs (world st))) as [e|[c' cs]] eqn:Hpick;
    first [apply Hfail; reflexivity | apply Hmake; reflexivity].
Qed.

(** Once the workspace is recorded, [#getTempDir] and [#getConfFile] only
    read it. *)
Lemma getTempDir_recorded env st d :
  tempDir (this st) = Some d -> d <> [] -> getTempDir env st = (Ret d, st).
Proof.
  intros Htd Hne. unfold getTempDir, bind, get_this. rewrite Htd.
  destruct d as [|c d]; [contradiction|reflexivity].
Qed.

Lemma getConfFile_recorded env st d :
  tempDir (this st) = Some d -> d <> [] ->
  getConfFile env st = (Ret (path_join env d (js "shared.conf")), st).
Proof.
  intros Htd Hne. unfold getConfFile, bind.
  rewrite (getTempDir_recorded env st d Htd Hne). reflexivity.
Qed.

(** ** The workspace *)

Lemma made_dirs_app (t1 t2 : list Event) :
  made_dirs (t1 ++ t2) = made_dirs t1 ++ made_dirs t2.
Proof. unfold made_dirs. apply omap_app. Qed.

Lemma written_app (t1 t2 : list Event) :
  written (t1 ++ t2) = written t1 ++ written t2.
Proof. unfold written. apply omap_app. Qed.

(** C9.  A call of [#getTempDir] that returns [d] leaves [d] recorded as
    the workspace.  When nothing was recorded before (the first call), it
    has made exactly one directory, [d], named by the prefix and the
    characters [mkdtemp] picked.  Every later call, in any state in which
    [d] is still recorded, returns [d] and changes nothing: no directory
    is made, no event happens; and the shared configuration file every
    operation asks for lies in [d]. *)
Theorem getTempDir_idempotent env st d st1 :
  getTempDir env st = (Ret d, st1) ->
  let prefix := path_join env (tmpdir env) (js "local-ssl-certs-") in
  tempDir (this st1) = Some d
  /\ (truthy (tempDir (this st)) = false ->
      made_dirs (trace (world st1)) = made_dirs (trace (world st)) ++ [d]
      /\ dirs (fs (world st1)) = {[d]} ∪ dirs (fs (world st))
      /\ exists c cs, d = prefix ++ c :: cs)
  /\ (forall st2, tempDir (this st2) = Some d -> getTempDir env st2 = (Ret d, st2))
  /\ getTempDir env st1 = (Ret d, st1)
  /\ (forall st2,
        tempDir (this st2) = Some d ->
        getConfFile env st2 = (Ret (path_join env d (js "shared.conf")), st2)).
Proof.
  intros Hrun prefix.
  assert (Hne : d <> [] /\ tempDir (this st1) = Some d
                /\ (truthy (tempDir (this st)) = false ->
                    made_dirs (trace (world st1))
                    = made_dirs (trace (world st)) ++ [d]
                    /\ dirs (fs (world st1)) = {[d]} ∪ dirs (fs (world st))
                    /\ exists c cs, d = prefix ++ c :: cs)).
  { rewrite getTempDir_run in Hrun. fold prefix in Hrun.
    assert (Hmade : match mkdtemp_pick env prefix (fs (world st)) with
                    | inl e => (Throw e, st)
                    | inr (c, cs) =>
                        (Ret (prefix ++ c :: cs),
                         workspace_made prefix (prefix ++ c :: cs) st)
                    end = (Ret d, st1) ->
                    d <> [] /\ tempDir (this st1) = Some d
                    /\ (made_dirs (trace (world st1))
                        = made_dirs (trace (world st)) ++ [d]
                        /\ dirs (fs (world st1)) = {[d]} ∪ dirs (fs (world st))
                        /\ exists c cs, d = prefix ++ c :: cs)).
    { destruct (mkdtemp_pick env prefix (fs (world st))) as [e|[c cs]];
        [discriminate|].
      intros [= <- <-].
      split; [intros Hnil; symmetry in Hnil; exact (app_cons_not_nil _ _ _ Hnil)|].
      split; [reflexivity|]. split; [|split; [reflexivity|eauto]].
      unfold workspace_made. cbn [world trace].
      rewrite !made_dirs_app. f_equal.
      destruct (verbose_log (this st)); reflexivity. }
    destruct (tempDir (this st)) as [[|c d0]|] eqn:Htd.
    - destruct (Hmade Hrun) as (H1 & H2 & H3). auto.
    - injection Hrun as <- <-. split; [discriminate|].
      split; [exact Htd|]. discriminate.
    - destruct (Hmade Hrun) as (H1 & H2 & H3). auto. }
  destruct Hne as (Hne & Hrec & Hfirst).
  split; [exact Hrec|]. split; [exact Hfirst|]. split; [|split].
  - intros st2 Htd. apply getTempDir_recorded; assumption.
  - apply getTempDir_recorded; assumption.
  - intros st2 Htd. apply getConfFile_recorded; assumption.
Qed.

(** A fresh builder makes [/tmp/local-ssl-certs-abcdef] once. *)
Lemma getTempDir_idempotent_witness :
  let env := Demo.env [] (js "in 20 days") (js "n") in
  let st := Demo.builder_DE in
  let d := js "/tmp/local-ssl-certs-abcdef" in
  let st1 := snd (getTempDir env st) in
  getTempDir env st = (Ret d, st1)
  /\ tempDir (this st1) = Some d
  /\ made_dirs (trace (world st1)) = [d]
  /\ getTempDir env st1 = (Ret d, st1).
Proof.
  intros env st d st1.
  assert (H : getTempDir env st = (Ret d, st1)) by (vm_compute; reflexivity).
  split; [exact H|].
  destruct (getTempDir_idempotent env st d st1 H)
    as (Hrec & Hfirst & _ & Hagain & _).
  split; [exact Hrec|]. split; [|exact Hagain].
  destruct (Hfirst eq_refl) as (Hmade & _). rewrite Hmade. reflexivity.
Defined.

(** ** Rules for the steps of [issueSignedCert] *)

Lemma has_post_getConfFile_recorded env st d Q :
  tempDir (this st) = Some d -> d <> [] ->
  Q (Ret (path_join env d (js "shared.conf"))) st ->
  has_post (getConfFile env) st Q.
Proof.
  intros Htd Hne H. unfold has_post.
  rewrite (getConfFile_recorded env st d Htd Hne). exact H.
Qed.

Lemma only_talks_nothing_written evs :
  Forall only_talks evs -> written evs = [].
Proof.
  induction 1 as [|e evs He _ IH]; [reflexivity|].
  destruct e; try contradiction; exact IH.
Qed.

Ltac hp_step :=
  lazymatch goal with
  | |- has_post (bind _ _) _ _ => apply has_post_bind
  | |- has_post (try_catch _ _) _ _ => apply has_post_try_catch
  | |- has_post (ret _) _ _ => apply has_post_ret
  | |- has_post (process_exit _) _ _ => apply has_post_exit
  | |- has_post get_this _ _ => apply has_post_get_this
  | |- has_post (update_this _) _ _ => apply has_post_update_this
  | |- has_post (liftW (console _ _)) _ _ => apply has_post_console
  | |- has_post (builder_log _) _ _ => apply has_post_builder_log
  end; cbv beta iota.

Lemma written_console b ch args :
  written (if b : bool then [Console ch args] else []) = [].
Proof. destruct b; reflexivity. Qed.

Lemma invocations_console b ch args :
  invocations (if b : bool then [Console ch args] else []) = [].
Proof. destruct b; reflexivity. Qed.

Ltac unfold_states :=
  cbn [add_events workspace_made this world fs trace set_tempDir push_newCA
         set_rootCAInfo newCAs tempDir] in *.

Ltac normalize_traces :=
  unfold_states;
  repeat rewrite ?written_app, ?invocations_app, ?written_console,
    ?invocations_console, ?app_nil_r, ?app_nil_l;
  repeat match goal with
    | |- context [written [?e]] => change (written [e]) with (@nil (list N))
    | |- context [written (?e :: ?l)] =>
        change (written (e :: l)) with (written l)
    end;
  repeat rewrite ?app_nil_r, ?app_nil_l.

(** The CA-link path of [issueSignedCert] (no hostnames): it writes no
    file; unless the operator declines, the certificate path is on
    [#newCAs] from then on, whatever the engine does later; and when it
    returns a certificate, the last engine invocation was the signing
    command with the shared configuration file as [-extfile]. *)
Lemma issueSignedCert_ca_link env name issuer st :
  let pathPrefix := path_join env (certDir (this st)) name in
  has_post (issueSignedCert env name issuer HostsNull) st
    (fun o s' =>
       written (trace (world s')) = written (trace (world st))
       /\ (o <> Ret None -> In (pathPrefix ++ js ".crt") (newCAs (this s')))
       /\ (forall certInfo, o = Ret (Some certInfo) ->
            exists d,
              tempDir (this s') = Some d
              /\ last (invocations (trace (world s')))
                 = Some (sign_args env issuer pathPrefix d
                         ++ [js "-extfile"; path_join env d (js "shared.conf")]
                         ++ (if truthy (password issuer)
                             then [js "-passin"; js "stdin"] else []),
                         if truthy (password issuer) then password issuer else None))).
Proof.
  intros pathPrefix.
  match goal with |- has_post _ _ ?P => set (Q := P) end.
  unfold issueSignedCert.
  hp_step. hp_step. cbv zeta. cbn [certPath keyPath]. fold pathPrefix.
  hp_step.
  match goal with
  | |- has_post _ _ (fun o s' =>
         match o with
         | Ret a => has_post (if negb a then _ else ?M) s' _
         | Throw _ => _
         | Exit _ => _
         end) =>
      assert (Hmain : forall st0,
                 this st0 = this st ->
                 written (trace (world st0)) = written (trace (world st)) ->
                 has_post M st0 Q)
  end.
  { intros st0 Hthis Hw0.
    change (has_hostnames HostsNull) with false. cbv iota.
    repeat hp_step. 
    match goal with
    | |- has_post _ ?s1 (fun o s' =>
           match o with
           | Ret a => has_post (@?F a) s' _
           | Throw _ => _
           | Exit _ => _
           end) =>
        assert (Hengine : forall d st2,
                   tempDir (this st2) = Some d -> d <> [] ->
                   written (trace (world st2)) = written (trace (world st)) ->
                   In (pathPrefix ++ js ".crt") (newCAs (this st2)) ->
                   has_post (F d) st2 Q)
    end.
    { intros d st2 Htd Hne Hw Hin. cbv beta.
      repeat hp_step. 
      apply (has_post_getConfFile_recorded env st2 d); [exact Htd|exact Hne|].
      repeat hp_step. apply has_post_spawn. intros o f Hx.
      destruct o as [out|e|c]; [| |exfalso; exact (Hx c eq_refl)].
      - repeat hp_step. 
        eapply (has_post_getConfFile_recorded env _ d); [exact Htd|exact Hne|].
        repeat hp_step. apply has_post_spawn. intros o2 f2 Hx2.
        destruct o2 as [out2|e2|c2]; [| |exfalso; exact (Hx2 c2 eq_refl)].
        + repeat hp_step. subst Q. cbv beta. normalize_traces.
          split; [exact Hw|]. split; [intros _; exact Hin|].
          intros certInfo _. exists d. split; [exact Htd|].
          rewrite !app_assoc. apply last_snoc.
        + repeat hp_step. 
          subst Q. cbv beta. normalize_traces.
          split; [exact Hw|]. split; [intros _; exact Hin|]. discriminate.
      - repeat hp_step. 
        subst Q. cbv beta. normalize_traces.
        split; [exact Hw|]. split; [intros _; exact Hin|]. discriminate. }
    apply has_post_getTempDir.
    - intros c d Htd. apply Hengine.
      + exact Htd.
      + discriminate.
      + unfold_states. exact Hw0.
      + unfold_states. apply in_or_app. right. left. reflexivity.
    - intros c cs _ _. apply Hengine.
      + reflexivity.
      + intros Hnil. symmetry in Hnil. exact (app_cons_not_nil _ _ _ Hnil).
      + normalize_traces. exact Hw0.
      + unfold_states. apply in_or_app. right. left. reflexivity.
    - intros e _ _. subst Q. cbv beta. unfold_states.
      split; [exact Hw0|].
      split; [intros _; apply in_or_app; right; left; reflexivity|discriminate]. }
  destruct (safeMode (options (this st))).
  - apply has_post_confirm_overwrite. intros ok evs Hev.
    destruct ok; cbn [negb].
    + apply Hmain; [reflexivity|].
      normalize_traces. rewrite (only_talks_nothing_written evs Hev).
      apply app_nil_r.
    + repeat hp_step. subst Q. cbv beta. normalize_traces.
      rewrite (only_talks_nothing_written evs Hev), app_nil_r.
      split; [reflexivity|]. split; [intros H; destruct (H eq_refl)|discriminate].
  - repeat hp_step. cbn [negb]. apply Hmain; reflexivity.
Qed.

Lemma exists_now_run path st :
  liftW (exists_now path) st = (Ret (existsSync (fs (world st)) path), st).
Proof. destruct st as [b w]. reflexivity. Qed.

(** Nothing to confirm: safe mode is off, or neither file exists. *)
Lemma proceeds_without_asking env st keyFile certFile :
  (safeMode (options (this st)) = true ->
   existsSync (fs (world st)) keyFile = false
   /\ existsSync (fs (world st)) certFile = false) ->
  (if safeMode (options (this st))
   then confirm_overwrite env [keyFile; certFile] else ret true) st
  = (Ret true, st).
Proof.
  intros H. destruct (safeMode (options (this st))); [|reflexivity].
  destruct (H eq_refl) as [Hk Hc]. cbn [confirm_overwrite].
  unfold bind at 1. rewrite exists_now_run, Hk.
  unfold bind at 1. rewrite exists_now_run, Hc. reflexivity.
Qed.

(** C10.  [issueSignedCert] with the empty array of hostnames runs exactly
    as it does without hostnames, on every state; it writes no file (so
    no extension file for alternative names) and, unless the operator
    declines, leaves the certificate path on the list of new CAs.  That
    run is the one of a CA link: where nothing stands in the way (safe mode is off or neither
    file exists, the workspace [d] is recorded, and the engine carries out
    the request and the signing), it returns the new pair, its certificate
    path is appended to the list of new CAs, and the engine was run
    exactly twice: for the request, and for the signing, which names the
    section [cert_extensions] of the shared configuration file
    [shared.conf] in [d]; in the configuration of the builder this section
    carries the name constraint. *)
Theorem issueSignedCert_empty_hostnames env name issuer st d out1 f1 out2 f2 :
  let pathPrefix := path_join env (certDir (this st)) name in
  let certInfo :=
    {| certPath := pathPrefix ++ js ".crt"; keyPath := pathPrefix ++ js ".key";
       password := None |} in
  let conf := path_join env d (js "shared.conf") in
  let request := csr_args env (this st) name certInfo d conf in
  let stdin := if truthy (password issuer) then password issuer else None in
  let signing :=
    sign_args env issuer pathPrefix d ++ [js "-extfile"; conf]
    ++ (if truthy (password issuer) then [js "-passin"; js "stdin"] else []) in
  (safeMode (options (this st)) = true ->
   existsSync (fs (world st)) (keyPath certInfo) = false
   /\ existsSync (fs (world st)) (certPath certInfo) = false) ->
  tempDir (this st) = Some d -> d <> [] ->
  sharedConfig (this st) = make_sharedConfig (options (this st)) ->
  spawn env (js "openssl") request None (fs (world st)) = (Closed (Some 0%Z) out1, f1) ->
  spawn env (js "openssl") signing stdin f1 = (Closed (Some 0%Z) out2, f2) ->
  let run := issueSignedCert env name issuer (HostsArray []) st in
  (forall st',
     let run' := issueSignedCert env name issuer (HostsArray []) st' in
     run' = issueSignedCert env name issuer HostsNull st'
     /\ written (trace (world (snd run'))) = written (trace (world st'))
     /\ (fst run' <> Ret None ->
         In (path_join env (certDir (this st')) name ++ js ".crt")
           (newCAs (this (snd run')))))
  /\ fst run = Ret (Some certInfo)
  /\ newCAs (this (snd run)) = newCAs (this st) ++ [certPath certInfo]
  /\ written (events_since st (snd run)) = []
  /\ new_invocations st (snd run) = [(request, None); (signing, stdin)]
  /\ (exists before after,
        signing = before ++ [js "-extensions"; js "cert_extensions"] ++ after)
  /\ get2 (sharedConfig (this (snd run))) (js "cert_extensions")
       (js "nameConstraints") = Some nameConstraints
  /\ fs (world (snd run)) = f2.
Proof.
  intros pathPrefix certInfo conf request stdin signing Hsafe Hd Hne Hconf Hs1 Hs2 run.
  set (logged_signing :=
         if verbose_log (this st)
         then [Console ConsoleInfo
                 [VString (js "Signing requested cert using issuer "
                           ++ certPath issuer)]]
         else []).
  assert (Hrun : forall hostnames,
            has_hostnames hostnames = false ->
            issueSignedCert env name issuer hostnames st
            = (Ret (Some certInfo),
               {| this := push_newCA (certPath certInfo) (this st);
                  world :=
                    {| fs := f2;
                       trace := trace (world st)
                                ++ [Spawn (js "openssl") request StdioInherit None]
                                ++ logged_signing
                                ++ [Spawn (js "openssl") signing StdioPipe stdin] |} |})).
  { intros hostnames Hh. unfold issueSignedCert.
    unfold bind at 1, get_this at 1. cbv zeta.
    pose proof (proceeds_without_asking env st _ _ Hsafe) as Hproceed.
    unfold certInfo, pathPrefix in Hproceed.
    unfold bind at 1. rewrite Hproceed.
    cbn [negb]. rewrite Hh.
    unfold bind at 1. unfold bind at 1, update_this at 1, ret at 1.
    set (st1 := {| this := push_newCA _ (this st); world := world st |}).
    assert (Hd1 : tempDir (this st1) = Some d) by exact Hd.
    unfold bind at 1. rewrite (getTempDir_recorded env st1 d Hd1 Hne).
    unfold bind at 1. unfold try_catch at 1. unfold bind at 1.
    rewrite (getConfFile_recorded env st1 d Hd1 Hne).
    unfold bind at 1, liftW at 1, spawnAsync at 1.
    cbn [this world fs st1]. fold pathPrefix. fold certInfo. fold conf. fold request.
    rewrite Hs1. cbn [stdout_piped ret].
    unfold bind at 1, builder_log at 1, bind at 1, get_this at 1, liftW at 1.
    cbn [this world fs trace verbose_log push_newCA].
    assert (Hlog : forall args w,
              when (verbose_log (this st)) (console ConsoleInfo args) w
              = (Ret tt,
                 {| fs := fs w;
                    trace := trace w
                             ++ (if verbose_log (this st)
                                 then [Console ConsoleInfo args] else []) |})).
    { intros args [f t]. unfold when, console, emit, ret.
      destruct (verbose_log (this st)); cbn [fs trace];
        rewrite ?app_nil_r; reflexivity. }
    rewrite Hlog. cbn [fs trace]. fold logged_signing.
    set (st2 := {| this := push_newCA (certPath certInfo) (this st); world := _ |}).
    assert (Hd2 : tempDir (this st2) = Some d) by exact Hd.
    unfold bind at 1. unfold try_catch at 1. unfold bind at 1.
    rewrite (getConfFile_recorded env st2 d Hd2 Hne).
    unfold bind at 1, liftW at 1, spawnAsync at 1.
    cbn [this world fs st2]. fold conf. fold signing. fold stdin.
    rewrite Hs2. cbn [stdout_piped ret trace]. rewrite <- !app_assoc. reflexivity. }
  split.
  { intros st' run'. subst run'. split; [reflexivity|].
    pose proof (issueSignedCert_ca_link env name issuer st') as H.
    unfold has_post in H. cbv zeta in H. destruct H as (H1 & H2 & _).
    split; [exact H1|exact H2]. }
  subst run. rewrite (Hrun (HostsArray []) eq_refl).
  cbn [fst snd this world fs trace newCAs push_newCA sharedConfig].
  split; [reflexivity|]. split; [reflexivity|].
  split.
  { unfold events_since. cbn [world trace]. rewrite drop_app_length.
    unfold written. subst logged_signing. destruct (verbose_log (this st)); reflexivity. }
  split.
  { unfold new_invocations. cbn [world trace]. rewrite invocations_app, drop_app_length.
    subst logged_signing. destruct (verbose_log (this st)); reflexivity. }
  split.
  { subst signing. unfold sign_args.
    exists [js "x509"; js "-req"; js "-in"; path_join env d (js "req.csr");
            js "-CA"; certPath issuer; js "-CAkey"; keyPath issuer;
            js "-CAserial"; path_join env d (js "ca.srl"); js "-CAcreateserial"].
    eexists. reflexivity. }
  split; [rewrite Hconf; reflexivity|reflexivity].
Qed.

(** The intermediate CA in the scripted world, with the workspace
    [/tmp/ws] recorded and safe mode off. *)
Lemma issueSignedCert_empty_hostnames_witness :
  let env := Demo.env [] [] [] in
  let st := {| this := set_tempDir (js "/tmp/ws") (this Demo.builder_DE);
               world := Demo.empty_world |} in
  let run := issueSignedCert env (js "Acme Intermediate Dev CA") Demo.root
               (HostsArray []) st in
  fst run
  = Ret (Some {| certPath := js "certs/Acme Intermediate Dev CA.crt";
                 keyPath := js "certs/Acme Intermediate Dev CA.key";
                 password := None |})
  /\ newCAs (this (snd run)) = [js "certs/Acme Intermediate Dev CA.crt"]
  /\ written (events_since st (snd run)) = []
  /\ new_invocations st (snd run)
     = [([js "req"; js "-batch"; js "-new"; js "-newkey"; js "rsa"; js "-nodes";
          js "-keyout"; js "certs/Acme Intermediate Dev CA.key";
          js "-out"; js "/tmp/ws/req.csr"; js "-config"; js "/tmp/ws/shared.conf";
          js "-subj"; js "/C=US/O=Acme/CN=Acme Intermediate Dev CA"; js "-text"],
         None);
        ([js "x509"; js "-req"; js "-in"; js "/tmp/ws/req.csr";
          js "-CA"; js "certs/Acme Root Dev CA.crt";
          js "-CAkey"; js "/tmp/local-ssl-certs-abcdef/$certName.key";
          js "-CAserial"; js "/tmp/ws/ca.srl"; js "-CAcreateserial";
          js "-extensions"; js "cert_extensions"; js "-days"; js "9999";
          js "-trustout"; js "-out"; js "certs/Acme Intermediate Dev CA.crt";
          js "-text"; js "-extfile"; js "/tmp/ws/shared.conf";
          js "-passin"; js "stdin"],
         Some (js "00ff"))].
Proof.
  intros env st run.
  destruct (issueSignedCert_empty_hostnames env (js "Acme Intermediate Dev CA")
              Demo.root st (js "/tmp/ws") [] (fs Demo.empty_world)
              [] (fs Demo.empty_world))
    as (_ & H1 & H2 & H3 & H4 & _).
  - intros H. vm_compute in H. discriminate H.
  - reflexivity.
  - discriminate.
  - reflexivity.
  - vm_compute. reflexivity.
  - vm_compute. reflexivity.
  - split; [etransitivity; [exact H1|vm_compute; reflexivity]|].
    split; [etransitivity; [exact H2|vm_compute; reflexivity]|].
    split; [exact H3|].
    etransitivity; [exact H4|vm_compute; reflexivity].
Defined.

(** An empty array of hostnames in the scripted world: the link is
    issued and reported, signed against [shared.conf], and the only file
    names passed to the engine are those of a CA link.  With a hostname
    the extension file is written instead and nothing is reported. *)
Example issueSignedCert_empty_array_run :
  let env := Demo.env [] (js "in 20 days") (js "n") in
  let run := issueSignedCert env (js "Acme Intermediate Dev CA") Demo.root
               (HostsArray []) Demo.builder_DE in
  (exists certInfo, fst run = Ret (Some certInfo))
  /\ newCAs (this (snd run)) = [js "certs/Acme Intermediate Dev CA.crt"]
  /\ written (trace (world (snd run))) = []
  /\ last (invocations (trace (world (snd run))))
     = Some (sign_args env Demo.root (js "certs/Acme Intermediate Dev CA")
               (js "/tmp/local-ssl-certs-abcdef")
             ++ [js "-extfile"; js "/tmp/local-ssl-certs-abcdef/shared.conf";
                 js "-passin"; js "stdin"],
             Some (js "00ff")).
Proof.
  vm_compute. split; [eexists; reflexivity|]. repeat split; reflexivity.
Qed.

Example issueSignedCert_leaf_run :
  let env := Demo.env [] (js "in 20 days") (js "n") in
  let run := issueSignedCert env (js "a.test") Demo.root
               (HostsArray [js "a.test"]) Demo.builder_DE in
  newCAs (this (snd run)) = []
  /\ written (trace (world (snd run)))
     = [js "/tmp/local-ssl-certs-abcdef/ssl_extensions.conf"].
Proof. vm_compute. split; reflexivity. Qed.

(** ** Passwords

    Two runs that differ only in the password pass the same argument
    lists to the engine: no argument is computed from the password. *)

Lemma same_arguments_bind {A B} (m : M State A) (f1 f2 : A -> M State B) s :
  (forall a s', same_arguments (f1 a s') (f2 a s')) ->
  same_arguments (bind m f1 s) (bind m f2 s).
Proof.
  intros H. unfold bind. destruct (m s) as [[a|e|c] s']; [apply H|reflexivity..].
Qed.

Lemma same_arguments_try_bind {A B} (m : M State A) (f1 f2 : A -> M State B) h s :
  (forall a s', same_arguments (try_catch (f1 a) h s') (try_catch (f2 a) h s')) ->
  same_arguments (try_catch (bind m f1) h s) (try_catch (bind m f2) h s).
Proof.
  intros H. unfold same_arguments in *.
  assert (Hrun : forall f : A -> M State B,
            try_catch (bind m f) h s
            = match m s with
              | (Ret a, s') => try_catch (f a) h s'
              | (Throw e, s') => h e s'
              | (Exit c, s') => (Exit c, s')
              end).
  { intros f. unfold try_catch, bind. destruct (m s) as [[a|e|c] s']; reflexivity. }
  rewrite !Hrun. destruct (m s) as [[a|e|c] s']; [apply H|reflexivity..].
Qed.

Lemma getTempDir_with_password env pw :
  getTempDir (with_password env pw) = getTempDir env.
Proof. reflexivity. Qed.

Lemma getConfFile_with_password env pw :
  getConfFile (with_password env pw) = getConfFile env.
Proof. reflexivity. Qed.

Lemma confirm_with_password env pw :
  confirm (with_password env pw) = confirm env.
Proof. reflexivity. Qed.

Lemma spawnAsync_with_password env pw :
  spawnAsync (with_password env pw) = spawnAsync env.
Proof. reflexivity. Qed.

Lemma path_join_with_password env pw :
  path_join (with_password env pw) = path_join env.
Proof. reflexivity. Qed.

Section OnlyInvokes.

Variable P : list jsstring * option jsstring -> Prop.

Lemma only_invokes_quiet {A} (m : M State A) :
  (forall st, invocations (trace (world (snd (m st))))
              = invocations (trace (world st))) ->
  only_invokes P m.
Proof.
  intros H st. exists []. rewrite H, app_nil_r. split; [reflexivity|constructor].
Qed.

Lemma only_invokes_bind {A B} (m : M State A) (f : A -> M State B) :
  only_invokes P m -> (forall a, only_invokes P (f a)) ->
  only_invokes P (bind m f).
Proof.
  intros Hm Hf st. unfold bind.
  destruct (Hm st) as (new1 & E1 & F1).
  destruct (m st) as [[a|e|c] s1]; cbn [snd] in *;
    [|exists new1; auto|exists new1; auto].
  destruct (Hf a s1) as (new2 & E2 & F2).
  exists (new1 ++ new2). rewrite E2, E1, app_assoc. split; [reflexivity|].
  apply Forall_app. split; assumption.
Qed.

Lemma only_invokes_try_catch {A} (m : M State A) (h : JsError -> M State A) :
  only_invokes P m -> (forall e, only_invokes P (h e)) ->
  only_invokes P (try_catch m h).
Proof.
  intros Hm Hh st. unfold try_catch.
  destruct (Hm st) as (new1 & E1 & F1).
  destruct (m st) as [[a|e|c] s1]; cbn [snd] in *;
    [exists new1; auto| |exists new1; auto].
  destruct (Hh e s1) as (new2 & E2 & F2).
  exists (new1 ++ new2). rewrite E2, E1, app_assoc. split; [reflexivity|].
  apply Forall_app. split; assumption.
Qed.

Lemma only_invokes_ret {A} (a : A) : only_invokes P (ret a).
Proof. apply only_invokes_quiet. reflexivity. Qed.

Lemma only_invokes_throw {A} e : only_invokes P (@throw State A e).
Proof. apply only_invokes_quiet. reflexivity. Qed.

Lemma only_invokes_exit {A} c : only_invokes P (@process_exit State A c).
Proof. apply only_invokes_quiet. reflexivity. Qed.

Lemma only_invokes_get_this : only_invokes P get_this.
Proof. apply only_invokes_quiet. reflexivity. Qed.

Lemma only_invokes_update_this f : only_invokes P (update_this f).
Proof. apply only_invokes_quiet. reflexivity. Qed.

Lemma only_invokes_get_world : only_invokes P (liftW get_world).
Proof. apply only_invokes_quiet. intros [b w]. reflexivity. Qed.

Lemma only_invokes_console ch args : only_invokes P (liftW (console ch args)).
Proof.
  apply only_invokes_quiet. intros [b [f t]].
  unfold liftW, console, emit. cbn [snd world trace fs].
  rewrite invocations_app. apply app_nil_r.
Qed.

Lemma only_invokes_builder_log args : only_invokes P (builder_log args).
Proof.
  unfold builder_log. apply only_invokes_bind; [apply only_invokes_get_this|].
  intros b. unfold when. destruct (verbose_log b).
  - apply only_invokes_console.
  - apply only_invokes_quiet. intros [b' w]. reflexivity.
Qed.

Lemma only_invokes_confirm env question assumeTrue :
  only_invokes P (liftW (confirm env question assumeTrue)).
Proof.
  apply only_invokes_quiet. intros [b w]. unfold liftW. cbn [world].
  destruct (confirm_spec env question assumeTrue w) as (ok & Hc). rewrite Hc.
  cbn [snd world trace]. rewrite invocations_app. apply app_nil_r.
Qed.

Lemma only_invokes_promptPassword env prompt retypePrompt :
  only_invokes P (liftW (promptPassword env prompt retypePrompt)).
Proof.
  apply only_invokes_quiet. intros [b [f t]].
  unfold liftW, promptPassword, bind, emit, ret, throw. cbn [world fs trace].
  destruct (passwordPrompt env prompt retypePrompt); cbn [snd world trace];
    rewrite invocations_app; apply app_nil_r.
Qed.

Lemma only_invokes_bind_promptPassword {B} env pw prompt retypePrompt
    (f : jsstring -> M State B) :
  only_invokes P (f pw) ->
  only_invokes P
    (bind (liftW (promptPassword (with_password env pw) prompt retypePrompt)) f).
Proof.
  intros H st.
  change (bind (liftW (promptPassword (with_password env pw) prompt retypePrompt))
            f st)
    with (f pw (add_events [PasswordPrompt prompt retypePrompt (inr pw)] st)).
  destruct (H (add_events [PasswordPrompt prompt retypePrompt (inr pw)] st))
    as (new & E & F).
  exists new. rewrite E. split; [|exact F].
  unfold add_events. cbn [world trace]. rewrite invocations_app.
  cbn [invocations omap]. rewrite app_nil_r. reflexivity.
Qed.

Lemma only_invokes_confirm_overwrite env paths :
  only_invokes P (confirm_overwrite env paths).
Proof.
  apply only_invokes_quiet. intros st.
  destruct (confirm_overwrite_spec env paths st) as (ok & evs & Hr & Hev).
  rewrite Hr. cbn [snd world trace].
  rewrite invocations_app, (only_talks_no_invocation evs Hev). apply app_nil_r.
Qed.

Lemma only_invokes_getTempDir env : only_invokes P (getTempDir env).
Proof.
  apply only_invokes_quiet. intros st. rewrite getTempDir_run.
  destruct (tempDir (this st)) as [[|c d]|]; try reflexivity;
    destruct (mkdtemp_pick env _ (fs (world st))) as [e|[c' cs]];
    try reflexivity;
    unfold workspace_made; cbn [snd world trace];
    rewrite !invocations_app; destruct (verbose_log (this st));
    apply app_nil_r.
Qed.

Lemma only_invokes_getConfFile env : only_invokes P (getConfFile env).
Proof.
  unfold getConfFile. apply only_invokes_bind; [apply only_invokes_getTempDir|].
  intros d. apply only_invokes_ret.
Qed.

Lemma only_invokes_writeConfFile path sections :
  only_invokes P (writeConfFile path sections).
Proof.
  unfold writeConfFile.
  apply only_invokes_bind; [apply only_invokes_builder_log|]. intros _.
  apply only_invokes_quiet. intros [b [f t]].
  unfold liftW, writeFile. cbn [snd world trace fs].
  rewrite invocations_app. apply app_nil_r.
Qed.

Lemma only_invokes_spawn env command args stdio stdin :
  P (args, stdin) ->
  only_invokes P (liftW (spawnAsync env command args stdio stdin)).
Proof.
  intros HP [b w]. unfold liftW. cbn [world].
  destruct (spawnAsync_spec env command args stdio stdin w) as (o & w' & E & T & _).
  rewrite E. cbn [snd world]. rewrite T, invocations_app.
  exists [(args, stdin)]. split; [reflexivity|]. constructor; [exact HP|constructor].
Qed.

Lemma only_invokes_bind_ret {A B} (a : A) (f : A -> M State B) :
  only_invokes P (f a) -> only_invokes P (bind (ret a) f).
Proof. exact (fun H => H). Qed.

End OnlyInvokes.

Ltac only_invokes_step :=
  lazymatch goal with
  | |- only_invokes _ (getTempDir _) => apply only_invokes_getTempDir
  | |- only_invokes _ (getConfFile _) => apply only_invokes_getConfFile
  | |- only_invokes _ (builder_log _) => apply only_invokes_builder_log
  | |- only_invokes _ (writeConfFile _ _) => apply only_invokes_writeConfFile
  | |- only_invokes _ (confirm_overwrite _ _) =>
      apply only_invokes_confirm_overwrite
  | |- only_invokes _ (liftW (console _ _)) => apply only_invokes_console
  | |- only_invokes _ (liftW (confirm _ _ _)) => apply only_invokes_confirm
  | |- only_invokes _ (liftW (promptPassword _ _ _)) =>
      apply only_invokes_promptPassword
  | |- only_invokes _ (liftW get_world) => apply only_invokes_get_world
  | |- only_invokes _ (liftW (spawnAsync _ _ _ _ _)) => apply only_invokes_spawn
  | |- only_invokes _ (bind (ret _) _) =>
      apply only_invokes_bind_ret; cbv beta iota
  | |- only_invokes _ (bind (liftW (promptPassword (with_password _ _) _ _)) _) =>
      apply only_invokes_bind_promptPassword; cbv beta iota
  | |- only_invokes _ (bind (if ?b then _ else _) _) => destruct b
  | |- only_invokes _ (bind (match ?x with _ => _ end) _) => destruct x
  | |- only_invokes _ (bind _ _) => apply only_invokes_bind; [|intros ?]
  | |- only_invokes _ (try_catch _ _) => apply only_invokes_try_catch; [|intros ?]
  | |- only_invokes _ (ret _) => apply only_invokes_ret
  | |- only_invokes _ (throw _) => apply only_invokes_throw
  | |- only_invokes _ (process_exit _) => apply only_invokes_exit
  | |- only_invokes _ get_this => apply only_invokes_get_this
  | |- only_invokes _ (update_this _) => apply only_invokes_update_this
  | |- only_invokes _ (if ?b then _ else _) => destruct b
  | |- only_invokes _ (match ?x with _ => _ end) => destruct x
  end.

Lemma createRootCA_only_invokes env pw :
  only_invokes (fun inv => snd inv = Some pw) (createRootCA (with_password env pw)).
Proof.
  unfold createRootCA.
  cbn [randomHex32 with_password].
  repeat only_invokes_step. all: reflexivity.
Qed.

Lemma issueSignedCert_only_invokes env name issuer hostnames pw :
  pw <> [] ->
  only_invokes
    (fun inv =>
       snd inv = None
       \/ (snd inv = Some pw /\ exists l, fst inv = l ++ [js "-passin"; js "stdin"]))
    (issueSignedCert env name (protected_by issuer pw) hostnames).
Proof.
  intros Hpw. unfold issueSignedCert.
  cbn [password protected_by].
  assert (Ht : truthy (Some pw) = true) by (destruct pw; [contradiction|reflexivity]).
  rewrite !Ht.
  repeat only_invokes_step.
  all: try (left; reflexivity).
  all: right; split; [reflexivity|]; cbn [fst]; rewrite app_assoc; eauto.
Qed.

Lemma quiet_arguments {A} (m : M State A) s :
  only_invokes (fun _ => False) m ->
  arguments_of (snd (m s)) = arguments_of s.
Proof.
  intros H. destruct (H s) as (new & E & F). unfold arguments_of. rewrite E.
  destruct F as [|x l Hx _]; [rewrite app_nil_r; reflexivity|destruct Hx].
Qed.

(** An awaited invocation inside [try], followed by steps that invoke
    nothing: exactly this invocation is added, whatever its input. *)
Lemma try_spawn_arguments {A} env command args stdio stdin
    (k : jsstring -> M State A) (h : JsError -> M State A) s :
  (forall out, only_invokes (fun _ => False) (k out)) ->
  (forall e, only_invokes (fun _ => False) (h e)) ->
  arguments_of
    (snd (try_catch (bind (liftW (spawnAsync env command args stdio stdin)) k) h s))
  = arguments_of s ++ [args].
Proof.
  intros Hk Hh. unfold try_catch, bind, liftW.
  destruct (spawnAsync_spec env command args stdio stdin (world s))
    as (o & w' & E & T & _).
  rewrite E.
  assert (Hs : arguments_of {| this := this s; world := w' |}
               = arguments_of s ++ [args]).
  { unfold arguments_of. cbn [world]. rewrite T, invocations_app, map_app.
    reflexivity. }
  destruct o as [out|e|c]; cbn [snd]; [| |exact Hs].
  - pose proof (quiet_arguments (k out) {| this := this s; world := w' |} (Hk out))
      as Hq.
    destruct (k out _) as [[a|e|c] s2]; cbn [snd] in *;
      [congruence| |congruence].
    rewrite (quiet_arguments (h e) s2 (Hh e)). congruence.
  - rewrite (quiet_arguments (h e) _ (Hh e)). exact Hs.
Qed.

Lemma same_arguments_bind_ret {A B C} a1 a2 (f1 : A -> M State B)
    (f2 : A -> M State C) s :
  same_arguments (f1 a1 s) (f2 a2 s) ->
  same_arguments (bind (ret a1) f1 s) (bind (ret a2) f2 s).
Proof. exact (fun H => H). Qed.

(** The configuration file's path depends on the builder and the file
    system only, and finding it invokes nothing. *)
Lemma getConfFile_same_store env s1 s :
  this s1 = this s -> fs (world s1) = fs (world s) ->
  arguments_of s1 = arguments_of s ->
  fst (getConfFile env s1) = fst (getConfFile env s)
  /\ arguments_of (snd (getConfFile env s1)) = arguments_of s.
Proof.
  intros Hb Hf Ha. unfold getConfFile, bind, ret. rewrite !getTempDir_run.
  rewrite Hb, Hf.
  destruct (tempDir (this s)) as [[|c d]|]; cbn [fst snd];
    try (split; [reflexivity|exact Ha]);
    destruct (mkdtemp_pick env _ (fs (world s))) as [e|[c' cs]];
    cbn [fst snd]; try (split; [reflexivity|exact Ha]);
    (split; [reflexivity|]);
    unfold arguments_of, workspace_made in *; cbn [world trace];
    rewrite !invocations_app; destruct (verbose_log (this s1));
    cbn [invocations omap]; rewrite ?app_nil_r; exact Ha.
Qed.

(** The request for the root certificate, from any state with the builder,
    the file system and the past invocations of [s]: one invocation is
    added, with the arguments made from the configuration file's path. *)
Lemma root_request_arguments {A} env logged_args (args : jsstring -> list jsstring)
    stdio stdin (k : jsstring -> M State A) (h : JsError -> M State A) s1 s :
  (forall out, only_invokes (fun _ => False) (k out)) ->
  (forall e, only_invokes (fun _ => False) (h e)) ->
  this s1 = this s -> fs (world s1) = fs (world s) ->
  arguments_of s1 = arguments_of s ->
  arguments_of
    (snd ((builder_log logged_args;;
           try_catch
             (conf <- getConfFile env;;
              bind (liftW (spawnAsync env (js "openssl") (args conf) stdio stdin)) k)
             h) s1))
  = arguments_of s
    ++ match fst (getConfFile env s) with
       | Ret conf => [args conf]
       | _ => []
       end.
Proof.
  intros Hk Hh Hb Hf Ha.
  assert (Hlog : exists s2, builder_log logged_args s1 = (Ret tt, s2)
                            /\ this s2 = this s /\ fs (world s2) = fs (world s)
                            /\ arguments_of s2 = arguments_of s).
  { unfold builder_log, bind, get_this, liftW, when, console, emit, ret.
    destruct (verbose_log (this s1)); eexists; (split; [reflexivity|]);
      cbn [this world fs trace]; repeat split; try assumption.
    unfold arguments_of in *. cbn [world trace]. rewrite invocations_app.
    cbn [invocations omap]. rewrite app_nil_r. exact Ha. }
  destruct Hlog as (s2 & Hlog & Hb2 & Hf2 & Ha2).
  unfold bind at 1. rewrite Hlog.
  destruct (getConfFile_same_store env s2 s Hb2 Hf2 Ha2) as [Hc Hca].
  rewrite <- Hc.
  assert (Hrun : forall (m : M State jsstring) (f : jsstring -> M State A),
            try_catch (bind m f) h s2
            = match m s2 with
              | (Ret a, s') => try_catch (f a) h s'
              | (Throw e, s') => h e s'
              | (Exit c, s') => (Exit c, s')
              end).
  { intros m f. unfold try_catch, bind. destruct (m s2) as [[a|e|c] s']; reflexivity. }
  rewrite Hrun.
  destruct (getConfFile env s2) as [[conf|e|c] s3]; cbn [fst snd] in *.
  - rewrite try_spawn_arguments by assumption. rewrite Hca. reflexivity.
  - rewrite (quiet_arguments (h e) s3 (Hh e)), app_nil_r. exact Hca.
  - rewrite app_nil_r. exact Hca.
Qed.

Lemma createRootCA_same_arguments env st pw1 pw2 :
  same_arguments (createRootCA (with_password env pw1) st)
    (createRootCA (with_password env pw2) st).
Proof.
  unfold createRootCA.
  rewrite !getTempDir_with_password, !getConfFile_with_password,
    !confirm_with_password, !spawnAsync_with_password, !path_join_with_password.
  apply same_arguments_bind. intros b s0. cbv zeta.
  destruct (get (sharedConfig b) (js "root_distinguished_name"))
    as [root_distinguished_name|]; [|reflexivity].
  apply same_arguments_bind. intros privKeyPath s1.
  apply same_arguments_bind. intros _ s2.
  cbn [randomHex32 with_password certPath keyPath].
  destruct (truthy (persistentRootCAKeyPath b)).
  - unfold same_arguments.
    assert (Hask : forall pw B (f : jsstring -> M State B),
              bind (liftW (promptPassword (with_password env pw)
                             (js "Create a password for the root CA: ")
                             (js "Confirm password: "))) f s2
              = f pw (add_events
                        [PasswordPrompt (js "Create a password for the root CA: ")
                           (js "Confirm password: ") (inr pw)] s2))
      by reflexivity.
    rewrite !Hask.
    assert (Hs : forall evs, invocations evs = [] ->
                 arguments_of (add_events evs s2) = arguments_of s2).
    { intros evs Hevs. unfold arguments_of, add_events. cbn [world trace].
      rewrite invocations_app, Hevs, app_nil_r. reflexivity. }
    etransitivity;
      [apply (root_request_arguments env) with (s := s2)
      |symmetry; apply (root_request_arguments env) with (s := s2)];
      try reflexivity; try (intros; repeat only_invokes_step);
      apply Hs; reflexivity.
  - apply same_arguments_bind_ret.
    apply same_arguments_bind. intros _ s3.
    apply same_arguments_try_bind. intros conf s4.
    unfold same_arguments.
    rewrite !try_spawn_arguments; [reflexivity|..];
      intros; repeat only_invokes_step.
Qed.

Lemma bind_quiet_arguments {A B} (m : M State A) (k : A -> M State B) s :
  (forall a, only_invokes (fun _ => False) (k a)) ->
  arguments_of (snd (bind m k s)) = arguments_of (snd (m s)).
Proof.
  intros Hk. unfold bind. destruct (m s) as [[a|e|c] s']; try reflexivity.
  apply quiet_arguments, Hk.
Qed.

Lemma issueSignedCert_same_arguments env name issuer hostnames st pw1 pw2 :
  pw1 <> [] -> pw2 <> [] ->
  same_arguments
    (issueSignedCert env name (protected_by issuer pw1) hostnames st)
    (issueSignedCert env name (protected_by issuer pw2) hostnames st).
Proof.
  intros H1 H2. unfold issueSignedCert.
  cbn [password certPath keyPath protected_by].
  assert (Ht : forall pw, pw <> [] -> truthy (Some pw) = true)
    by (intros [|c pw] Hpw; [contradiction|reflexivity]).
  rewrite !(Ht pw1 H1), !(Ht pw2 H2).
  apply same_arguments_bind. intros b s0. cbv zeta.
  apply same_arguments_bind. intros proceed s1.
  destruct (negb proceed); [reflexivity|].
  apply same_arguments_bind. intros subjAltName s2.
  apply same_arguments_bind. intros tempDir s3.
  apply same_arguments_bind. intros _ s4.
  apply same_arguments_bind. intros _ s5.
  unfold same_arguments.
  rewrite !bind_quiet_arguments by (intros; repeat only_invokes_step).
  apply same_arguments_try_bind. intros extfile s6.
  unfold same_arguments.
  rewrite !try_spawn_arguments; [reflexivity|..];
    intros; repeat only_invokes_step.
Qed.

Lemma new_invocations_spec {A} (m : M State A) st P :
  only_invokes P m -> Forall P (new_invocations st (snd (m st))).
Proof.
  intros H. destruct (H st) as (new & E & F).
  unfold new_invocations. rewrite E, drop_app_length. exact F.
Qed.

(** C8.  The engine invocations of [createRootCA] and of
    [issueSignedCert] with a password-protected issuer key receive the
    same argument lists whatever the password is, so no argument is made
    from the password; the password is what is written to the standard
    input of the invocation: of every invocation of [createRootCA], and in
    [issueSignedCert] of the invocation announced by [-passin stdin], the
    certificate request getting no input at all. *)
Theorem password_only_on_stdin env st name issuer hostnames pw1 pw2 :
  pw1 <> [] -> pw2 <> [] ->
  let root pw := snd (createRootCA (with_password env pw) st) in
  let sign pw :=
    snd (issueSignedCert env name (protected_by issuer pw) hostnames st) in
  arguments_of (root pw1) = arguments_of (root pw2)
  /\ arguments_of (sign pw1) = arguments_of (sign pw2)
  /\ Forall (fun inv => snd inv = Some pw1) (new_invocations st (root pw1))
  /\ Forall (fun inv =>
               snd inv = None
               \/ (snd inv = Some pw1
                   /\ exists l, fst inv = l ++ [js "-passin"; js "stdin"]))
       (new_invocations st (sign pw1)).
Proof.
  intros H1 H2 root sign. split; [|split; [|split]].
  - apply createRootCA_same_arguments.
  - apply issueSignedCert_same_arguments; assumption.
  - apply new_invocations_spec, createRootCA_only_invokes.
  - apply new_invocations_spec, issueSignedCert_only_invokes. exact H1.
Qed.

(** Two passwords in the scripted world: the same arguments reach the
    engine, and each run feeds its own password through the standard
    input. *)
Lemma password_only_on_stdin_witness :
  let env := Demo.env [] (js "in 20 days") (js "y") in
  let st := Demo.builder_DE in
  let root pw := snd (createRootCA (with_password env pw) st) in
  let sign pw :=
    snd (issueSignedCert env (js "a.test") (protected_by Demo.root pw)
           (HostsArray [js "a.test"]) st) in
  js "alpha" <> [] /\ js "beta" <> []
  /\ arguments_of (root (js "alpha")) = arguments_of (root (js "beta"))
  /\ arguments_of (sign (js "alpha")) = arguments_of (sign (js "beta"))
  /\ snd <$> new_invocations st (root (js "alpha")) = [Some (js "alpha")]
  /\ snd <$> new_invocations st (sign (js "alpha")) = [None; Some (js "alpha")].
Proof.
  intros env st root sign.
  assert (H1 : js "alpha" <> []) by discriminate.
  assert (H2 : js "beta" <> []) by discriminate.
  split; [exact H1|]. split; [exact H2|].
  destruct (password_only_on_stdin env st (js "a.test") Demo.root
              (HostsArray [js "a.test"]) (js "alpha") (js "beta") H1 H2)
    as (Hroot & Hsign & _).
  split; [exact Hroot|]. split; [exact Hsign|].
  split; vm_compute; reflexivity.
Defined.

(** ** The shared configuration file *)

(** [CertBuilder.create] in the scripted world writes the shared
    configuration into the workspace; its [cert_extensions] section is the
    one with the name constraint. *)
Example create_writes_shared_conf :
  let env := Demo.env [] (js "in 20 days") (js "n") in
  let run := create env (js "certs") None (Some Demo.options_DE) false
               Demo.builder_DE in
  fst run = Ret (set_tempDir (js "/tmp/local-ssl-certs-abcdef")
                   (this Demo.builder_DE))
  /\ files (fs (world (snd run))) !! js "/tmp/local-ssl-certs-abcdef/shared.conf"
     = Some (render_conf (make_sharedConfig Demo.options_DE))
  /\ render_section (js "cert_extensions",
                     default [] (get (make_sharedConfig Demo.options_DE)
                                   (js "cert_extensions")))
     = js "[cert_extensions]" ++ nl
       ++ js "basicConstraints = critical,CA:TRUE" ++ nl
       ++ js "nameConstraints = critical,permitted;DNS:.test" ++ nl
       ++ js "keyUsage = critical,keyCertSign" ++ nl
       ++ js "extendedKeyUsage = serverAuth,clientAuth" ++ nl
       ++ js "subjectKeyIdentifier = hash" ++ nl
       ++ js "subjectAltName = dirName:req_distinguished_name" ++ nl
       ++ js "authorityKeyIdentifier = keyid:always" ++ nl.
Proof. vm_compute. repeat split; reflexivity. Qed.

(** * Further properties *)

(** ** The validator *)

Lemma bind_Ret_inv {S A B} (m : M S A) (f : A -> M S B) s b s' :
  bind m f s = (Ret b, s') ->
  exists a s1, m s = (Ret a, s1) /\ f a s1 = (Ret b, s').
Proof.
  unfold bind. destruct (m s) as [[a|e|c] s1]; try discriminate. eauto.
Qed.

Section Emits.

Variable P : Event -> Prop.

Lemma emits_ret {A} (a : A) : emits P (ret a).
Proof.
  intros w. split; [|discriminate].
  exists []. rewrite app_nil_r. split; [reflexivity|constructor].
Qed.

Lemma emits_throw {A} e : emits P (@throw World A e).
Proof.
  intros w. split; [|discriminate].
  exists []. rewrite app_nil_r. split; [reflexivity|constructor].
Qed.

Lemma emits_bind {A B} (m : M World A) (f : A -> M World B) :
  emits P m -> (forall a, emits P (f a)) -> emits P (bind m f).
Proof.
  intros Hm Hf w. unfold bind.
  destruct (Hm w) as ((evs1 & E1 & F1) & X1).
  destruct (m w) as [[a|e|c] w1]; cbn [fst snd] in *.
  - destruct (Hf a w1) as ((evs2 & E2 & F2) & X2). split; [|exact X2].
    exists (evs1 ++ evs2). rewrite E2, E1, app_assoc. split; [reflexivity|].
    apply Forall_app. split; assumption.
  - split; [eauto|discriminate].
  - destruct (X1 c eq_refl).
Qed.

Lemma emits_console ch args : P (Console ch args) -> emits P (console ch args).
Proof.
  intros HP w. split; [|discriminate].
  exists [Console ch args]. split; [reflexivity|]. constructor; [exact HP|constructor].
Qed.

Lemma emits_when b (m : M World unit) : emits P m -> emits P (when b m).
Proof. intros Hm. destruct b; [exact Hm|apply emits_ret]. Qed.

Lemma emits_spawn env command args stdio stdin :
  P (Spawn command args stdio stdin) ->
  emits P (spawnAsync env command args stdio stdin).
Proof.
  intros HP w.
  destruct (spawnAsync_spec env command args stdio stdin w) as (o & w' & E & T & X).
  rewrite E. split; [|exact X].
  exists [Spawn command args stdio stdin]. split; [exact T|].
  constructor; [exact HP|constructor].
Qed.

End Emits.

Lemma runOpenSSL_emits env verbose args :
  emits validator_event (runOpenSSL env verbose args).
Proof.
  unfold runOpenSSL, log.
  apply emits_bind; [apply emits_when, emits_console; exact I|]. intros _.
  apply emits_spawn. reflexivity.
Qed.

Ltac emits_step :=
  lazymatch goal with
  | |- emits _ (runOpenSSL _ _ _) => apply runOpenSSL_emits
  | |- emits _ (log _ _) => unfold log; apply emits_when, emits_console; exact I
  | |- emits _ (when _ _) => apply emits_when
  | |- emits _ (console _ _) => apply emits_console; exact I
  | |- emits _ (bind _ _) => apply emits_bind; [|intros ?]
  | |- emits _ (ret _) => apply emits_ret
  | |- emits _ (throw _) => apply emits_throw
  | |- emits _ (if ?b then _ else _) => destruct b
  | |- emits _ (match ?x with _ => _ end) => destruct x
  | |- emits _ (let _ := _ in _) => cbv zeta
  end.

(** X1.  Validation only observes.  Whatever the certificate, the hostnames
    and the engine, [validateSslCert] does nothing to the outside but run
    [openssl] (with the input ignored, nothing written to it) and print; it
    never asks the operator, never writes or removes a file itself, and
    never ends the process: a failed check is a rejected promise. *)
Theorem validateSslCert_only_observes env certInfo hostnames verbose w :
  let result := validateSslCert env certInfo hostnames verbose w in
  (exists evs,
     trace (snd result) = trace w ++ evs /\ Forall validator_event evs)
  /\ (forall code, fst result <> Exit code)
  /\ (verbose = false ->
      forall args, Console ConsoleLog args ∉ drop (length (trace w)) (trace (snd result))).
Proof.
  intros result.
  assert (H : emits validator_event (validateSslCert env certInfo hostnames verbose)).
  { unfold validateSslCert, expiryCheck, keyIntegrityCheck, trustChainCheck,
      expirationWindow, nameCoverage, keyPairing.
    repeat emits_step. }
  destruct (H w) as (Hev & Hx). split; [exact Hev|]. split; [exact Hx|].
  intros -> args.
  assert (Hq : emits (fun e => validator_event e
                               /\ forall a, e <> Console ConsoleLog a)
                 (validateSslCert env certInfo hostnames false)).
  { unfold validateSslCert, expiryCheck, keyIntegrityCheck, trustChainCheck,
      expirationWindow, nameCoverage, keyPairing, runOpenSSL, log.
    cbn [when].
    repeat first
      [ apply emits_bind; [|intros ?]
      | apply emits_ret
      | apply emits_throw
      | apply emits_when
      | apply emits_console; split; [exact I|discriminate]
      | apply emits_spawn; split; [reflexivity|discriminate]
      | match goal with
        | |- emits _ (if ?b then _ else _) => destruct b
        | |- emits _ (match ?x with _ => _ end) => destruct x
        | |- emits _ (let _ := _ in _) => cbv zeta
        end ]. }
  destruct (Hq w) as ((evs & E & F) & _). subst result.
  rewrite E, drop_app_length. intros Hin.
  rewrite Forall_forall in F. destruct (F _ Hin) as [_ Hne]. exact (Hne args eq_refl).
Qed.

Lemma log_run verbose args w :
  exists w1, log verbose args w = (Ret tt, w1) /\ fs w1 = fs w.
Proof.
  unfold log, when, console, emit, ret. destruct verbose; eexists; split; reflexivity.
Qed.

(** [runOpenSSL] returns exactly when the engine closes with code 0, and
    then returns what it printed. *)
Lemma runOpenSSL_Ret env verbose args w out f' :
  (exists w1, runOpenSSL env verbose args w = (Ret out, w1) /\ fs w1 = f')
  <-> spawn env (js "openssl") args None (fs w) = (Closed (Some 0%Z) out, f').
Proof.
  unfold runOpenSSL, bind.
  destruct (log_run verbose [VString (js "% openssl " ++ join_with (js " ") args)] w)
    as (w0 & -> & Hfs).
  unfold spawnAsync. rewrite Hfs.
  destruct (spawn env (js "openssl") args None (fs w)) as [[[[| |]|] o|e] f1];
    cbn [stdout_piped fs]; split;
    try (intros (w1 & [=] & _); fail); try (intros [=]; fail).
  - intros (w1 & [= -> <-] & <-). reflexivity.
  - intros [= -> ->]. eexists. split; reflexivity.
Qed.

Lemma runOpenSSL_Ret_inv env verbose args w out w1 :
  runOpenSSL env verbose args w = (Ret out, w1) ->
  spawn env (js "openssl") args None (fs w) = (Closed (Some 0%Z) out, fs w1).
Proof. intros Hr. apply (runOpenSSL_Ret env verbose). eauto. Qed.


Lemma bind_Ret_iff {S A B} (m : M S A) (f : A -> M S B) s b s' :
  bind m f s = (Ret b, s') <->
  exists a s1, m s = (Ret a, s1) /\ f a s1 = (Ret b, s').
Proof.
  split; [apply bind_Ret_inv|].
  intros (a & s1 & Hm & Hf). unfold bind. rewrite Hm. exact Hf.
Qed.









(** The scripted certificate covers [a.test] and [b.test] and expires in
    twenty days: it is accepted for these two names, and rejected as soon
    as a third is asked for. *)
Example validateSslCert_resolves_demo :
  fst (validateSslCert (Demo.env [] (js "in 20 days") []) Demo.cert
         [js "b.test"; js "a.test"] true Demo.empty_world) = Ret tt
  /\ fst (validateSslCert (Demo.env [] (js "in 20 days") []) Demo.cert
            [js "b.test"; js "c.test"] true Demo.empty_world)
     = Throw (Error (js "Some hostnames not found in certificate: c.test")).
Proof. split; vm_compute; reflexivity. Qed.

(** ** [confirm] *)

Lemma trimStart_spaces lead s :
  Forall (fun c => is_space c = true) lead -> trimStart (lead ++ s) = trimStart s.
Proof.
  induction 1 as [|c lead Hc _ IH]; [reflexivity|].
  cbn [app trimStart]. rewrite Hc. exact IH.
Qed.

Lemma trimStart_blank s :
  Forall (fun c => is_space c = true) s -> trimStart s = [].
Proof.
  intros H. rewrite <- (app_nil_r s). rewrite (trimStart_spaces s [] H). reflexivity.
Qed.

Lemma trim_blank s : Forall (fun c => is_space c = true) s -> trim s = [].
Proof. intros H. unfold trim, trimEnd. rewrite (trimStart_blank s H). reflexivity. Qed.

(** A letter of ["yes"], in either case, is not white space. *)
Lemma letter_not_space c k :
  (if (65 <=? c) && (c <=? 90) then c + 32 else c) = k ->
  k = 121 \/ k = 101 \/ k = 115 ->
  is_space c = false.
Proof.
  intros Hc Hk. unfold is_space.
  destruct ((65 <=? c) && (c <=? 90)) eqn:Hup.
  - apply andb_true_iff in Hup as [H1 H2].
    apply N.leb_le in H1, H2.
    repeat (apply orb_false_iff; split);
      try (apply N.eqb_neq; lia);
      apply andb_false_iff; left; apply N.leb_gt; lia.
  - subst k. destruct Hk as [->|[->| ->]]; reflexivity.
Qed.

Lemma trim_padded lead word trail :
  Forall (fun c => is_space c = true) lead ->
  Forall (fun c => is_space c = true) trail ->
  toLowerCase word ∈ [js "y"; js "yes"] ->
  trim (lead ++ word ++ trail) = word.
Proof.
  intros Hl Ht Hw. unfold trim, trimEnd.
  rewrite (trimStart_spaces lead _ Hl).
  apply Forall_rev in Ht.
  apply elem_of_cons in Hw as [Hw|Hw];
    [|apply elem_of_cons in Hw as [Hw|Hw]; [|inversion Hw]].
  - destruct word as [|c [|c' word]]; try discriminate.
    injection Hw as Hc.
    assert (Hs : is_space c = false) by (apply (letter_not_space c _ Hc); auto).
    cbn [app trimStart]. rewrite Hs.
    change (c :: trail) with ([c] ++ trail).
    rewrite rev_app_distr, (trimStart_spaces _ _ Ht).
    cbn [rev app trimStart]. rewrite Hs. reflexivity.
  - destruct word as [|c1 [|c2 [|c3 [|c4 word]]]]; try discriminate.
    injection Hw as H1 H2 H3.
    assert (Hs1 : is_space c1 = false) by (apply (letter_not_space c1 _ H1); auto).
    assert (Hs3 : is_space c3 = false) by (apply (letter_not_space c3 _ H3); auto).
    cbn [app trimStart]. rewrite Hs1.
    change (c1 :: c2 :: c3 :: trail) with ([c1; c2; c3] ++ trail).
    rewrite rev_app_distr, (trimStart_spaces _ _ Ht).
    cbn [rev app trimStart]. rewrite Hs3. reflexivity.
Qed.

(** X3.  The answers [confirm] takes for a yes.  Any spelling of [y] or [yes],
    in either case and with white space around it, resolves to [true],
    whatever the default. *)
Theorem confirm_accepts_padded_yes env question assumeTrue w lead word trail :
  operator env (question ++ js " ("
                ++ (if default false assumeTrue then js "Y/n" else js "y/N")
                ++ js ") ")
  = lead ++ word ++ trail ->
  Forall (fun c => is_space c = true) lead ->
  Forall (fun c => is_space c = true) trail ->
  toLowerCase word ∈ [js "y"; js "yes"] ->
  fst (confirm env question assumeTrue w) = Ret true.
Proof.
  intros Hans Hl Ht Hw. unfold confirm. cbv zeta. rewrite Hans.
  unfold bind, emit. cbn [fst].
  assert (Hne : exists c s, lead ++ word ++ trail = c :: s).
  { destruct lead as [|c lead]; [|cbn; eauto].
    destruct word as [|c word]; [|cbn; eauto].
    apply elem_of_cons in Hw as [Hw|Hw]; [discriminate|].
    apply elem_of_cons in Hw as [Hw|Hw]; [discriminate|inversion Hw]. }
  destruct Hne as (c & s & Hcs).
  rewrite <- (trim_padded lead word trail Hl Ht Hw) in Hw.
  rewrite Hcs in *. unfold ret, includes. cbn [fst].
  rewrite bool_decide_eq_true_2 by exact Hw. reflexivity.
Qed.

Lemma confirm_accepts_padded_yes_witness :
  fst (confirm (Demo.env [] [] (js "  YeS" ++ nl)) (js "Overwrite?") (Some false)
         Demo.empty_world) = Ret true.
Proof.
  apply (confirm_accepts_padded_yes _ _ _ _ (js "  ") (js "YeS") nl).
  - reflexivity.
  - repeat constructor.
  - repeat constructor.
  - vm_compute. apply list_elem_of_In. right. left. reflexivity.
Defined.

(** X4.  The default is for the empty answer only.  An answer that is not
    empty but all white space is a refusal, also when the default is yes;
    the empty answer gives the default, which is no unless [assumeTrue] is
    [true]. *)
Theorem confirm_default_only_for_empty_answer env question assumeTrue w :
  let answer := operator env (question ++ js " ("
                              ++ (if default false assumeTrue
                                  then js "Y/n" else js "y/N") ++ js ") ") in
  (answer = [] ->
   fst (confirm env question assumeTrue w)
   = Ret (bool_decide (assumeTrue = Some true)))
  /\ (answer <> [] -> Forall (fun c => is_space c = true) answer ->
      fst (confirm env question assumeTrue w) = Ret false).
Proof.
  intros answer. unfold confirm. cbv zeta. fold answer. split.
  - intros ->. reflexivity.
  - intros Hne Hsp. unfold bind, emit. cbn [fst].
    destruct answer as [|c s] eqn:E; [destruct (Hne eq_refl)|].
    rewrite (trim_blank _ Hsp). reflexivity.
Qed.

Example confirm_blank_answer_refuses :
  fst (confirm (Demo.env [] [] (js " ")) (js "Create one now?") (Some true)
         Demo.empty_world) = Ret false
  /\ fst (confirm (Demo.env [] [] []) (js "Create one now?") (Some true)
            Demo.empty_world) = Ret true
  /\ fst (confirm (Demo.env [] [] []) (js "Overwrite?") None
            Demo.empty_world) = Ret false.
Proof. repeat split; vm_compute; reflexivity. Qed.

(** ** Rules for [obeys] *)

Section Obeys.

Variable I : Builder -> Prop.
Variable P : Event -> Prop.
Variable T : JsError -> Prop.
Variable X : Z -> Prop.

Lemma obeys_ret {A} (a : A) : obeys I P T X (ret a).
Proof.
  intros st HI. cbn. split; [exact HI|]. split; [|split; discriminate].
  exists []. rewrite app_nil_r. split; [reflexivity|constructor].
Qed.

Lemma obeys_throw {A} e : T e -> obeys I P T X (@throw State A e).
Proof.
  intros HT st HI. cbn. split; [exact HI|]. split; [|split].
  - exists []. rewrite app_nil_r. split; [reflexivity|constructor].
  - intros e' [= <-]. exact HT.
  - discriminate.
Qed.

Lemma obeys_exit {A} c : X c -> obeys I P T X (@process_exit State A c).
Proof.
  intros HX st HI. cbn. split; [exact HI|]. split; [|split].
  - exists []. rewrite app_nil_r. split; [reflexivity|constructor].
  - discriminate.
  - intros c' [= <-]. exact HX.
Qed.

(** The value a step returns may be known to satisfy [Q]. *)
Lemma obeys_bind_val {A B} (Q : A -> Prop) (m : M State A) (f : A -> M State B) :
  obeys I P T X m ->
  (forall st a, I (this st) -> fst (m st) = Ret a -> Q a) ->
  (forall a, Q a -> obeys I P T X (f a)) ->
  obeys I P T X (bind m f).
Proof.
  intros Hm HQ Hf st HI. unfold bind.
  destruct (Hm st HI) as (HI1 & (evs1 & E1 & F1) & HT1 & HX1).
  specialize (HQ st).
  destruct (m st) as [[a|e|c] st1]; cbn [fst snd] in *.
  - destruct (Hf a (HQ a HI eq_refl) st1 HI1) as (HI2 & (evs2 & E2 & F2) & HT2 & HX2).
    split; [exact HI2|]. split; [|split; [exact HT2|exact HX2]].
    exists (evs1 ++ evs2). rewrite E2, E1, app_assoc. split; [reflexivity|].
    apply Forall_app. split; assumption.
  - split; [exact HI1|]. split; [eauto|].
    split; [intros e' [= <-]; exact (HT1 e eq_refl)|discriminate].
  - split; [exact HI1|]. split; [eauto|].
    split; [discriminate|intros c' [= <-]; exact (HX1 c eq_refl)].
Qed.

Lemma obeys_bind {A B} (m : M State A) (f : A -> M State B) :
  obeys I P T X m -> (forall a, obeys I P T X (f a)) -> obeys I P T X (bind m f).
Proof.
  intros Hm Hf. apply (obeys_bind_val (fun _ => True)); auto.
Qed.

(** [try]: what the block throws is the handler's to deal with. *)
Lemma obeys_try_catch {A} (m : M State A) (h : JsError -> M State A) :
  obeys I P (fun _ => True) X m ->
  (forall e, obeys I P T X (h e)) ->
  obeys I P T X (try_catch m h).
Proof.
  intros Hm Hh st HI. unfold try_catch.
  destruct (Hm st HI) as (HI1 & (evs1 & E1 & F1) & HT1 & HX1).
  destruct (m st) as [[a|e|c] st1]; cbn [fst snd] in *.
  - split; [exact HI1|]. split; [eauto|]. split; discriminate.
  - destruct (Hh e st1 HI1) as (HI2 & (evs2 & E2 & F2) & HT2 & HX2).
    split; [exact HI2|]. split; [|split; [exact HT2|exact HX2]].
    exists (evs1 ++ evs2). rewrite E2, E1, app_assoc. split; [reflexivity|].
    apply Forall_app. split; assumption.
  - split; [exact HI1|]. split; [eauto|]. split; [discriminate|exact HX1].
Qed.

(** Reading [this]: what follows may rely on the invariant. *)
Lemma obeys_read {B} (f : Builder -> M State B) :
  (forall b, I b -> obeys I P T X (f b)) -> obeys I P T X (bind get_this f).
Proof. intros Hf st HI. exact (Hf (this st) HI st HI). Qed.

Lemma obeys_update_this g :
  (forall b, I b -> I (g b)) -> obeys I P T X (update_this g).
Proof.
  intros Hg st HI. cbn. split; [exact (Hg _ HI)|]. split; [|split; discriminate].
  exists []. rewrite app_nil_r. split; [reflexivity|constructor].
Qed.

(** A computation over the world leaves the builder alone. *)
Lemma obeys_liftW {A} (m : M World A) :
  (forall w, exists evs, trace (snd (m w)) = trace w ++ evs /\ Forall P evs) ->
  (forall w e, fst (m w) = Throw e -> T e) ->
  (forall w c, fst (m w) = Exit c -> X c) ->
  obeys I P T X (liftW m).
Proof.
  intros He Ht Hx st HI. unfold liftW.
  specialize (He (world st)). specialize (Ht (world st)). specialize (Hx (world st)).
  destruct (m (world st)) as [o w']. cbn [fst snd this world] in *.
  split; [exact HI|]. split; [exact He|]. split; assumption.
Qed.

Lemma obeys_console ch args :
  P (Console ch args) -> obeys I P T X (liftW (console ch args)).
Proof.
  intros HP. apply obeys_liftW; try discriminate.
  intros w. exists [Console ch args]. split; [reflexivity|].
  constructor; [exact HP|constructor].
Qed.

Lemma obeys_builder_log args :
  P (Console ConsoleInfo args) -> obeys I P T X (builder_log args).
Proof.
  intros HP. unfold builder_log. apply obeys_read. intros b _.
  destruct (verbose_log b); cbn [when].
  - apply obeys_console. exact HP.
  - apply obeys_liftW; try discriminate.
    intros w. exists []. rewrite app_nil_r. split; [reflexivity|constructor].
Qed.

Lemma obeys_get_world : obeys I P T X (liftW get_world).
Proof.
  apply obeys_liftW; try discriminate.
  intros w. exists []. rewrite app_nil_r. split; [reflexivity|constructor].
Qed.

Lemma obeys_exists_now path : obeys I P T X (liftW (exists_now path)).
Proof.
  apply obeys_liftW; try discriminate.
  intros w. exists []. rewrite app_nil_r. split; [reflexivity|constructor].
Qed.

Lemma obeys_confirm env question assumeTrue :
  (forall q a, P (Question q a)) ->
  obeys I P T X (liftW (confirm env question assumeTrue)).
Proof.
  intros HP. apply obeys_liftW.
  - intros w. destruct (confirm_spec env question assumeTrue w) as (ok & ->).
    eexists. split; [reflexivity|]. constructor; [apply HP|constructor].
  - intros w e. destruct (confirm_spec env question assumeTrue w) as (ok & ->).
    discriminate.
  - intros w c. destruct (confirm_spec env question assumeTrue w) as (ok & ->).
    discriminate.
Qed.

Lemma obeys_promptPassword env prompt retypePrompt :
  (forall result, P (PasswordPrompt prompt retypePrompt result)) ->
  (forall e, T e) ->
  obeys I P T X (liftW (promptPassword env prompt retypePrompt)).
Proof.
  intros HP HT. apply obeys_liftW.
  - intros w. exists [PasswordPrompt prompt retypePrompt
                        (passwordPrompt env prompt retypePrompt)].
    split; [|constructor; [apply HP|constructor]].
    unfold promptPassword, bind, emit, ret, throw.
    destruct (passwordPrompt env prompt retypePrompt); reflexivity.
  - intros w e _. apply HT.
  - intros w c. unfold promptPassword, bind, emit, ret, throw.
    destruct (passwordPrompt env prompt retypePrompt); discriminate.
Qed.

Lemma obeys_spawn env command args stdio stdin :
  P (Spawn command args stdio stdin) ->
  (forall e, T e) ->
  obeys I P T X (liftW (spawnAsync env command args stdio stdin)).
Proof.
  intros HP HT. apply obeys_liftW.
  - intros w. destruct (spawnAsync_spec env command args stdio stdin w)
      as (o & w' & -> & Htr & _).
    exists [Spawn command args stdio stdin]. split; [exact Htr|].
    constructor; [exact HP|constructor].
  - intros w e _. apply HT.
  - intros w c E. destruct (spawnAsync_spec env command args stdio stdin w)
      as (o & w' & E' & _ & Hx).
    rewrite E' in E. destruct (Hx c E).
Qed.

Lemma obeys_rmRecursive env path :
  P (RmRecursive path) -> (forall e, T e) ->
  obeys I P T X (liftW (rmRecursive env path)).
Proof.
  intros HP HT. apply obeys_liftW.
  - intros w. unfold rmRecursive.
    destruct (rmSync env path (fs w)); exists [RmRecursive path];
      (split; [reflexivity|]); (constructor; [exact HP|constructor]).
  - intros w e _. apply HT.
  - intros w c. unfold rmRecursive. destruct (rmSync env path (fs w)); discriminate.
Qed.

Lemma obeys_writeFile path content :
  P (WriteFile path content) -> obeys I P T X (liftW (writeFile path content)).
Proof.
  intros HP. apply obeys_liftW; try discriminate.
  intros w. exists [WriteFile path content]. split; [reflexivity|].
  constructor; [exact HP|constructor].
Qed.

Lemma obeys_writeConfFile path sections :
  P (Console ConsoleInfo [VString (js "Writing config file to"); VString path]) ->
  P (WriteFile path (render_conf sections)) ->
  obeys I P T X (writeConfFile path sections).
Proof.
  intros H1 H2. unfold writeConfFile.
  apply obeys_bind; [apply obeys_builder_log; exact H1|].
  intros _. apply obeys_writeFile. exact H2.
Qed.

Lemma obeys_confirm_overwrite env paths :
  (forall q a, P (Question q a)) ->
  P (Console ConsoleWarn [VString (js "Aborting.")]) ->
  obeys I P T X (confirm_overwrite env paths).
Proof.
  intros HQ HW. induction paths as [|path rest IH]; cbn [confirm_overwrite].
  - apply obeys_ret.
  - apply obeys_bind; [apply obeys_exists_now|]. intros [|]; [|exact IH].
    apply obeys_bind; [apply obeys_confirm; exact HQ|]. intros [|]; cbn [negb].
    + exact IH.
    + apply obeys_bind; [apply obeys_console; exact HW|]. intros _. apply obeys_ret.
Qed.

End Obeys.

Lemma obeys_weaken {A} (I : Builder -> Prop) (P P' : Event -> Prop)
    (T T' : JsError -> Prop) (X X' : Z -> Prop) (m : M State A) :
  obeys I P T X m ->
  (forall e, P e -> P' e) -> (forall e, T e -> T' e) -> (forall c, X c -> X' c) ->
  obeys I P' T' X' m.
Proof.
  intros Hm HP HT HX st HI.
  destruct (Hm st HI) as (HI1 & (evs & E & F) & Ht & Hx).
  split; [exact HI1|]. split; [|split].
  - exists evs. split; [exact E|]. eapply Forall_impl; [exact F|exact HP].
  - intros e He. exact (HT e (Ht e He)).
  - intros c Hc. exact (HX c (Hx c Hc)).
Qed.

Lemma obeys_getTempDir_any I P T X env :
  (forall b d, I b -> truthy (tempDir b) = false -> I (set_tempDir d b)) ->
  (forall prefix d, P (Mkdtemp prefix d)) ->
  (forall args, P (Console ConsoleInfo args)) ->
  (forall e, T e) ->
  obeys I P T X (getTempDir env).
Proof.
  intros HI HM HC HT st Hst. rewrite getTempDir_run. cbv zeta.
  assert (Hnil : exists evs, trace (world st) = trace (world st) ++ evs /\ Forall P evs).
  { exists []. rewrite app_nil_r. split; [reflexivity|constructor]. }
  destruct (tempDir (this st)) as [[|c d]|] eqn:Htd.
  2: { cbn [fst snd]. split; [exact Hst|]. split; [exact Hnil|]. split; discriminate. }
  all: destruct (mkdtemp_pick env _ (fs (world st))) as [e|[c' cs]]; cbn [fst snd].
  all: try (split; [exact Hst|]; split; [exact Hnil|];
            split; [intros; apply HT|discriminate]).
  all: unfold workspace_made; cbn [this world trace];
    (split; [apply HI; [exact Hst|rewrite Htd; reflexivity]|]);
    (split; [|split; discriminate]);
    eexists; (split; [reflexivity|]);
    (constructor; [apply HM|]);
    destruct (verbose_log (this st)); repeat constructor; apply HC.
Qed.

Lemma obeys_getTempDir_known I P T X env d :
  (forall b, I b -> tempDir b = Some d) -> d <> [] ->
  obeys I P T X (getTempDir env).
Proof.
  intros Hd Hne st Hst. rewrite (getTempDir_recorded env st d (Hd _ Hst) Hne).
  cbn [fst snd]. split; [exact Hst|]. split; [|split; discriminate].
  exists []. rewrite app_nil_r. split; [reflexivity|constructor].
Qed.

(** With the workspace [d] recorded, [#getTempDir] returns [d]. *)
Lemma obeys_bind_getTempDir I P T X env d {B} (f : jsstring -> M State B) :
  (forall b, I b -> tempDir b = Some d) -> d <> [] ->
  obeys I P T X (f d) ->
  obeys I P T X (bind (getTempDir env) f).
Proof.
  intros Hd Hne Hf.
  apply (obeys_bind_val I P T X (fun a => a = d)).
  - exact (obeys_getTempDir_known I P T X env d Hd Hne).
  - intros st a Hst. rewrite (getTempDir_recorded env st d (Hd _ Hst) Hne).
    intros [= <-]. reflexivity.
  - intros a ->. exact Hf.
Qed.

Lemma evolved_from_refl b : evolved_from b b.
Proof.
  repeat split; try reflexivity. exists []. symmetry. apply app_nil_r.
Qed.

Lemma evolved_set_tempDir b0 b d :
  evolved_from b0 b -> truthy (tempDir b) = false ->
  evolved_from b0 (set_tempDir d b).
Proof.
  intros (Hc & Ht & Hn) Hf. split; [exact Hc|]. split; [|exact Hn].
  intros H0. rewrite (Ht H0), H0 in Hf. discriminate.
Qed.

Lemma evolved_set_rootCAInfo b0 b c :
  evolved_from b0 b -> evolved_from b0 (set_rootCAInfo c b).
Proof. intros H. exact H. Qed.

Lemma evolved_assign_rootCAInfo b0 b c :
  evolved_from b0 b -> evolved_from b0 (assign_rootCAInfo c b).
Proof. intros H. exact H. Qed.

Lemma evolved_push_newCA b0 b path :
  evolved_from b0 b -> evolved_from b0 (push_newCA path b).
Proof.
  intros (Hc & Ht & added & Hn). split; [exact Hc|]. split; [exact Ht|].
  exists (added ++ [path]). cbn [newCAs push_newCA]. rewrite Hn, app_assoc.
  reflexivity.
Qed.

Ltac obeys_step tmp :=
  lazymatch goal with
  | |- obeys _ _ _ _ (bind (getTempDir _) _) => tmp
  | |- obeys _ _ _ _ (getConfFile _) => unfold getConfFile
  | |- obeys _ _ _ _ (builder_log _) => apply obeys_builder_log
  | |- obeys _ _ _ _ (writeConfFile _ _) => apply obeys_writeConfFile
  | |- obeys _ _ _ _ (confirm_overwrite _ _) => apply obeys_confirm_overwrite
  | |- obeys _ _ _ _ (liftW (console _ _)) => apply obeys_console
  | |- obeys _ _ _ _ (liftW (confirm _ _ _)) => apply obeys_confirm
  | |- obeys _ _ _ _ (liftW (promptPassword _ _ _)) => apply obeys_promptPassword
  | |- obeys _ _ _ _ (liftW get_world) => apply obeys_get_world
  | |- obeys _ _ _ _ (liftW (exists_now _)) => apply obeys_exists_now
  | |- obeys _ _ _ _ (liftW (spawnAsync _ _ _ _ _)) => apply obeys_spawn
  | |- obeys _ _ _ _ (liftW (rmRecursive _ _)) => apply obeys_rmRecursive
  | |- obeys _ _ _ _ (bind get_this _) =>
      let b := fresh "b" in let Hb := fresh "Hb" in
      apply obeys_read; intros b Hb
  | |- obeys _ _ _ _ (bind (if ?c then _ else _) _) =>
      let E := fresh "E" in destruct c eqn:E
  | |- obeys _ _ _ _ (bind (match ?x with _ => _ end) _) =>
      let E := fresh "E" in destruct x eqn:E
  | |- obeys _ _ _ _ (bind _ _) => apply obeys_bind; [|intros ?]
  | |- obeys _ _ _ _ (try_catch _ _) => apply obeys_try_catch; [|intros ?]
  | |- obeys _ _ _ _ (ret _) => apply obeys_ret
  | |- obeys _ _ _ _ (throw _) => apply obeys_throw
  | |- obeys _ _ _ _ (process_exit _) => apply obeys_exit
  | |- obeys _ _ _ _ (update_this _) => apply obeys_update_this
  | |- obeys _ _ _ _ (if ?c then _ else _) =>
      let E := fresh "E" in destruct c eqn:E
  | |- obeys _ _ _ _ (match ?x with _ => _ end) =>
      let E := fresh "E" in destruct x eqn:E
  | |- obeys _ _ _ _ (let _ := _ in _) => cbv zeta
  end.

Ltac asked_in_safe_mode :=
  intros; cbn [issuing_event];
  match goal with
  | Hb : evolved_from ?b0 ?b, E : safeMode (options ?b) = true
    |- safeMode _ = true =>
      destruct Hb as ((Ho & _) & _); rewrite <- Ho; exact E
  | Hb : evolved_from ?b0 ?b
    |- truthy (persistentRootCAKeyPath ?b0) = true /\ _ =>
      let Hp := fresh "Hp" in
      split; [|split; reflexivity];
      destruct Hb as ((_ & _ & _ & Hp & _) & _); rewrite <- Hp;
      repeat match goal with
             | E : persistentRootCAKeyPath b = _ |- _ => rewrite E
             end;
      first [assumption | reflexivity]
  end.

Ltac tmp_any :=
  apply obeys_bind;
  [apply obeys_getTempDir_any;
   [intros ? ? ? ?; apply evolved_set_tempDir; assumption
   |intros ? ?; exact I|intros ?; exact I|intros ?; exact I]
  |intros ?].

Lemma issueSignedCert_obeys_any env name issuer hostnames b0 :
  obeys (evolved_from b0) (issuing_event (safeMode (options b0)) false)
    (fun _ => True) (fun c => c = 1%Z)
    (issueSignedCert env name issuer hostnames).
Proof.
  unfold issueSignedCert.
  repeat obeys_step tmp_any.
  all: try exact I.
  all: try reflexivity.
  all: try (intros; exact I).
  all: try (intros; apply evolved_push_newCA; assumption).
  all: asked_in_safe_mode.
Qed.

Ltac tmp_known d Hd Hne :=
  apply (obeys_bind_getTempDir _ _ _ _ _ d _ Hd Hne).

Lemma issueSignedCert_obeys_workspace env name issuer hostnames d :
  d <> [] ->
  obeys (fun b => tempDir b = Some d) (workspace_event env d)
    (fun _ => False) (fun c => c = 1%Z)
    (issueSignedCert env name issuer hostnames).
Proof.
  intros Hne. unfold issueSignedCert.
  assert (Hd : forall b : Builder, tempDir b = Some d -> tempDir b = Some d)
    by (intros b H; exact H).
  repeat obeys_step ltac:(tmp_known d Hd Hne).
  all: try exact I.
  all: try reflexivity.
  all: try (intros; exact I).
  all: intros ? H; exact H.
Qed.

Lemma createRootCA_obeys_any env b0 :
  obeys (evolved_from b0)
    (issuing_event (safeMode (options b0)) (truthy (persistentRootCAKeyPath b0)))
    (fun _ => True) (fun c => c = 1%Z) (createRootCA env).
Proof.
  unfold createRootCA.
  repeat obeys_step tmp_any.
  all: try exact I.
  all: try reflexivity.
  all: try (intros; exact I).
  all: try (intros; apply evolved_push_newCA; assumption).
  all: try (intros; apply evolved_set_rootCAInfo; assumption).
  all: asked_in_safe_mode.
Qed.

(** [ephemeral] stands for: the root key is ephemeral and the
    configuration has the section of the root CA's name. *)
Lemma createRootCA_obeys_workspace env d (ephemeral : bool) :
  d <> [] ->
  obeys (fun b => tempDir b = Some d
                  /\ (ephemeral = true ->
                      truthy (persistentRootCAKeyPath b) = false
                      /\ is_Some (get (sharedConfig b)
                                    (js "root_distinguished_name"))))
    (workspace_event env d) (fun _ => ephemeral = false) (fun c => c = 1%Z)
    (createRootCA env).
Proof.
  intros Hne. unfold createRootCA.
  assert (Hd : forall b : Builder,
             tempDir b = Some d
             /\ (ephemeral = true ->
                 truthy (persistentRootCAKeyPath b) = false
                 /\ is_Some (get (sharedConfig b) (js "root_distinguished_name"))) ->
             tempDir b = Some d)
    by (intros b H; exact (proj1 H)).
  repeat obeys_step ltac:(tmp_known d Hd Hne).
  all: try exact I.
  all: try reflexivity.
  all: try (intros; exact I).
  all: try (intros ? [H1 H2]; split; assumption).
  all: intros; destruct ephemeral; [exfalso|reflexivity].
  all: destruct Hb as [_ Hb]; destruct (Hb eq_refl) as [Hp [section Hs]];
    cbn in *; congruence.
Qed.

Lemma events_since_app before after evs :
  trace (world after) = trace (world before) ++ evs ->
  events_since before after = evs.
Proof. intros E. unfold events_since. rewrite E. apply drop_app_length. Qed.

(** What [obeys] says of one run. *)
Lemma obeys_run {A} I P T X (m : M State A) st :
  obeys I P T X m -> I (this st) ->
  I (this (snd (m st)))
  /\ Forall P (events_since st (snd (m st)))
  /\ match fst (m st) with
     | Ret _ => True
     | Throw e => T e
     | Exit c => X c
     end.
Proof.
  intros Hm HI. destruct (Hm st HI) as (HI' & (evs & E & F) & HT & HX).
  split; [exact HI'|]. split.
  - rewrite (events_since_app _ _ _ E). exact F.
  - destruct (fst (m st)); [constructor|apply HT; reflexivity|apply HX; reflexivity].
Qed.

Lemma loadCertKeyPair_obeys I P X key_settles_first keyPath certPath :
  obeys I P (fun _ => True) X (loadCertKeyPair key_settles_first keyPath certPath).
Proof.
  unfold loadCertKeyPair. cbv zeta.
  apply obeys_bind; [apply obeys_get_world|]. intros w.
  destruct (read_failure (fs w) keyPath) as [[|]|],
           (read_failure (fs w) certPath) as [[|]|];
    try destruct key_settles_first;
    first [apply obeys_ret | apply obeys_throw; exact Logic.I].
Qed.

Lemma loadRootCA_obeys P X env key_settles_first b0 :
  obeys (evolved_from b0) P (fun _ => True) X (loadRootCA env key_settles_first).
Proof.
  unfold loadRootCA. apply obeys_read. intros b Hb.
  destruct (persistentRootCAKeyPath b) as [[|c path]|]; try apply obeys_ret.
  destruct (get (sharedConfig b) (js "root_distinguished_name"));
    [|apply obeys_throw; exact Logic.I].
  apply obeys_bind; [apply loadCertKeyPair_obeys|]. intros loaded.
  apply obeys_bind; [|intros _; apply obeys_ret].
  apply obeys_update_this. intros b1 H1. exact H1.
Qed.

Lemma issueSignedCert_null_issuer_obeys env name hostnames b0 :
  obeys (evolved_from b0) (issuing_event (safeMode (options b0)) false)
    (fun _ => True) (fun c => c = 1%Z)
    (issueSignedCert_null_issuer env name hostnames).
Proof.
  unfold issueSignedCert_null_issuer.
  repeat obeys_step tmp_any.
  all: try exact I.
  all: try reflexivity.
  all: try (intros; exact I).
  all: try (intros; apply evolved_push_newCA; assumption).
  all: asked_in_safe_mode.
Qed.

Lemma issueSignedCert_any_obeys env name issuer hostnames b0 :
  obeys (evolved_from b0) (issuing_event (safeMode (options b0)) false)
    (fun _ => True) (fun c => c = 1%Z)
    (issueSignedCert_any env name issuer hostnames).
Proof.
  destruct name as [name|]; [destruct issuer as [issuer|]|]; cbn [issueSignedCert_any].
  - apply issueSignedCert_obeys_any.
  - apply issueSignedCert_null_issuer_obeys.
  - apply obeys_throw. exact I.
Qed.

Ltac obeys_ssl_step :=
  lazymatch goal with
  | |- obeys _ _ _ _ (loadCertKeyPair _ _ _) => apply loadCertKeyPair_obeys
  | |- obeys _ _ _ _ (loadRootCA _ _) => apply loadRootCA_obeys
  | |- obeys _ _ _ _ (createRootCA _) =>
      eapply obeys_weaken; [apply createRootCA_obeys_any|..]
  | |- obeys _ _ _ _ (issueSignedCert_any _ _ _ _) =>
      eapply obeys_weaken; [apply issueSignedCert_any_obeys|..]
  | |- _ => obeys_step idtac
  end.

Lemma issuing_event_weaken safe persistent e :
  issuing_event safe persistent e -> issuing_event true persistent e.
Proof. destruct e; cbn; auto. Qed.

Lemma issuing_event_no_prompt safe persistent e :
  issuing_event safe false e -> issuing_event true persistent e.
Proof. destruct e; cbn; auto. intros [H _]. discriminate. Qed.

Lemma issueSslCert_obeys env key_settles_first hostnames issuer b0 :
  obeys (evolved_from b0)
    (issuing_event true (truthy (persistentRootCAKeyPath b0)))
    (fun _ => True) (fun c => c = 1%Z)
    (issueSslCert env key_settles_first hostnames issuer).
Proof.
  unfold issueSslCert. cbv zeta.
  repeat obeys_ssl_step.
  all: try exact I.
  all: try reflexivity.
  all: try (intros; exact I).
  all: try (intros; assumption).
  all: first [apply issuing_event_weaken | apply issuing_event_no_prompt].
Qed.

Lemma cleanUp_obeys env b0 :
  obeys (fun b => b = b0) (fun _ => True) (fun _ => False) (fun c => c = 1%Z)
    (cleanUp env).
Proof.
  unfold cleanUp.
  repeat obeys_step idtac.
  all: try exact I.
  all: try reflexivity.
  all: try (intros; exact I).
Qed.

(** ** What the methods of the builder keep, and what they never do *)

(** X5.  The configuration is fixed at construction.  No method assigns to the
    options, the store directory, the shared configuration, the persistent
    key path or the logger; a workspace once recorded is never replaced;
    [#newCAs] only grows at its end.  This holds for every way the methods
    end, an exit of the process or a rejection included.  The exit handler
    leaves the builder as it is. *)
Theorem methods_keep_configuration env key_settles_first st :
  evolved_from (this st) (this (snd (createRootCA env st)))
  /\ (forall name issuer hostnames,
        evolved_from (this st)
          (this (snd (issueSignedCert env name issuer hostnames st))))
  /\ (forall hostnames issuer,
        evolved_from (this st)
          (this (snd (issueSslCert env key_settles_first hostnames issuer st))))
  /\ this (snd (cleanUp env st)) = this st.
Proof.
  split; [|split; [|split]].
  - exact (proj1 (createRootCA_obeys_any env (this st) st (evolved_from_refl _))).
  - intros name issuer hostnames.
    exact (proj1 (issueSignedCert_obeys_any env name issuer hostnames (this st) st
                    (evolved_from_refl _))).
  - intros hostnames issuer.
    exact (proj1 (issueSslCert_obeys env key_settles_first hostnames issuer (this st) st
                    (evolved_from_refl _))).
  - exact (proj1 (cleanUp_obeys env (this st) st eq_refl)).
Qed.



(** With a persistent key path the first thing [createRootCA] does to the
    outside, safe mode being off, is to prompt for the password, which is
    then what the engine reads from its standard input. *)
Example createRootCA_persistent_key_prompts :
  let st := {| this := new_CertBuilder (js "certs") Demo.options_DE
                         (Some (js "keys/root.key")) false;
               world := Demo.empty_world |} in
  let after := snd (createRootCA (Demo.env [] [] []) st) in
  head (events_since st after)
  = Some (PasswordPrompt (js "Create a password for the root CA: ")
            (js "Confirm password: ") (inr (js "correct horse")))
  /\ map snd (new_invocations st after) = [Some (js "correct horse")].
Proof. vm_compute. split; reflexivity. Qed.

(** X7.  Once the workspace [d] is recorded, the issuing methods stay inside
    it.  They make no directory and remove nothing, and the only file they
    write themselves is [ssl_extensions.conf] in [d].  Everything else
    reaches the disk through the engine. *)
Theorem issuing_stays_in_workspace env st d :
  tempDir (this st) = Some d -> d <> [] ->
  Forall (workspace_event env d) (events_since st (snd (createRootCA env st)))
  /\ (forall name issuer hostnames,
        Forall (workspace_event env d)
          (events_since st (snd (issueSignedCert env name issuer hostnames st)))).
Proof.
  intros Hd Hne. split.
  - refine (proj1 (proj2 (obeys_run _ _ _ _ _ st
             (createRootCA_obeys_workspace env d false Hne) _))).
    split; [exact Hd|discriminate].
  - intros name issuer hostnames.
    exact (proj1 (proj2 (obeys_run _ _ _ _ _ st
             (issueSignedCert_obeys_workspace env name issuer hostnames d Hne) Hd))).
Qed.

Lemma issuing_stays_in_workspace_witness :
  Forall (workspace_event (Demo.env [] [] []) (js "/tmp/local-ssl-certs-abcdef"))
    (events_since
       {| this := set_tempDir (js "/tmp/local-ssl-certs-abcdef") (this Demo.builder_DE);
          world := Demo.empty_world |}
       (snd (issueSignedCert (Demo.env [] [] []) (js "a.test") Demo.root
               (HostsArray [js "a.test"; js "b.test"])
               {| this := set_tempDir (js "/tmp/local-ssl-certs-abcdef")
                            (this Demo.builder_DE);
                  world := Demo.empty_world |}))).
Proof.
  refine (proj2 (issuing_stays_in_workspace (Demo.env [] [] [])
                   {| this := set_tempDir (js "/tmp/local-ssl-certs-abcdef")
                                (this Demo.builder_DE);
                      world := Demo.empty_world |}
                   (js "/tmp/local-ssl-certs-abcdef") eq_refl _) _ _ _).
  discriminate.
Defined.

Lemma issueSignedCert_null_issuer_obeys_known env name hostnames d :
  d <> [] ->
  obeys (fun b => tempDir b = Some d) (workspace_event env d)
    (fun e => e = null_issuer_error) (fun c => c = 1%Z)
    (issueSignedCert_null_issuer env name hostnames).
Proof.
  intros Hne. unfold issueSignedCert_null_issuer.
  assert (Hd : forall b : Builder, tempDir b = Some d -> tempDir b = Some d)
    by (intros b H; exact H).
  repeat obeys_step ltac:(tmp_known d Hd Hne).
  all: try exact I.
  all: try reflexivity.
  all: try (intros; exact I).
  all: intros ? H; exact H.
Qed.

Lemma issueSignedCert_null_issuer_returns_null env name hostnames st r :
  fst (issueSignedCert_null_issuer env name hostnames st) = Ret r -> r = None.
Proof.
  intros H.
  destruct (issueSignedCert_null_issuer env name hostnames st) as [o st'] eqn:E.
  cbn [fst] in H. subst o.
  unfold issueSignedCert_null_issuer in E.
  apply bind_Ret_inv in E as (b & s1 & _ & E). cbv zeta in E.
  apply bind_Ret_inv in E as (proceed & s2 & _ & E).
  destruct proceed; cbn [negb] in E; [|injection E as <- _; reflexivity].
  apply bind_Ret_inv in E as (? & s3 & _ & E).
  apply bind_Ret_inv in E as (? & s4 & _ & E).
  apply bind_Ret_inv in E as (? & s5 & _ & E).
  discriminate.
Qed.

(** X8.  With the workspace recorded, issuing from an issuer never rejects.
    Given a name and an issuer, the promise of [issueSignedCert] resolves
    (with the new pair, or with [null] when the operator declines) or the
    process exits with status 1; every failure of the engine is caught and
    turned into that exit.  With a [null] issuer, as [issueSslCert] passes
    it on after a declined intermediate CA, the call resolves with [null]
    when the operator declines, exits with status 1 when the request
    fails, and otherwise rejects with the TypeError of reading
    [issuer.certPath].  [createRootCA] settles in the same way when the
    root key is ephemeral (no persistent key path, hence no password prompt
    that could fail) and the configuration has the section
    [root_distinguished_name]; without that section it rejects with a
    TypeError at once, the state as it was. *)
Theorem issuing_settles env st :
  has_workspace (this st) ->
  (forall name issuer hostnames,
     settles (fst (issueSignedCert_any env (Some name) (Some issuer) hostnames st)))
  /\ (forall name hostnames,
        let outcome := fst (issueSignedCert_any env (Some name) None hostnames st) in
        outcome = Ret None \/ outcome = Exit 1%Z
        \/ outcome = Throw null_issuer_error)
  /\ (truthy (persistentRootCAKeyPath (this st)) = false ->
      is_Some (get (sharedConfig (this st)) (js "root_distinguished_name")) ->
      settles (fst (createRootCA env st)))
  /\ (get (sharedConfig (this st)) (js "root_distinguished_name") = None ->
      createRootCA env st = (Throw undefined_section_error, st)).
Proof.
  unfold has_workspace. intros Hws.
  destruct (tempDir (this st)) as [[|c d]|] eqn:Hd; try discriminate.
  assert (Hne : c :: d <> []) by discriminate.
  split; [|split; [|split]].
  - intros name issuer hostnames. cbn [issueSignedCert_any].
    pose proof (proj2 (proj2 (obeys_run _ _ _ _ _ st
             (issueSignedCert_obeys_workspace env name issuer hostnames _ Hne) Hd)))
      as H.
    destruct (fst (issueSignedCert env name issuer hostnames st)); exact H || exact I.
  - intros name hostnames. cbn [issueSignedCert_any].
    pose proof (proj2 (proj2 (obeys_run _ _ _ _ _ st
             (issueSignedCert_null_issuer_obeys_known env name hostnames _ Hne) Hd)))
      as H.
    pose proof (issueSignedCert_null_issuer_returns_null env name hostnames st) as Hr.
    destruct (fst (issueSignedCert_null_issuer env name hostnames st)) as [r|e|x].
    + left. rewrite (Hr r eq_refl). reflexivity.
    + right; right. rewrite H. reflexivity.
    + right; left. rewrite H. reflexivity.
  - intros Heph Hsec.
    assert (HI : tempDir (this st) = Some (c :: d)
                 /\ (true = true ->
                     truthy (persistentRootCAKeyPath (this st)) = false
                     /\ is_Some (get (sharedConfig (this st))
                                   (js "root_distinguished_name"))))
      by (split; [exact Hd|intros _; split; [exact Heph|exact Hsec]]).
    pose proof (proj2 (proj2 (obeys_run _ _ _ _ _ st
             (createRootCA_obeys_workspace env _ true Hne) HI))) as H.
    destruct (fst (createRootCA env st)); [exact I|discriminate H|exact H].
  - intros Hsec. unfold createRootCA, bind, get_this. rewrite Hsec. reflexivity.
Qed.

(** The signing fails in the scripted world: the process exits, the
    promise does not reject. *)
Lemma issuing_settles_witness :
  settles (fst (issueSignedCert_any (Demo.env [js "x509"] [] []) (Some (js "a.test"))
                  (Some Demo.root) (HostsArray [js "a.test"])
                  {| this := set_tempDir (js "/tmp/local-ssl-certs-abcdef")
                               (this Demo.builder_DE);
                     world := Demo.empty_world |})).
Proof.
  exact (proj1 (issuing_settles (Demo.env [js "x509"] [] [])
                  {| this := set_tempDir (js "/tmp/local-ssl-certs-abcdef")
                               (this Demo.builder_DE);
                     world := Demo.empty_world |} eq_refl) _ _ _).
Defined.

Lemma issueSignedCert_obeys_leaf env name issuer hostnames n0 r0 :
  has_hostnames hostnames = true ->
  obeys (fun b => newCAs b = n0 /\ rootCAInfo b = r0) (fun _ => True)
    (fun _ => True) (fun _ => True)
    (issueSignedCert env name issuer hostnames).
Proof.
  intros Hh. unfold issueSignedCert. rewrite Hh.
  repeat obeys_step
    ltac:(apply obeys_bind;
          [apply obeys_getTempDir_any;
           [intros ? ? H _; exact H
           |intros ? ?; exact I|intros ?; exact I|intros ?; exact I]
          |intros ?]).
  all: try exact I.
  all: try (intros; exact I).
Qed.

(** X9.  A leaf certificate is never reported as a new CA.  When hostnames are
    given, [issueSignedCert] leaves [#newCAs] and the root CA as they were,
    however it ends. *)
Theorem leaf_cert_is_not_a_new_CA env name issuer hostnames st :
  has_hostnames hostnames = true ->
  newCAs (this (snd (issueSignedCert env name issuer hostnames st)))
  = newCAs (this st)
  /\ rootCAInfo (this (snd (issueSignedCert env name issuer hostnames st)))
     = rootCAInfo (this st).
Proof.
  intros Hh.
  exact (proj1 (issueSignedCert_obeys_leaf env name issuer hostnames _ _ Hh st
                  (conj eq_refl eq_refl))).
Qed.

Lemma leaf_cert_is_not_a_new_CA_witness :
  newCAs (this (snd (issueSignedCert (Demo.env [] [] []) (js "a.test") Demo.root
                       (HostsString (js "a.test")) Demo.builder_DE)))
  = newCAs (this Demo.builder_DE).
Proof.
  exact (proj1 (leaf_cert_is_not_a_new_CA (Demo.env [] [] []) (js "a.test") Demo.root
                  (HostsString (js "a.test")) Demo.builder_DE eq_refl)).
Defined.

(** ** [createRootCA] *)

Section Registers.

Variables I Q : Builder -> Prop.

Lemma registers_bind {A B} (m : M State A) (f : A -> M State B) :
  obeys I (fun _ => True) (fun _ => True) (fun _ => True) m ->
  (forall a, registers I Q (f a)) ->
  registers I Q (bind m f).
Proof.
  intros Hm Hf st HI. unfold bind.
  destruct (Hm st HI) as (HI1 & _).
  destruct (m st) as [[a|e|c] st1]; cbn [fst snd] in *.
  - exact (Hf a st1 HI1).
  - exact HI1.
  - exact HI1.
Qed.

Lemma registers_read {B} (f : Builder -> M State B) :
  (forall b, I b -> registers I Q (f b)) -> registers I Q (bind get_this f).
Proof. intros Hf st HI. exact (Hf (this st) HI st HI). Qed.

Lemma registers_try_catch {A} (m : M State A) (h : JsError -> M State A) :
  registers I Q m -> (forall e, registers I Q (h e)) ->
  registers I Q (try_catch m h).
Proof.
  intros Hm Hh st HI. unfold try_catch. specialize (Hm st HI).
  destruct (m st) as [[a|e|c] st1]; cbn [fst snd] in *.
  - exact Hm.
  - exact (Hh e st1 Hm).
  - exact Hm.
Qed.

Lemma registers_exit {A} c : registers I Q (@process_exit State A c).
Proof. intros st HI. exact HI. Qed.

Lemma registers_throw {A} e : registers I Q (@throw State A e).
Proof. intros st HI. exact HI. Qed.

Lemma registers_updates g1 g2 :
  (forall b, I b -> Q (g2 (g1 b))) ->
  registers I Q (bind (update_this g1) (fun _ => update_this g2)).
Proof. intros H st HI. exact (H _ HI). Qed.

End Registers.

Ltac quiet_step :=
  repeat obeys_step
    ltac:(apply obeys_bind;
          [apply obeys_getTempDir_any;
           [intros ? ? ? _; assumption
           |intros ? ?; exact I|intros ?; exact I|intros ?; exact I]
          |intros ?]);
  try exact I; try (intros; exact I).

Ltac registers_step :=
  lazymatch goal with
  | |- registers _ _ (bind get_this _) =>
      let b := fresh "b" in let Hb := fresh "Hb" in
      apply registers_read; intros b Hb
  | |- registers _ _ (bind (update_this _) (fun _ => update_this _)) =>
      apply registers_updates
  | |- registers _ _ (bind (if ?c then _ else _) _) => destruct c
  | |- registers _ _ (bind (match ?x with _ => _ end) _) => destruct x
  | |- registers _ _ (bind _ _) => apply registers_bind; [quiet_step|intros ?]
  | |- registers _ _ (try_catch _ _) => apply registers_try_catch; [|intros ?]
  | |- registers _ _ (process_exit _) => apply registers_exit
  | |- registers _ _ (throw _) => apply registers_throw
  | |- registers _ _ (match ?x with _ => _ end) =>
      let E := fresh "E" in destruct x eqn:E
  | |- registers _ _ (let _ := _ in _) => cbv zeta
  end.

Lemma createRootCA_registers env b0 :
  registers
    (fun b => rootCAInfo b = rootCAInfo b0 /\ newCAs b = newCAs b0
              /\ certDir b = certDir b0 /\ sharedConfig b = sharedConfig b0)
    (fun b => exists info,
                rootCAInfo b = Some info
                /\ certPath info = root_cert_path env b0
                /\ is_Some (password info)
                /\ newCAs b = newCAs b0 ++ [certPath info])
    (createRootCA env).
Proof.
  unfold createRootCA.
  repeat registers_step.
  all: intros b1 (H1 & H2 & H3 & H4); destruct Hb as (_ & _ & Hc & Hs).
  all: eexists; cbn [rootCAInfo newCAs push_newCA set_rootCAInfo certPath password].
  all: split; [reflexivity|].
  all: split; [unfold root_cert_path, get2; rewrite <- Hc, <- Hs, E; reflexivity|].
  all: split; [eexists; reflexivity|rewrite H2; reflexivity].
Qed.

(** X10.  The root CA is registered exactly when [createRootCA] returns.  On
    return [#rootCAInfo] holds the new pair, with a password, and its
    certificate path is the last entry of [#newCAs].  When the method does
    not return (the operator declined, the password prompt failed or the
    engine failed), neither has changed: a root CA that was not created is
    not reported. *)
Theorem createRootCA_registers_iff_returns env st :
  let after := this (snd (createRootCA env st)) in
  match fst (createRootCA env st) with
  | Ret _ =>
      exists info,
        rootCAInfo after = Some info
        /\ certPath info = root_cert_path env (this st)
        /\ is_Some (password info)
        /\ newCAs after = newCAs (this st) ++ [certPath info]
  | _ =>
      rootCAInfo after = rootCAInfo (this st)
      /\ newCAs after = newCAs (this st)
  end.
Proof.
  intros after. subst after.
  pose proof (createRootCA_registers env (this st) st
                (conj eq_refl (conj eq_refl (conj eq_refl eq_refl)))) as H.
  destruct (fst (createRootCA env st)).
  - exact H.
  - destruct H as (H1 & H2 & _). split; assumption.
  - destruct H as (H1 & H2 & _). split; assumption.
Qed.

Example createRootCA_registers_demo :
  newCAs (this (snd (createRootCA (Demo.env [] [] []) Demo.builder_DE)))
  = [js "certs/Acme Root Dev CA.crt"]
  /\ newCAs (this (snd (createRootCA (Demo.env [js "req"] [] []) Demo.builder_DE)))
     = [].
Proof. split; vm_compute; reflexivity. Qed.


Lemma bind_run {S A B} (m : M S A) (f : A -> M S B) s a s1 :
  m s = (Ret a, s1) -> bind m f s = f a s1.
Proof. intros E. unfold bind. rewrite E. reflexivity. Qed.

(** X11.  Safe mode protects an existing root CA.  In safe mode, with the
    workspace recorded and a configuration that has the section
    [root_distinguished_name], when the key file or the certificate file
    of the root CA exists and the operator declines to overwrite,
    [createRootCA] ends the process with status 1 having only asked and
    printed [Aborting.]: the engine is not run, the files and the builder
    are as they were. *)
Theorem createRootCA_declined env st d :
  is_Some (get (sharedConfig (this st)) (js "root_distinguished_name")) ->
  let keyFile :=
    match persistentRootCAKeyPath (this st) with
    | Some (c :: path) => c :: path
    | _ => path_join env d (js "$certName.key")
    end in
  let existingFiles :=
    List.filter (existsSync (fs (world st))) [keyFile; root_cert_path env (this st)] in
  tempDir (this st) = Some d -> d <> [] ->
  safeMode (options (this st)) = true ->
  existingFiles <> [] ->
  declines env (js "Files exist:" ++ nl ++ js "  "
                ++ join_with (nl ++ js "  ") existingFiles
                ++ nl ++ js "Overwrite existing files ?") ->
  let result := createRootCA env st in
  fst result = Exit 1%Z
  /\ fs (world (snd result)) = fs (world st)
  /\ this (snd result) = this st
  /\ invocations (trace (world (snd result))) = invocations (trace (world st))
  /\ exists q a,
       trace (world (snd result))
       = trace (world st) ++ [Question q a; Console ConsoleWarn [VString (js "Aborting.")]].
Proof.
  intros [section Hsection] keyFile existingFiles Hd Hne Hsafe Hex Hno result.
  set (question := js "Files exist:" ++ nl ++ js "  "
                   ++ join_with (nl ++ js "  ") existingFiles
                   ++ nl ++ js "Overwrite existing files ?") in *.
  destruct (confirm_spec env question None (world st)) as (ok & Hc).
  pose proof (Hno (world st)) as Hfalse. rewrite Hc in Hfalse.
  injection Hfalse as ->.
  assert (Hkey : (match persistentRootCAKeyPath (this st) with
                  | Some (c :: path) => ret (c :: path)
                  | _ => bind (getTempDir env)
                           (fun d => ret (path_join env d (js "$certName.key")))
                  end) st = (Ret keyFile, st)).
  { subst keyFile. destruct (persistentRootCAKeyPath (this st)) as [[|c path]|];
      try reflexivity;
      unfold bind; rewrite (getTempDir_recorded env st d Hd Hne); reflexivity. }
  assert (Hlen : (0 <? length existingFiles)%nat = true)
    by (destruct existingFiles; [contradiction|reflexivity]).
  assert (Hres : result
                 = (Exit 1%Z,
                    add_events
                      [Question (question ++ js " (" ++ js "y/N" ++ js ") ")
                         (operator env (question ++ js " (" ++ js "y/N" ++ js ") "));
                       Console ConsoleWarn [VString (js "Aborting.")]] st)).
  { subst result. unfold createRootCA.
    unfold bind at 1, get_this. cbv zeta. rewrite Hsection.
    unfold bind at 1. rewrite Hkey. rewrite Hsafe.
    unfold bind at 1. unfold bind at 1, liftW at 1, get_world.
    cbn [this world keyPath certPath].
    assert (Hpath : path_join env (certDir (this st))
                      (interpolate (get section (js "commonName")) ++ js ".crt")
                    = root_cert_path env (this st))
      by (unfold root_cert_path, get2; rewrite Hsection; reflexivity).
    rewrite Hpath. fold existingFiles. rewrite Hlen.
    fold question.
    unfold bind at 1, liftW at 1. cbn [this world]. rewrite Hc.
    cbn [negb]. unfold bind, liftW, console, emit, process_exit, add_events.
    cbn [this world fs trace default]. rewrite <- app_assoc. reflexivity. }
  rewrite Hres. cbn [fst snd this world fs trace add_events].
  repeat split; try reflexivity.
  - rewrite invocations_app. cbn. apply app_nil_r.
  - eexists _, _. reflexivity.
Qed.

(** The store holds the certificate of the root CA; the operator answers
    [n]. *)
Lemma createRootCA_declined_witness :
  let env := Demo.env [] [] (js "n") in
  let st :=
    {| this := set_tempDir (js "/tmp/ws")
                 (new_CertBuilder (js "certs")
                    (new_CertOptions default_CertOptionsConfig) None false);
       world :=
         {| fs := {| files := {[js "certs/Acme Root Dev CA.crt" := js "CERT"]};
                     dirs := {[js "certs"]} |};
            trace := [] |} |} in
  fst (createRootCA env st) = Exit 1%Z
  /\ invocations (trace (world (snd (createRootCA env st)))) = [].
Proof.
  intros env st.
  destruct (createRootCA_declined env st (js "/tmp/ws")) as (H1 & _ & _ & H2 & _).
  - vm_compute. eexists. reflexivity.
  - reflexivity.
  - discriminate.
  - reflexivity.
  - vm_compute. discriminate.
  - intros w. vm_compute. reflexivity.
  - split; [exact H1|exact H2].
Defined.

(** ** [#cleanUp] *)

(** X12.  The exit handler.  It removes the recorded workspace and nothing
    else, whether or not the removal works.  It never throws.  It ends the
    process with status 1 exactly when the removal failed while the
    workspace holds the key of an ephemeral root CA, and in that case the
    report of new CAs is not printed; otherwise it returns, and prints
    the report exactly when [#newCAs] is not empty. *)
Theorem cleanUp_outcome env st :
  let result := cleanUp env st in
  fst result = (if cleanup_fatal env st then Exit 1%Z else Ret tt)
  /\ removed (events_since st (snd result))
     = match tempDir (this st) with
       | Some (c :: d) => [c :: d]
       | _ => []
       end
  /\ logged (events_since st (snd result))
     = if cleanup_fatal env st || negb (0 <? length (newCAs (this st)))%nat then []
       else [[VString (newCAs_report (newCAs (this st)))]].
Proof.
  intros result. subst result.
  destruct st as [b [f t]].
  unfold events_since, cleanup_fatal, cleanUp, builder_log, try_catch, bind, get_this,
    liftW, rmRecursive, when, console, emit, process_exit, ret.
  cbn [this world fs trace].
  destruct (tempDir b) as [[|c d]|]; cbn [this world fs trace fst snd].
  1, 3: destruct (0 <? length (newCAs b))%nat; cbn [this world fs trace fst snd orb negb];
    (split; [reflexivity|]);
    rewrite <- ?app_assoc; first [rewrite drop_app_length | rewrite drop_all];
    split; reflexivity.
  destruct (verbose_log b); cbn [this world fs trace fst snd];
    destruct (rmSync env (c :: d) f) as [e|f']; cbn [this world fs trace fst snd];
    destruct (persistentRootCAKeyPath b) as [[|c1 p]|];
    cbn [this world fs trace fst snd truthy negb andb orb];
    destruct (rootCAInfo b) as [[cp [|c2 k] pw]|];
    cbn [this world fs trace fst snd truthy negb andb orb keyPath];
    destruct (0 <? length (newCAs b))%nat;
    cbn [this world fs trace fst snd truthy negb andb orb];
    (split; [reflexivity|]);
    rewrite <- ?app_assoc; rewrite drop_app_length;
    split; reflexivity.
Qed.

(** The workspace cannot be removed and holds the key of the root CA just
    made: the exit handler ends with status 1 and the new root CA is not
    announced. *)
Example cleanUp_fatal_demo :
  let env := Demo.env [] [] [] in
  let stuck :=
    {| spawn := spawn env; operator := operator env;
       passwordPrompt := passwordPrompt env; randomHex32 := randomHex32 env;
       date_parse := date_parse env; date_now := date_now env;
       toUTCString := toUTCString env; path_join := path_join env;
       tmpdir := tmpdir env; mkdtemp_pick := mkdtemp_pick env;
       rmSync := fun _ _ => inl (Error (js "EBUSY"));
       openssl_available := true |} in
  let made := snd (createRootCA stuck Demo.builder_DE) in
  newCAs (this made) = [js "certs/Acme Root Dev CA.crt"]
  /\ fst (cleanUp stuck made) = Exit 1%Z
  /\ logged (events_since made (snd (cleanUp stuck made))) = [].
Proof. repeat split; vm_compute; reflexivity. Qed.

(** ** [CertBuilder.create] *)

(** X13.  What [create] hands out.  A builder that [create] returns is the
    instance the process goes on with; it carries the configuration it was
    asked for, no root CA and no new CA; its workspace is recorded, exists,
    and holds [shared.conf] with the rendering of the builder's shared
    configuration; the store directory exists.  The engine has not been
    run. *)
Theorem create_returns_ready_builder env dir rootCAKeyPath certOptions verbose st b :
  fst (create env dir rootCAKeyPath certOptions verbose st) = Ret b ->
  let st' := snd (create env dir rootCAKeyPath certOptions verbose st) in
  this st' = b
  /\ options b = default (new_CertOptions default_CertOptionsConfig) certOptions
  /\ certDir b = dir
  /\ sharedConfig b = make_sharedConfig (options b)
  /\ persistentRootCAKeyPath b = rootCAKeyPath
  /\ rootCAInfo b = None
  /\ newCAs b = []
  /\ (exists d,
        tempDir b = Some d /\ d <> []
        /\ d ∈ dirs (fs (world st'))
        /\ files (fs (world st')) !! path_join env d (js "shared.conf")
           = Some (render_conf (sharedConfig b)))
  /\ dir ∈ dirs (fs (world st'))
  /\ invocations (trace (world st')) = invocations (trace (world st)).
Proof.
  destruct st as [b0 [f t]].
  unfold create. cbv zeta.
  destruct (openssl_available env); cbn [negb]; [|discriminate].
  unfold getConfFile, getTempDir, writeConfFile, builder_log, bind, get_this,
    update_this, liftW, mkdirSync, mkdtemp, writeFile, when, console, emit, ret.
  cbn [this world fs trace tempDir new_CertBuilder].
  destruct rootCAKeyPath as [path|]; cbn [this world fs trace tempDir new_CertBuilder];
    destruct (mkdtemp_pick env _ _) as [e|[c cs]];
    cbn [this world fs trace tempDir new_CertBuilder set_tempDir verbose_log fst snd];
    try discriminate;
    destruct verbose;
    cbn [this world fs trace tempDir new_CertBuilder set_tempDir verbose_log fst snd
         sharedConfig options certDir persistentRootCAKeyPath rootCAInfo newCAs];
    intros [= <-];
    cbn [this world fs trace tempDir new_CertBuilder set_tempDir verbose_log fst snd
         sharedConfig options certDir persistentRootCAKeyPath rootCAInfo newCAs files dirs].
  all: repeat (split; [reflexivity|]).
  all: split; [|split; [set_solver|]].
  all: try (rewrite !invocations_app; cbn; rewrite ?app_nil_r; reflexivity).
  all: eexists; split; [reflexivity|]; split; [destruct (path_join env (tmpdir env) _); discriminate|].
  all: split; [set_solver|apply lookup_insert_eq].
Qed.

Lemma create_returns_ready_builder_witness :
  let env := Demo.env [] [] [] in
  let result := create env (js "certs") None None false Demo.builder_DE in
  exists b,
    fst result = Ret b
    /\ this (snd result) = b
    /\ tempDir b = Some (js "/tmp/local-ssl-certs-abcdef")
    /\ invocations (trace (world (snd result))) = [].
Proof.
  intros env result.
  exists (set_tempDir (js "/tmp/local-ssl-certs-abcdef")
            (new_CertBuilder (js "certs") (new_CertOptions default_CertOptionsConfig)
               None false)).
  assert (Hret : fst result
                 = Ret (set_tempDir (js "/tmp/local-ssl-certs-abcdef")
                          (new_CertBuilder (js "certs")
                             (new_CertOptions default_CertOptionsConfig) None false)))
    by (vm_compute; reflexivity).
  destruct (create_returns_ready_builder env (js "certs") None None false
              Demo.builder_DE _ Hret) as (H1 & _ & _ & _ & _ & _ & _ & _ & _ & H2).
  split; [exact Hret|]. split; [exact H1|]. split; [reflexivity|exact H2].
Defined.

(** ** [issueSslCert] *)

Lemma bind_never_returns {S A B} (m : M S A) (f : A -> M S B) s :
  (forall a s1 r, fst (f a s1) <> Ret r) ->
  forall r, fst (bind m f s) <> Ret r.
Proof.
  intros Hf r. unfold bind. destruct (m s) as [[a|e|c] s1]; cbn [fst];
    [apply Hf|discriminate|discriminate].
Qed.

(** X14.  An empty array of hostnames is never served.  [issueSslCert([])]
    passes [hostnames[0]], which is [undefined], as the name of the
    certificate, and [path.join] throws on it: the call never resolves,
    whatever the issuer.  With an issuer given it rejects at once, without
    a single engine run; without one, the lookup and the creation of the
    CAs come first. *)
Theorem issueSslCert_no_hostnames env key_settles_first issuer st :
  (forall r,
     fst (issueSslCert env key_settles_first (SslArray []) issuer st) <> Ret r)
  /\ (is_Some issuer ->
      fst (issueSslCert env key_settles_first (SslArray []) issuer st)
      = Throw path_type_error
      /\ invocations (trace (world (snd (issueSslCert env key_settles_first
                                            (SslArray []) issuer st))))
         = invocations (trace (world st))
      /\ fs (world (snd (issueSslCert env key_settles_first (SslArray []) issuer st)))
         = fs (world st)).
Proof.
  split.
  - unfold issueSslCert. cbv zeta. cbn [head].
    apply bind_never_returns. intros a s1 r.
    apply bind_never_returns. intros _ s2 r'. discriminate.
  - intros [i ->]. destruct st as [b [f t]].
    unfold issueSslCert, builder_log, bind, get_this, liftW, when, console, emit, ret.
    cbn [head issueSignedCert_any this world fs trace].
    destruct (verbose_log b); cbn [this world fs trace fst snd throw];
      (split; [reflexivity|]); (split; [|reflexivity]).
    + rewrite invocations_app. cbn. apply app_nil_r.
    + reflexivity.
Qed.

(** On a fresh store the two CAs are made first: three engine runs (the
    root, the request and the signing of the intermediate), then the
    rejection. *)
Example issueSslCert_no_hostnames_demo :
  let result :=
    issueSslCert (Demo.env [] [] []) true (SslArray []) None Demo.builder_DE in
  fst result = Throw path_type_error
  /\ length (invocations (trace (world (snd result)))) = 3%nat
  /\ newCAs (this (snd result))
     = [js "certs/Acme Root Dev CA.crt"; js "certs/Acme Intermediate Dev CA.crt"].
Proof. repeat split; vm_compute; reflexivity. Qed.

(** Where the intermediate CA is kept. *)
Lemma intermediate_name options :
  get (make_sharedConfig options) (js "req_distinguished_name")
  = Some [ (js "organizationName", org options);
           (js "commonName", org options ++ js " Intermediate Dev CA");
           (js "countryName", countryName options) ].
Proof. reflexivity. Qed.

(** Where the root CA is kept. *)
Lemma root_name options :
  get (make_sharedConfig options) (js "root_distinguished_name")
  = Some [ (js "organizationName", org options);
           (js "commonName", org options ++ js " Root Dev CA");
           (js "countryName", countryName options) ].
Proof. reflexivity. Qed.

(** X15.  An intermediate CA on disk is the default issuer.  When the key and
    the certificate of the intermediate CA can both be read from the
    store, [issueSslCert(hostnames)] is [issueSslCert(hostnames, issuer)]
    for that pair, taken without a password: same result, same events.
    Neither the root CA nor the operator is consulted. *)
Theorem issueSslCert_existing_intermediate env key_settles_first hostnames st :
  let path :=
    path_join env (certDir (this st))
      (org (options (this st)) ++ js " Intermediate Dev CA") in
  sharedConfig (this st) = make_sharedConfig (options (this st)) ->
  is_Some (files (fs (world st)) !! (path ++ js ".key")) ->
  is_Some (files (fs (world st)) !! (path ++ js ".crt")) ->
  issueSslCert env key_settles_first hostnames None st
  = issueSslCert env key_settles_first hostnames
      (Some {| certPath := path ++ js ".crt"; keyPath := path ++ js ".key";
               password := None |}) st.
Proof.
  intros path Hconf [k Hk] [c Hc].
  unfold issueSslCert. cbv zeta.
  unfold bind at 1. unfold bind at 1, get_this at 1.
  rewrite Hconf, intermediate_name.
  cbn [get]. rewrite bool_decide_eq_false_2 by discriminate.
  rewrite bool_decide_eq_true_2 by reflexivity.
  fold path.
  unfold loadCertKeyPair, bind at 1, bind at 1, liftW, get_world, read_failure.
  cbn [world fs this]. rewrite Hk, Hc. reflexivity.
Qed.

Lemma issueSslCert_existing_intermediate_witness :
  let env := Demo.env [] [] [] in
  let st :=
    {| this := this Demo.builder_DE;
       world :=
         {| fs := {| files :=
                       <[js "certs/Acme Intermediate Dev CA.key" := js "KEY"]>
                         {[js "certs/Acme Intermediate Dev CA.crt" := js "CERT"]};
                     dirs := {[js "certs"]} |};
            trace := [] |} |} in
  issueSslCert env true (SslString (js "a.test")) None st
  = issueSslCert env true (SslString (js "a.test"))
      (Some {| certPath := js "certs/Acme Intermediate Dev CA.crt";
               keyPath := js "certs/Acme Intermediate Dev CA.key";
               password := None |}) st.
Proof.
  intros env st.
  apply (issueSslCert_existing_intermediate env true (SslString (js "a.test")) st).
  - reflexivity.
  - vm_compute. eexists. reflexivity.
  - vm_compute. eexists. reflexivity.
Defined.

(** X16.  Declining the root CA stops everything.  With no intermediate CA and
    no root CA to be found (none loaded, no persistent key path), an
    operator who does not agree to [Create one now?] makes [issueSslCert]
    end the process with status 1.  Nothing has been made by then: no
    engine run, the files and the builder as they were. *)
Theorem issueSslCert_declined_root env key_settles_first hostnames st :
  let path :=
    path_join env (certDir (this st))
      (org (options (this st)) ++ js " Intermediate Dev CA") in
  sharedConfig (this st) = make_sharedConfig (options (this st)) ->
  existsSync (fs (world st)) (path ++ js ".key") = false ->
  existsSync (fs (world st)) (path ++ js ".crt") = false ->
  rootCAInfo (this st) = None ->
  truthy (persistentRootCAKeyPath (this st)) = false ->
  (forall w, fst (confirm env (js "Create one now?") (Some true) w) = Ret false) ->
  let result := issueSslCert env key_settles_first hostnames None st in
  fst result = Exit 1%Z
  /\ fs (world (snd result)) = fs (world st)
  /\ this (snd result) = this st
  /\ invocations (trace (world (snd result))) = invocations (trace (world st))
  /\ exists q a,
       events_since st (snd result)
       = [Console ConsoleLog
            [VString (js "Root CA not found at");
             VString (root_cert_path env (this st))];
          Question q a;
          Console ConsoleWarn [VString (js "Aborting.")]].
Proof.
  intros path Hconf Hk Hc Hroot Hpers Hno result.
  unfold existsSync in Hk, Hc.
  apply orb_false_iff in Hk as [Hk1 Hk2], Hc as [Hc1 Hc2].
  apply bool_decide_eq_false in Hk1, Hk2, Hc1, Hc2.
  assert (Hkf : read_failure (fs (world st)) (path ++ js ".key") = Some ENOENT).
  { unfold read_failure. destruct (files (fs (world st)) !! (path ++ js ".key")) eqn:E.
    - destruct Hk1. eexists; reflexivity.
    - rewrite bool_decide_eq_false_2 by exact Hk2. reflexivity. }
  assert (Hcf : read_failure (fs (world st)) (path ++ js ".crt") = Some ENOENT).
  { unfold read_failure. destruct (files (fs (world st)) !! (path ++ js ".crt")) eqn:E.
    - destruct Hc1. eexists; reflexivity.
    - rewrite bool_decide_eq_false_2 by exact Hc2. reflexivity. }
  set (logged_world :=
         {| fs := fs (world st);
            trace := trace (world st)
                     ++ [Console ConsoleLog
                           [VString (js "Root CA not found at");
                            VString (root_cert_path env (this st))]] |}).
  destruct (confirm_spec env (js "Create one now?") (Some true) logged_world)
    as (ok & Hconfirm).
  pose proof (Hno logged_world) as Hfalse. rewrite Hconfirm in Hfalse.
  injection Hfalse as ->.
  assert (Hres : exists q a,
             result
             = (Exit 1%Z,
                add_events
                  [Console ConsoleLog
                     [VString (js "Root CA not found at");
                      VString (root_cert_path env (this st))];
                   Question q a;
                   Console ConsoleWarn [VString (js "Aborting.")]] st)).
  { eexists _, _. subst result.
    unfold issueSslCert. cbv zeta.
    unfold bind at 1. unfold bind at 1, get_this at 1.
    rewrite Hconf, intermediate_name, root_name.
    cbn [get]. rewrite bool_decide_eq_false_2 by discriminate.
    rewrite bool_decide_eq_true_2 by reflexivity.
    fold path.
    unfold loadCertKeyPair, bind at 1, bind at 1, liftW at 1, get_world.
    cbn [world fs this]. rewrite Hkf, Hcf.
    replace (if key_settles_first then ENOENT else ENOENT) with ENOENT
      by (destruct key_settles_first; reflexivity).
    unfold ret at 1. rewrite Hroot.
    assert (Hload : loadRootCA env key_settles_first
                      {| this := this st; world := world st |}
                    = (Ret false, {| this := this st; world := world st |})).
    { unfold loadRootCA, bind, get_this. cbn [this].
      destruct (persistentRootCAKeyPath (this st)) as [[|c p]|];
        [reflexivity|discriminate Hpers|reflexivity]. }
    unfold bind at 1. unfold bind at 1. rewrite Hload. cbn [negb].
    unfold bind at 1. unfold bind at 1, liftW at 1, console at 1, emit at 1.
    cbn [this world fs trace].
    unfold bind at 1, liftW at 1. cbn [this world].
    subst logged_world. unfold root_cert_path, get2 in Hconfirm |- *.
    cbn [fs trace] in Hconfirm. rewrite Hconf in Hconfirm |- *.
    rewrite root_name in Hconfirm |- *. cbn [get] in Hconfirm |- *.
    rewrite bool_decide_eq_false_2 in Hconfirm |- * by discriminate.
    rewrite bool_decide_eq_true_2 in Hconfirm |- * by reflexivity.
    rewrite Hconfirm. cbn [negb].
    unfold bind, liftW, console, emit, process_exit, add_events.
    cbn [this world fs trace]. rewrite <- !app_assoc. reflexivity. }
  destruct Hres as (q & a & Hres). rewrite Hres.
  cbn [fst snd this world fs trace add_events].
  repeat split; try reflexivity.
  - rewrite invocations_app. cbn. apply app_nil_r.
  - exists q, a. apply events_since_app. reflexivity.
Qed.

(** A store without CAs, and an operator who answers [n]. *)
Lemma issueSslCert_declined_root_witness :
  let env := Demo.env [] [] (js "n") in
  let result := issueSslCert env true (SslString (js "a.test")) None Demo.builder_DE in
  fst result = Exit 1%Z
  /\ invocations (trace (world (snd result))) = [].
Proof.
  intros env result.
  destruct (issueSslCert_declined_root env true (SslString (js "a.test"))
              Demo.builder_DE) as (H1 & _ & _ & H2 & _).
  - reflexivity.
  - vm_compute. reflexivity.
  - vm_compute. reflexivity.
  - reflexivity.
  - reflexivity.
  - intros w. vm_compute. reflexivity.
  - split; [exact H1|exact H2].
Defined.

Lemma issueSignedCert_null_issuer_requests env name hostnames :
  obeys (fun _ => True) request_only (fun _ => True) (fun _ => True)
    (issueSignedCert_null_issuer env name hostnames).
Proof.
  unfold issueSignedCert_null_issuer.
  repeat obeys_step
    ltac:(apply obeys_bind;
          [apply obeys_getTempDir_any;
           [intros; exact I|intros ? ?; exact I|intros ?; exact I|intros ?; exact I]
          |intros ?]).
  all: try exact I.
  all: try reflexivity.
  all: try (intros; exact I).
Qed.

(** X17.  Without an issuer nothing is signed.  [issueSslCert] hands the result
    of issuing the intermediate CA on as the issuer of the SSL cert, also
    when that result is [null] because the operator declined.
    [issueSignedCert] with a [null] issuer never returns a certificate: it
    returns [null] (declined again), exits, or throws; the TypeError on
    [issuer.certPath] comes after the certificate request, so the only
    engine runs it makes are requests, never a signing. *)
Theorem issueSignedCert_without_issuer env name hostnames st :
  let result := issueSignedCert_any env (Some name) None hostnames st in
  (forall certInfo, fst result <> Ret (Some certInfo))
  /\ Forall request_only (events_since st (snd result))
  /\ (safeMode (options (this st)) = false ->
      forall r, fst result <> Ret r).
Proof.
  intros result. subst result. cbn [issueSignedCert_any].
  split; [|split].
  - intros certInfo H.
    destruct (issueSignedCert_null_issuer env name hostnames st) as [o st'] eqn:E.
    cbn [fst] in H. subst o.
    unfold issueSignedCert_null_issuer in E.
    apply bind_Ret_inv in E as (b & s1 & _ & E). cbv zeta in E.
    apply bind_Ret_inv in E as (proceed & s2 & _ & E).
    destruct proceed; cbn [negb] in E; [|discriminate].
    apply bind_Ret_inv in E as (? & s3 & _ & E).
    apply bind_Ret_inv in E as (? & s4 & _ & E).
    apply bind_Ret_inv in E as (? & s5 & _ & E).
    discriminate.
  - exact (proj1 (proj2 (obeys_run _ _ _ _ _ st
             (issueSignedCert_null_issuer_requests env name hostnames) I))).
  - intros Hsafe r H.
    destruct (issueSignedCert_null_issuer env name hostnames st) as [o st'] eqn:E.
    cbn [fst] in H. subst o.
    unfold issueSignedCert_null_issuer in E.
    unfold bind at 1, get_this at 1 in E. cbv zeta in E. rewrite Hsafe in E.
    unfold bind at 1, ret at 1 in E. cbn [negb] in E.
    apply bind_Ret_inv in E as (? & s3 & _ & E).
    apply bind_Ret_inv in E as (? & s4 & _ & E).
    apply bind_Ret_inv in E as (? & s5 & _ & E).
    discriminate.
Qed.

(** The operator presses Enter at every question.  The store holds a key
    file of the intermediate CA but not its certificate: the root CA is
    made, the overwrite of the intermediate key is declined by default, and
    the SSL cert is requested with no issuer.  The call rejects after two
    engine runs, both requests. *)
Example issueSslCert_declined_intermediate :
  let env := Demo.env [] [] [] in
  let st :=
    {| this := new_CertBuilder (js "certs")
                 (new_CertOptions default_CertOptionsConfig) None false;
       world :=
         {| fs := {| files := {[js "certs/Acme Intermediate Dev CA.key" := js "KEY"]};
                     dirs := {[js "certs"]} |};
            trace := [] |} |} in
  let result := issueSslCert env true (SslString (js "a.test")) None st in
  fst result = Throw null_issuer_error
  /\ map (fun inv => head (fst inv)) (invocations (trace (world (snd result))))
     = [Some (js "req"); Some (js "req")]
  /\ newCAs (this (snd result)) = [js "certs/Acme Root Dev CA.crt"].
Proof. repeat split; vm_compute; reflexivity. Qed.

(** ** [CertInfo.getDetails] *)

(** X18.  The details are asked for at most once.  A first call of
    [getDetails] runs the engine once, a call on an object that already
    has details runs nothing.  Every call after one that has ended returns
    without a run and changes nothing: it returns the details the earlier
    call returned; when the earlier call failed, it returns the empty
    object, so that the failure reaches the first caller only. *)
Theorem getDetails_asks_once env certInfo s :
  let first := getDetails env certInfo s in
  engine_runs (snd first)
  = engine_runs s ++ match x509 s with
                     | Some _ => []
                     | None => [details_args certInfo]
                     end
  /\ getDetails env certInfo (snd first)
     = (Ret match fst first with
            | Ret details => details
            | _ => EmptyObject
            end,
        snd first).
Proof.
  intros first. subst first. unfold getDetails, hydrate.
  destruct (x509 s) as [details|] eqn:Hx; cbn [fst snd].
  - rewrite Hx, app_nil_r. split; reflexivity.
  - destruct (spawn env (js "openssl") (details_args certInfo) None (disk s))
      as [[[[| |]|] out|e] disk'];
      cbn [fst snd x509 engine_runs default]; split; reflexivity.
Qed.

(** The engine fails on [x509]: the first call rejects, the second
    resolves with the empty object. *)
Example getDetails_after_failure :
  let env := Demo.env [js "x509"] [] [] in
  let s := {| x509 := None; disk := fs Demo.empty_world; engine_runs := [] |} in
  fst (getDetails env Demo.cert s)
  = Throw (command_failed (js "openssl") (details_args Demo.cert) (Some 1%Z))
  /\ fst (getDetails env Demo.cert (snd (getDetails env Demo.cert s)))
     = Ret EmptyObject.
Proof. split; vm_compute; reflexivity. Qed.

(** ** [splitKeyValueArgs] *)

Lemma split_equals_nonempty s : split_equals s <> [].
Proof.
  destruct s as [|c s]; cbn [split_equals]; [discriminate|].
  destruct (c =? 61); [discriminate|].
  destruct (split_equals s); discriminate.
Qed.

(** Splitting on [=] and joining with [=] gives the string back. *)
Lemma join_split_equals s : join_with (js "=") (split_equals s) = s.
Proof.
  induction s as [|c s IH]; [reflexivity|].
  cbn [split_equals]. destruct (c =? 61) eqn:Hc.
  - apply N.eqb_eq in Hc. subst c.
    pose proof (split_equals_nonempty s) as Hne.
    destruct (split_equals s) as [|seg rest]; [contradiction|].
    change (join_with (js "=") ([] :: seg :: rest))
      with (js "=" ++ join_with (js "=") (seg :: rest)).
    rewrite IH. reflexivity.
  - pose proof (split_equals_nonempty s) as Hne.
    destruct (split_equals s) as [|seg rest]; [contradiction|].
    destruct rest as [|seg' rest].
    + cbn [join_with] in *. rewrite IH. reflexivity.
    + change (join_with (js "=") ((c :: seg) :: seg' :: rest))
        with (c :: (seg ++ js "=" ++ join_with (js "=") (seg' :: rest))).
      change (join_with (js "=") (seg :: seg' :: rest))
        with (seg ++ js "=" ++ join_with (js "=") (seg' :: rest)) in IH.
      rewrite IH. reflexivity.
Qed.

Lemma split_equals_pair key value :
  61 ∉ key -> split_equals (key ++ js "=" ++ value) = key :: split_equals value.
Proof.
  induction key as [|c key IH]; intros Hno.
  - reflexivity.
  - cbn [app split_equals].
    assert (Hc : (c =? 61) = false).
    { apply N.eqb_neq. intros ->. apply Hno. left. }
    rewrite Hc, IH; [reflexivity|].
    intros Hin. apply Hno. right. exact Hin.
Qed.

(** The first segment of a split has no [=]; what follows it, joined
    again, is the rest of the string after the first [=]. *)
Lemma split_equals_first s key parts :
  split_equals s = key :: parts ->
  (61 ∉ key)
  /\ (parts = [] /\ s = key
      \/ parts <> [] /\ s = key ++ js "=" ++ join_with (js "=") parts).
Proof.
  revert key parts. induction s as [|c s IH]; intros key parts.
  - cbn [split_equals]. intros [= <- <-]. split; [apply not_elem_of_nil|].
    left. split; reflexivity.
  - cbn [split_equals]. destruct (c =? 61) eqn:Hc.
    + apply N.eqb_eq in Hc. subst c. intros [= <- <-].
      split; [apply not_elem_of_nil|]. right.
      split; [apply split_equals_nonempty|].
      rewrite join_split_equals. reflexivity.
    + apply N.eqb_neq in Hc.
      destruct (split_equals s) as [|seg rest] eqn:E.
      * destruct (split_equals_nonempty s E).
      * intros [= <- <-]. destruct (IH seg rest eq_refl) as (Hno & Hs).
        split.
        -- intros Hin. apply elem_of_cons in Hin as [Heq|Hin];
             [exact (Hc (eq_sym Heq))|exact (Hno Hin)].
        -- destruct Hs as [[-> ->]|[Hne ->]].
           ++ left. split; reflexivity.
           ++ right. split; [exact Hne|reflexivity].
Qed.

Lemma join_with_nil_inv sep parts :
  join_with sep parts <> [] -> parts <> [].
Proof. intros H ->. apply H. reflexivity. Qed.

Lemma key_in_false key obj :
  key_in key obj = false <-> obj !! key = None /\ key ∉ object_prototype_keys.
Proof.
  unfold key_in, includes. rewrite orb_false_iff, !bool_decide_eq_false.
  rewrite <- eq_None_not_Some. reflexivity.
Qed.

(** One round of the loop, on a well-formed pair. *)
Lemma splitKeyValueArgs_from_cons obj kv rest :
  well_formed_pair kv ->
  splitKeyValueArgs_from obj (encode_pair kv :: rest)
  = if key_in (fst kv) obj then inl (js "Duplicate key: " ++ fst kv)
    else splitKeyValueArgs_from (<[fst kv := snd kv]> obj) rest.
Proof.
  intros (Hk & Hno & Hv & _). destruct kv as [key value]. cbn [fst snd] in *.
  cbn [splitKeyValueArgs_from]. unfold encode_pair. cbn [fst snd].
  rewrite (split_equals_pair key value Hno), join_split_equals.
  destruct key as [|c key]; [contradiction|].
  destruct value as [|c' value]; [contradiction|]. reflexivity.
Qed.

Lemma splitKeyValueArgs_from_spec args : forall obj obj',
  splitKeyValueArgs_from obj args = inr obj'
  <-> exists kvs,
        args = map encode_pair kvs
        /\ Forall well_formed_pair kvs
        /\ NoDup (map fst kvs)
        /\ (forall kv, kv ∈ kvs -> obj !! fst kv = None)
        /\ obj' = list_to_map kvs ∪ obj.
Proof.
  induction args as [|kvPair rest IH]; intros obj obj'.
  - cbn [splitKeyValueArgs_from]. split.
    + intros [= <-]. exists []. cbn. rewrite (left_id_L ∅ (∪)).
      repeat split; try constructor. intros kv Hin. inversion Hin.
    + intros (kvs & Hargs & _ & _ & _ & ->).
      destruct kvs; [|discriminate]. cbn. rewrite (left_id_L ∅ (∪)). reflexivity.
  - split.
    + cbn [splitKeyValueArgs_from].
      destruct (split_equals kvPair) as [|key parts] eqn:Hsplit; [discriminate|].
      cbv zeta.
      destruct (split_equals_first kvPair key parts Hsplit) as (Hno & Hshape).
      destruct key as [|c key]; [discriminate|].
      destruct (join_with (js "=") parts) as [|c' value] eqn:Hjoin; [discriminate|].
      destruct (key_in (c :: key) obj) eqn:Hin; [discriminate|].
      apply key_in_false in Hin as [Hnone Hproto].
      intros Hrest. apply IH in Hrest
        as (kvs & -> & Hwf & Hnd & Hfresh & ->).
      assert (Hpair : kvPair = encode_pair (c :: key, c' :: value)).
      { destruct Hshape as [[-> _]|[_ Hs]]; [discriminate Hjoin|].
        rewrite Hs. unfold encode_pair. cbn [fst snd]. congruence. }
      exists ((c :: key, c' :: value) :: kvs).
      split; [cbn [map]; rewrite Hpair; reflexivity|].
      split; [constructor; [|exact Hwf];
              repeat split; [discriminate|exact Hno|discriminate|exact Hproto]|].
      assert (Hnotin : c :: key ∉ map fst kvs).
      { intros Hk. apply list_elem_of_fmap in Hk as (kv & Hkv & Hkvin).
        specialize (Hfresh kv Hkvin). rewrite <- Hkv in Hfresh.
        rewrite lookup_insert_eq in Hfresh. discriminate. }
      split; [cbn [map fst]; constructor; assumption|].
      split.
      * intros kv Hkv. apply elem_of_cons in Hkv as [->|Hkv]; [exact Hnone|].
        specialize (Hfresh kv Hkv).
        destruct (decide (c :: key = fst kv)) as [Heq|Hne].
        -- rewrite <- Heq, lookup_insert_eq in Hfresh. discriminate.
        -- rewrite lookup_insert_ne in Hfresh by exact Hne. exact Hfresh.
      * cbn [list_to_map foldr fst snd].
        rewrite <- insert_union_l. symmetry. apply insert_union_r.
        apply not_elem_of_list_to_map_1. exact Hnotin.
    + intros (kvs & Hargs & Hwf & Hnd & Hfresh & ->).
      destruct kvs as [|kv kvs]; [discriminate|].
      cbn [map] in Hargs. injection Hargs as -> ->.
      apply Forall_cons in Hwf as [Hkv Hwf].
      cbn [map] in Hnd. apply NoDup_cons in Hnd as [Hnotin Hnd].
      rewrite (splitKeyValueArgs_from_cons obj kv _ Hkv).
      assert (Hin : key_in (fst kv) obj = false).
      { apply key_in_false. split; [apply Hfresh; left|apply Hkv]. }
      rewrite Hin. apply IH. exists kvs.
      split; [reflexivity|]. split; [exact Hwf|]. split; [exact Hnd|].
      split.
      * intros kv' Hkv'. rewrite lookup_insert_ne.
        -- apply Hfresh. right. exact Hkv'.
        -- intros Heq. apply Hnotin. rewrite Heq.
           apply list_elem_of_fmap. exists kv'. split; [reflexivity|exact Hkv'].
      * cbn [list_to_map foldr].
        rewrite <- insert_union_l. apply insert_union_r.
        apply not_elem_of_list_to_map_1. exact Hnotin.
Qed.

(** X19.  What [splitKeyValueArgs] accepts.  The call returns an object exactly
    when the arguments are well-formed pairs [key=value] with pairwise
    different keys, and the object then maps each key to its value: the
    value is everything after the first [=], further [=] included.  In
    every other case the program ends with an error message. *)
Theorem splitKeyValueArgs_accepts_iff args obj :
  splitKeyValueArgs args = inr obj
  <-> exists kvs,
        args = map encode_pair kvs
        /\ Forall well_formed_pair kvs
        /\ NoDup (map fst kvs)
        /\ obj = list_to_map kvs.
Proof.
  unfold splitKeyValueArgs. rewrite splitKeyValueArgs_from_spec. split.
  - intros (kvs & Ha & Hwf & Hnd & _ & ->). exists kvs.
    rewrite (right_id_L ∅ (∪)). auto.
  - intros (kvs & Ha & Hwf & Hnd & ->). exists kvs.
    rewrite (right_id_L ∅ (∪)). repeat split; auto.
Qed.

(** X20.  A key that names a property of [Object.prototype] is refused as a
    duplicate, although no argument repeats a key: [key in obj] is true of
    it from the start. *)
Theorem splitKeyValueArgs_refuses_inherited_keys key value :
  key ∈ object_prototype_keys -> value <> [] ->
  splitKeyValueArgs [key ++ js "=" ++ value] = inl (js "Duplicate key: " ++ key).
Proof.
  intros Hkey Hv. unfold splitKeyValueArgs.
  assert (Hno : (61 ∉ key) /\ key <> []).
  { unfold object_prototype_keys in Hkey.
    repeat (apply elem_of_cons in Hkey as [->|Hkey];
            [split; [vm_compute; intros H; apply list_elem_of_In in H; cbn in H;
                     intuition discriminate|discriminate]|]).
    inversion Hkey. }
  destruct Hno as [Hno Hne].
  cbn [splitKeyValueArgs_from].
  rewrite (split_equals_pair key value Hno), join_split_equals.
  destruct key as [|c key]; [contradiction|].
  destruct value as [|c' value]; [contradiction|].
  unfold key_in, includes. rewrite (bool_decide_eq_true_2 _ Hkey), orb_true_r.
  reflexivity.
Qed.

Lemma splitKeyValueArgs_refuses_inherited_keys_witness :
  splitKeyValueArgs [js "toString=1"] = inl (js "Duplicate key: toString").
Proof.
  apply (splitKeyValueArgs_refuses_inherited_keys (js "toString") (js "1")).
  - vm_compute. apply list_elem_of_In. cbn. tauto.
  - discriminate.
Defined.

Example splitKeyValueArgs_demo :
  splitKeyValueArgs [js "a=b"; js "url=x=y="]
  = inr (<[js "url" := js "x=y="]> {[js "a" := js "b"]})
  /\ splitKeyValueArgs [js "a=b"; js "a=c"] = inl (js "Duplicate key: a")
  /\ splitKeyValueArgs [js "a="] = inl (js "Invalid key-value pair: a=")
  /\ splitKeyValueArgs [js "=b"] = inl (js "Invalid key-value pair: =b").
Proof. repeat split; vm_compute; reflexivity. Qed.

(** ** The commands *)

Lemma validateSslCert_never_congratulates env certInfo hostnames verbose :
  emits (fun e => e <> Console ConsoleLog
                         [VString (js "Certificate validation successful.")])
    (validateSslCert env certInfo hostnames verbose).
Proof.
  unfold validateSslCert, expiryCheck, keyIntegrityCheck, trustChainCheck,
    expirationWindow, nameCoverage, keyPairing, runOpenSSL, log.
  repeat first
    [ apply emits_bind; [|intros ?]
    | apply emits_ret
    | apply emits_throw
    | apply emits_when
    | apply emits_console
    | apply emits_spawn
    | match goal with
      | |- emits _ (if ?b then _ else _) => destruct b
      | |- emits _ (match ?x with _ => _ end) => destruct x
      | |- emits _ (let _ := _ in _) => cbv zeta
      end ].
  all: try discriminate.
  all: intros [= H]; vm_compute in H; discriminate H.
Qed.

(** X21.  The success line is the verdict.  The [validate] command prints
    [Certificate validation successful.] exactly when [validateSslCert]
    resolves, as the last thing it does; in every other case the action
    rejects with the error of the failed check and the line is not
    printed, verbose or not. *)
Theorem validate_command_prints_success_iff env crt key hostnames verbose w :
  let certInfo := {| certPath := crt; keyPath := key; password := None |} in
  let result := validate_command env crt key hostnames verbose w in
  let success := [VString (js "Certificate validation successful.")] in
  fst result = fst (validateSslCert env certInfo hostnames verbose w)
  /\ (success ∈ logged (drop (length (trace w)) (trace (snd result)))
      <-> fst result = Ret tt).
Proof.
  intros certInfo result success.
  destruct (validateSslCert_never_congratulates env certInfo hostnames verbose w)
    as ((evs & E & F) & Hx).
  assert (Hnot : success ∉ logged evs).
  { clear E. induction F as [|e evs He _ IH]; [apply not_elem_of_nil|].
    destruct e as [| ch args | | | | | |]; try exact IH.
    destruct ch; try exact IH.
    cbn. intros Hin. apply elem_of_cons in Hin as [Heq|Hin]; [|exact (IH Hin)].
    apply He. rewrite <- Heq. reflexivity. }
  subst result. unfold validate_command. fold certInfo. unfold bind.
  destruct (validateSslCert env certInfo hostnames verbose w) as [[[]|e|c] w1] eqn:Ev;
    cbn [fst snd] in *.
  - split; [reflexivity|].
    split; [reflexivity|intros _].
    unfold console, emit. cbn [snd trace]. rewrite E, <- app_assoc, drop_app_length.
    rewrite logged_app. apply elem_of_app. right. left.
  - split; [reflexivity|].
    split; [|discriminate]. rewrite E, drop_app_length. intros H. destruct (Hnot H).
  - destruct (Hx c eq_refl).
Qed.

Lemma obeys_invariant {A} (I I' : Builder -> Prop) P T X (m : M State A) :
  obeys I P T X m -> (forall b, I b <-> I' b) -> obeys I' P T X m.
Proof.
  intros Hm HI st Hst. destruct (Hm st (proj2 (HI _) Hst)) as (H1 & H2).
  split; [exact (proj1 (HI _) H1)|exact H2].
Qed.

Lemma obeys_extends {A} I P T X (m : M State A) st :
  obeys I P T X m -> I (this st) ->
  trace (world (snd (m st)))
  = trace (world st) ++ events_since st (snd (m st)).
Proof.
  intros Hm HI. destruct (Hm st HI) as (_ & (evs & E & _) & _).
  rewrite (events_since_app _ _ _ E). exact E.
Qed.

(** The question [confirm] puts, to the letter. *)
Lemma obeys_confirm_exact I P T X env question assumeTrue :
  (forall a,
     P (Question (question ++ js " ("
                  ++ (if default false assumeTrue then js "Y/n" else js "y/N")
                  ++ js ") ") a)) ->
  obeys I P T X (liftW (confirm env question assumeTrue)).
Proof.
  intros HP. apply obeys_liftW.
  - intros w. destruct (confirm_spec env question assumeTrue w) as (ok & ->).
    eexists. split; [reflexivity|]. constructor; [apply HP|constructor].
  - intros w e. destruct (confirm_spec env question assumeTrue w) as (ok & ->).
    discriminate.
  - intros w c. destruct (confirm_spec env question assumeTrue w) as (ok & ->).
    discriminate.
Qed.

Lemma issueSignedCert_null_issuer_obeys_workspace env name hostnames d :
  d <> [] ->
  obeys (fun b => tempDir b = Some d) (workspace_event env d)
    (fun _ => True) (fun c => c = 1%Z)
    (issueSignedCert_null_issuer env name hostnames).
Proof.
  intros Hne. unfold issueSignedCert_null_issuer.
  assert (Hd : forall b : Builder, tempDir b = Some d -> tempDir b = Some d)
    by (intros b H; exact H).
  repeat obeys_step ltac:(tmp_known d Hd Hne).
  all: try exact I.
  all: try reflexivity.
  all: try (intros; exact I).
  all: intros ? H; exact H.
Qed.

Lemma issueSslCert_obeys_workspace env key_settles_first hostnames issuer d :
  d <> [] ->
  obeys (fun b => tempDir b = Some d) (workspace_event env d)
    (fun _ => True) (fun c => c = 1%Z)
    (issueSslCert env key_settles_first hostnames issuer).
Proof.
  intros Hne. unfold issueSslCert. cbv zeta.
  repeat lazymatch goal with
  | |- obeys _ _ _ _ (loadCertKeyPair _ _ _) => apply loadCertKeyPair_obeys
  | |- obeys _ _ _ _ (loadRootCA _ _) =>
      unfold loadRootCA
  | |- obeys _ _ _ _ (createRootCA _) =>
      eapply obeys_weaken;
      [eapply obeys_invariant;
       [apply (createRootCA_obeys_workspace env d false Hne)
       |intros ?; split; [intros [H _]; exact H|intros H; split; [exact H|discriminate]]]
      |intros ? H; exact H|intros; exact I|intros ? H; exact H]
  | |- obeys _ _ _ _ (issueSignedCert_any _ ?name ?issuer _) =>
      destruct name; [destruct issuer|]; cbn [issueSignedCert_any];
      [eapply obeys_weaken;
       [apply (issueSignedCert_obeys_workspace env _ _ _ d Hne)
       |intros ? H; exact H|intros; exact I|intros ? H; exact H]
      |apply (issueSignedCert_null_issuer_obeys_workspace env _ _ d Hne)
      |apply obeys_throw; exact I]
  | |- _ => obeys_step idtac
  end.
  all: try exact I.
  all: try reflexivity.
  all: try (intros; exact I).
  all: try (intros ? H; exact H).
Qed.

Lemma issueSslCert_obeys_offers env key_settles_first hostnames issuer b0 :
  safeMode (options b0) = false ->
  obeys (evolved_from b0) (offers_to_create (persistentRootCAKeyPath b0))
    (fun _ => True) (fun c => c = 1%Z)
    (issueSslCert env key_settles_first hostnames issuer).
Proof.
  intros Hsafe.
  assert (Hw : forall persistent e,
            (persistent = true -> truthy (persistentRootCAKeyPath b0) = true) ->
            issuing_event (safeMode (options b0)) persistent e ->
            offers_to_create (persistentRootCAKeyPath b0) e).
  { rewrite Hsafe. intros persistent [] Hp H; cbn in *; auto; try discriminate.
    destruct H as (H1 & H2 & H3). auto. }
  unfold issueSslCert. cbv zeta.
  repeat lazymatch goal with
  | |- obeys _ _ _ _ (loadCertKeyPair _ _ _) => apply loadCertKeyPair_obeys
  | |- obeys _ _ _ _ (loadRootCA _ _) => apply loadRootCA_obeys
  | |- obeys _ _ _ _ (createRootCA _) =>
      eapply obeys_weaken;
      [apply createRootCA_obeys_any
      |intros ?; apply Hw; intros H; exact H
      |intros; exact I|intros ? H; exact H]
  | |- obeys _ _ _ _ (issueSignedCert_any _ _ _ _) =>
      eapply obeys_weaken;
      [apply issueSignedCert_any_obeys
      |intros ?; apply Hw; discriminate
      |intros; exact I|intros ? H; exact H]
  | |- obeys _ _ _ _ (liftW (confirm _ _ _)) => apply obeys_confirm_exact
  | |- _ => obeys_step idtac
  end.
  all: try exact I.
  all: try reflexivity.
  all: try (intros; exact I).
  all: try (intros; assumption).
  all: intros ?; cbn; auto.
Qed.

Lemma removed_app (t1 t2 : list Event) :
  removed (t1 ++ t2) = removed t1 ++ removed t2.
Proof. unfold removed. apply omap_app. Qed.

(** What [create] has done when it ends. *)
Lemma create_run env dir rootCAKeyPath certOptions verbose st :
  let result := create env dir rootCAKeyPath certOptions verbose st in
  let evs := events_since st (snd result) in
  trace (world (snd result)) = trace (world st) ++ evs
  /\ removed evs = []
  /\ Forall asks_nothing evs
  /\ match fst result with
     | Ret b =>
         this (snd result) = b
         /\ options b = default (new_CertOptions default_CertOptionsConfig) certOptions
         /\ newCAs b = []
         /\ exists d, tempDir b = Some d /\ d <> [] /\ made_dirs evs = [d]
     | Throw _ =>
         made_dirs evs = []
         /\ (openssl_available env = true ->
             tempDir (this (snd result)) = None /\ newCAs (this (snd result)) = [])
     | Exit _ => False
     end.
Proof.
  intros result evs. subst evs result. destruct st as [b0 [f t]].
  unfold events_since, create. cbv zeta.
  destruct (openssl_available env); cbn [negb].
  2: { cbn [throw fst snd world trace]. rewrite drop_all, app_nil_r.
       repeat split; try constructor; discriminate. }
  unfold getConfFile, getTempDir, writeConfFile, builder_log, bind, get_this,
    update_this, liftW, mkdirSync, mkdtemp, writeFile, when, console, emit, ret.
  cbn [this world fs trace tempDir new_CertBuilder].
  destruct rootCAKeyPath as [path|]; cbn [this world fs trace tempDir new_CertBuilder];
    destruct (mkdtemp_pick env _ _) as [e|[c cs]];
    cbn [this world fs trace tempDir new_CertBuilder set_tempDir verbose_log fst snd];
    try destruct verbose;
    cbn [this world fs trace tempDir new_CertBuilder set_tempDir verbose_log fst snd
         sharedConfig options certDir persistentRootCAKeyPath rootCAInfo newCAs];
    rewrite <- ?app_assoc; rewrite drop_app_length;
    (split; [reflexivity|]); (split; [reflexivity|]);
    (split; [repeat constructor; discriminate|]).
  all: try (split; [reflexivity|intros _; split; reflexivity]).
  all: repeat (split; [reflexivity|]).
  all: eexists; split; [reflexivity|];
    split; [destruct (path_join env (tmpdir env) _); discriminate|reflexivity].
Qed.

(** What the exit handler does to the outside. *)
Lemma cleanUp_events env st :
  let evs := events_since st (snd (cleanUp env st)) in
  trace (world (snd (cleanUp env st))) = trace (world st) ++ evs
  /\ removed evs = match tempDir (this st) with
                   | Some (c :: d) => [c :: d]
                   | _ => []
                   end
  /\ made_dirs evs = []
  /\ Forall asks_nothing evs
  /\ logged evs
     = (if cleanup_fatal env st || negb (0 <? length (newCAs (this st)))%nat then []
        else [[VString (newCAs_report (newCAs (this st)))]]).
Proof.
  intros evs. subst evs. destruct st as [b [f t]].
  unfold events_since, cleanup_fatal, cleanUp, builder_log, try_catch, bind, get_this,
    liftW, rmRecursive, when, console, emit, process_exit, ret.
  cbn [this world fs trace].
  destruct (tempDir b) as [[|c d]|]; cbn [this world fs trace fst snd].
  1, 3: destruct (newCAs b);
    cbn [length Nat.ltb Nat.leb this world fs trace fst snd orb negb];
    rewrite <- ?app_assoc; first [rewrite drop_app_length | rewrite drop_all, app_nil_r];
    repeat split; try reflexivity; try discriminate; repeat constructor; discriminate.
  destruct (verbose_log b); cbn [this world fs trace fst snd];
    destruct (rmSync env (c :: d) f) as [e|f']; cbn [this world fs trace fst snd];
    destruct (persistentRootCAKeyPath b) as [[|c1 p]|];
    cbn [this world fs trace fst snd truthy negb andb orb];
    destruct (rootCAInfo b) as [[cp [|c2 k] pw]|];
    cbn [this world fs trace fst snd truthy negb andb orb keyPath];
    destruct (newCAs b);
    cbn [length Nat.ltb Nat.leb this world fs trace fst snd truthy negb andb orb];
    rewrite <- ?app_assoc; rewrite drop_app_length;
    repeat split; try reflexivity; try discriminate; repeat constructor; discriminate.
Qed.

Lemma made_dirs_workspace env d evs :
  Forall (workspace_event env d) evs -> made_dirs evs = [] /\ removed evs = [].
Proof.
  induction 1 as [|e evs He _ [IH1 IH2]]; [split; reflexivity|].
  destruct e; cbn in *; try contradiction; split; assumption.
Qed.

Lemma no_question_offers root evs :
  Forall asks_nothing evs -> Forall (offers_to_create root) evs.
Proof.
  intros F. eapply Forall_impl; [exact F|].
  intros [] H; cbn in *; auto; contradiction.
Qed.

(** The builder [create] returns keeps the key path it was given. *)
Lemma create_persistentRootCAKeyPath env dir rootCAKeyPath certOptions verbose st b :
  fst (create env dir rootCAKeyPath certOptions verbose st) = Ret b ->
  persistentRootCAKeyPath b = rootCAKeyPath.
Proof.
  destruct st as [b0 [f t]]. unfold create. cbv zeta.
  destruct (openssl_available env); cbn [negb]; [|discriminate].
  unfold getConfFile, getTempDir, writeConfFile, builder_log, bind, get_this,
    update_this, liftW, mkdirSync, mkdtemp, writeFile, when, console, emit, ret.
  cbn [this world fs trace tempDir new_CertBuilder].
  destruct rootCAKeyPath as [path|]; cbn [this world fs trace tempDir new_CertBuilder];
    destruct (mkdtemp_pick env _ _) as [e|[c cs]];
    cbn [this world fs trace tempDir new_CertBuilder set_tempDir verbose_log fst snd];
    try destruct verbose;
    cbn [this world fs trace tempDir new_CertBuilder set_tempDir verbose_log fst snd
         sharedConfig options certDir persistentRootCAKeyPath rootCAInfo newCAs];
    try discriminate; intros [= <-]; reflexivity.
Qed.

(** The events of the [issue] process: those of [create], of
    [issueSslCert] when the builder was made, and of the exit handler
    when it was registered. *)
Lemma issue_process_events env key_settles_first directory hostnames name root verbose
    yes st :
  let certOptions :=
    Some (new_CertOptions
            {| cfg_org := Some (default (js "Acme") name);
               cfg_countryName := None; cfg_keyType := None;
               cfg_keyCipher := None; cfg_safeMode := Some (negb yes) |}) in
  let made := snd (create env directory root certOptions verbose st) in
  let issued :=
    match fst (create env directory root certOptions verbose st) with
    | Ret _ => snd (issueSslCert env key_settles_first (SslArray hostnames) None made)
    | _ => made
    end in
  let final := snd (issue_process env key_settles_first directory hostnames name root
                      verbose yes st) in
  final = (if openssl_available env then snd (cleanUp env issued) else issued).
Proof.
  intros certOptions made issued final. subst final issued made.
  unfold issue_process, run_process, issue_command. fold certOptions. unfold bind.
  destruct (create env directory root certOptions verbose st) as [[b|e|c] st1];
    cbn [fst snd].
  - destruct (issueSslCert env key_settles_first (SslArray hostnames) None st1);
      destruct (openssl_available env); reflexivity.
  - destruct (openssl_available env); reflexivity.
  - destruct (openssl_available env); reflexivity.
Qed.

(** X22.  The workspace does not outlive the process.  Over a whole run
    of the [issue] command, what [fs.rmSync] is called on is exactly what
    [mkdtemp] made: the workspace when it came to be made, and nothing when
    the command failed before that.  No method makes a second workspace. *)
Theorem issue_process_removes_its_workspace env key_settles_first directory
    hostnames name root verbose yes st :
  let final := snd (issue_process env key_settles_first directory hostnames name root
                      verbose yes st) in
  removed (events_since st final) = made_dirs (events_since st final)
  /\ (length (made_dirs (events_since st final)) <= 1)%nat.
Proof.
  intros final. subst final.
  rewrite issue_process_events.
  pose proof (create_run env directory root
                (Some (new_CertOptions
                         {| cfg_org := Some (default (js "Acme") name);
                            cfg_countryName := None; cfg_keyType := None;
                            cfg_keyCipher := None; cfg_safeMode := Some (negb yes) |}))
                verbose st) as Hc.
  cbv zeta in Hc. destruct Hc as (E1 & R1 & _ & Hc).
  set (st1 := snd (create env directory root _ verbose st)) in *.
  destruct (fst (create env directory root _ verbose st)) as [b|e|c] eqn:Ho.
  - destruct Hc as (Hthis & _ & _ & d & Hd & Hne & M1).
    assert (HI : tempDir (this st1) = Some d) by (rewrite Hthis; exact Hd).
    pose proof (obeys_run _ _ _ _ _ st1
                  (issueSslCert_obeys_workspace env key_settles_first
                     (SslArray hostnames) None d Hne) HI) as (HI2 & F2 & _).
    pose proof (obeys_extends _ _ _ _ _ st1
                  (issueSslCert_obeys_workspace env key_settles_first
                     (SslArray hostnames) None d Hne) HI) as E2.
    set (st2 := snd (issueSslCert env key_settles_first (SslArray hostnames) None st1))
      in *.
    destruct (made_dirs_workspace env d _ F2) as [M2 R2].
    assert (Hev12 : events_since st st2
                    = events_since st st1 ++ events_since st1 st2).
    { apply events_since_app. rewrite E2, E1, app_assoc. reflexivity. }
    assert (Hopen : openssl_available env = true).
    { destruct (openssl_available env) eqn:Ha; [reflexivity|].
      unfold create in Ho. rewrite Ha in Ho. discriminate. }
    rewrite Hopen.
    destruct (cleanUp_events env st2) as (E3 & R3 & M3 & _).
    rewrite (events_since_app st _ (events_since st st1 ++ events_since st1 st2
                                    ++ events_since st2 (snd (cleanUp env st2)))).
    2: { rewrite E3, E2, E1, <- !app_assoc. reflexivity. }
    rewrite !removed_app, !made_dirs_app, R1, R2, R3, M1, M2, M3, HI2.
    destruct d as [|c d]; [contradiction|]. split; [reflexivity|cbn; lia].
  - destruct Hc as (M1 & Hfresh).
    destruct (openssl_available env) eqn:Ha.
    + destruct (Hfresh eq_refl) as [Htd _].
      destruct (cleanUp_events env st1) as (E3 & R3 & M3 & _).
      rewrite (events_since_app st _ (events_since st st1
                                      ++ events_since st1 (snd (cleanUp env st1)))).
      2: { rewrite E3, E1, <- !app_assoc. reflexivity. }
      rewrite !removed_app, !made_dirs_app, R1, R3, M1, M3, Htd.
      split; [reflexivity|cbn; lia].
    + rewrite R1, M1. split; [reflexivity|cbn; lia].
  - destruct Hc.
Qed.

(** X23.  With [--yes] the operator is only offered to create a missing CA,
    and asked for the password of a root CA kept under [--root].  Over a
    whole run of [issue --yes], every question put is one of the two
    offers of [issueSslCert]; a prompt to overwrite a file never appears.
    A password is prompted for only when [--root] gave a path for the key
    of the root CA, and then with the prompts of [createRootCA]; without
    [--root] the run holds no password prompt. *)
Theorem issue_yes_only_offers_to_create env key_settles_first directory hostnames
    name root verbose st :
  Forall (offers_to_create root)
    (events_since st
       (snd (issue_process env key_settles_first directory hostnames name root
               verbose true st))).
Proof.
  rewrite issue_process_events.
  pose proof (create_run env directory root
                (Some (new_CertOptions
                         {| cfg_org := Some (default (js "Acme") name);
                            cfg_countryName := None; cfg_keyType := None;
                            cfg_keyCipher := None; cfg_safeMode := Some (negb true) |}))
                verbose st) as Hc.
  cbv zeta in Hc. destruct Hc as (E1 & _ & Q1 & Hc).
  set (st1 := snd (create env directory root _ verbose st)) in *.
  apply (no_question_offers root) in Q1.
  destruct (fst (create env directory root _ verbose st)) as [b|e|c] eqn:Ho.
  - destruct Hc as (Hthis & Hopts & _).
    assert (Hsafe : safeMode (options (this st1)) = false)
      by (rewrite Hthis, Hopts; reflexivity).
    assert (Hroot : persistentRootCAKeyPath (this st1) = root)
      by (rewrite Hthis; exact (create_persistentRootCAKeyPath _ _ _ _ _ _ _ Ho)).
    pose proof (obeys_run _ _ _ _ _ st1
                  (issueSslCert_obeys_offers env key_settles_first
                     (SslArray hostnames) None (this st1) Hsafe)
                  (evolved_from_refl _)) as (_ & F2 & _).
    pose proof (obeys_extends _ _ _ _ _ st1
                  (issueSslCert_obeys_offers env key_settles_first
                     (SslArray hostnames) None (this st1) Hsafe)
                  (evolved_from_refl _)) as E2.
    set (st2 := snd (issueSslCert env key_settles_first (SslArray hostnames) None st1))
      in *.
    rewrite Hroot in F2.
    destruct (openssl_available env).
    + destruct (cleanUp_events env st2) as (E3 & _ & _ & Q3 & _).
      apply (no_question_offers root) in Q3.
      rewrite (events_since_app st _ (events_since st st1 ++ events_since st1 st2
                                      ++ events_since st2 (snd (cleanUp env st2)))).
      2: { rewrite E3, E2, E1, <- !app_assoc. reflexivity. }
      apply Forall_app. split; [exact Q1|]. apply Forall_app. split; assumption.
    + rewrite (events_since_app st _ (events_since st st1 ++ events_since st1 st2)).
      2: { rewrite E2, E1, <- !app_assoc. reflexivity. }
      apply Forall_app. split; assumption.
  - destruct (openssl_available env).
    + destruct (cleanUp_events env st1) as (E3 & _ & _ & Q3 & _).
      apply (no_question_offers root) in Q3.
      rewrite (events_since_app st _ (events_since st st1
                                      ++ events_since st1 (snd (cleanUp env st1)))).
      2: { rewrite E3, E1, <- !app_assoc. reflexivity. }
      apply Forall_app. split; assumption.
    + exact Q1.
  - destruct Hc.
Qed.

(** X24.  A root CA is announced at exit exactly when it was made.  In a
    process that starts with no new CA and runs [createRootCA], the exit
    handler prints the report, naming the certificate of the root CA and
    nothing else, when [createRootCA] returned and the workspace could be
    cleaned up; when [createRootCA] did not return, the handler prints no
    report. *)
Theorem createRootCA_announced_iff_made env st :
  newCAs (this st) = [] ->
  let made := snd (createRootCA env st) in
  let final := snd (run_process env (createRootCA env) st) in
  fst (run_process env (createRootCA env) st) = fst (createRootCA env st)
  /\ logged (events_since made final)
     = match fst (createRootCA env st) with
       | Ret _ =>
           if cleanup_fatal env made then []
           else [[VString (newCAs_report [root_cert_path env (this st)])]]
       | _ => []
       end.
Proof.
  intros Hnew made final. subst made final. unfold run_process.
  pose proof (createRootCA_registers env (this st) st
                (conj eq_refl (conj eq_refl (conj eq_refl eq_refl)))) as H.
  destruct (createRootCA env st) as [o st1]. cbn [fst snd] in *.
  split; [reflexivity|].
  destruct (cleanUp_events env st1) as (_ & _ & _ & _ & L). cbv zeta in L.
  rewrite L.
  destruct o as [[]|e|c].
  - destruct H as (info & _ & Hpath & _ & Hn). rewrite Hn, Hnew, Hpath.
    cbn [app length Nat.ltb Nat.leb negb]. rewrite orb_false_r. reflexivity.
  - destruct H as (_ & Hn & _). rewrite Hn, Hnew. cbn. rewrite orb_true_r. reflexivity.
  - destruct H as (_ & Hn & _). rewrite Hn, Hnew. cbn. rewrite orb_true_r. reflexivity.
Qed.

Lemma createRootCA_announced_iff_made_witness :
  logged (events_since
            (snd (createRootCA (Demo.env [js "req"] [] []) Demo.builder_DE))
            (snd (run_process (Demo.env [js "req"] [] [])
                    (createRootCA (Demo.env [js "req"] [] [])) Demo.builder_DE)))
  = [].
Proof.
  exact (proj2 (createRootCA_announced_iff_made (Demo.env [js "req"] [] [])
                  Demo.builder_DE eq_refl)).
Defined.

(** ** [CertOptions] and the loaders *)


(** X26.  A root CA loaded from disk comes without its password.  With a
    persistent key path and a configuration that has the section
    [root_distinguished_name], [#loadRootCA] resolves to [true] exactly
    when the key file and the certificate of the root CA can both be read;
    it then records the pair with no password.  When it resolves to
    [false] no root CA is recorded.  The world is only read. *)
Theorem loadRootCA_loads_without_password env key_settles_first st p :
  persistentRootCAKeyPath (this st) = Some p -> p <> [] ->
  is_Some (get (sharedConfig (this st)) (js "root_distinguished_name")) ->
  let result := loadRootCA env key_settles_first st in
  world (snd result) = world st
  /\ (fst result = Ret true
      <-> is_Some (files (fs (world st)) !! p)
          /\ is_Some (files (fs (world st)) !! root_cert_path env (this st)))
  /\ (fst result = Ret true ->
      rootCAInfo (this (snd result))
      = Some {| certPath := root_cert_path env (this st); keyPath := p;
                password := None |})
  /\ (fst result = Ret false -> rootCAInfo (this (snd result)) = None).
Proof.
  intros Hp Hne [section Hsection] result. subst result.
  set (pair := {| certPath := root_cert_path env (this st); keyPath := p;
                  password := None |}).
  assert (Hload :
            exists o,
              loadCertKeyPair key_settles_first p (root_cert_path env (this st)) st
              = (o, st)
              /\ (o = Ret (Some pair)
                  <-> is_Some (files (fs (world st)) !! p)
                      /\ is_Some (files (fs (world st))
                                     !! root_cert_path env (this st)))
              /\ (o = Ret (Some pair) \/ o = Ret None \/ exists e, o = Throw e)).
  { unfold loadCertKeyPair, bind, liftW, get_world, read_failure.
    destruct st as [b w]. cbn [this world].
    destruct (files (fs w) !! p) as [k|];
      destruct (files (fs w) !! root_cert_path env b) as [crt|].
    - eexists. split; [reflexivity|]. split; [|left; reflexivity].
      split; [intros _; split; eexists; reflexivity|reflexivity].
    - destruct (bool_decide _); eexists; (split; [reflexivity|]);
        (split; [split; [discriminate|intros [_ [? H]]; discriminate H]|]);
        right; [right; eexists|left]; reflexivity.
    - destruct (bool_decide _); eexists; (split; [reflexivity|]);
        (split; [split; [discriminate|intros [[? H] _]; discriminate H]|]);
        right; [right; eexists|left]; reflexivity.
    - destruct (bool_decide _), (bool_decide _), key_settles_first;
        eexists; (split; [reflexivity|]);
        (split; [split; [discriminate|intros [[? H] _]; discriminate H]|]);
        right; first [left; reflexivity | right; eexists; reflexivity]. }
  destruct Hload as (o & Hrun & Hiff & Hcases).
  assert (Hrun' :
            loadRootCA env key_settles_first st
            = match o with
              | Ret loaded =>
                  (Ret (bool_decide (is_Some loaded)),
                   {| this := assign_rootCAInfo loaded (this st); world := world st |})
              | Throw e => (Throw e, st)
              | Exit c => (Exit c, st)
              end).
  { unfold loadRootCA, bind at 1, get_this at 1. rewrite Hp.
    destruct p as [|c p]; [contradiction|]. rewrite Hsection.
    assert (Hpath : path_join env (certDir (this st))
                      (interpolate (get section (js "commonName")) ++ js ".crt")
                    = root_cert_path env (this st))
      by (unfold root_cert_path, get2; rewrite Hsection; reflexivity).
    rewrite Hpath. unfold bind at 1. rewrite Hrun.
    destruct o; reflexivity. }
  rewrite Hrun'. clear Hrun'.
  destruct Hcases as [->|[->|[e ->]]]; cbn [fst snd this world rootCAInfo assign_rootCAInfo].
  - split; [reflexivity|]. split; [|split; [reflexivity|discriminate]].
    split; [intros _; apply Hiff; reflexivity|reflexivity].
  - split; [reflexivity|]. split; [|split; [discriminate|reflexivity]].
    split; [discriminate|intros H; apply Hiff in H; discriminate H].
  - split; [reflexivity|]. split; [|split; discriminate].
    split; [discriminate|intros H; apply Hiff in H; discriminate H].
Qed.

Lemma loadRootCA_loads_without_password_witness :
  let st :=
    {| this := new_CertBuilder (js "certs")
                 (new_CertOptions default_CertOptionsConfig)
                 (Some (js "keys/root.key")) false;
       world :=
         {| fs := {| files := <[js "keys/root.key" := js "KEY"]>
                                {[js "certs/Acme Root Dev CA.crt" := js "CERT"]};
                     dirs := {[js "certs"]} |};
            trace := [] |} |} in
  rootCAInfo (this (snd (loadRootCA (Demo.env [] [] []) true st)))
  = Some {| certPath := js "certs/Acme Root Dev CA.crt";
            keyPath := js "keys/root.key"; password := None |}.
Proof.
  intros st.
  destruct (loadRootCA_loads_without_password (Demo.env [] [] []) true st
              (js "keys/root.key") eq_refl) as (_ & _ & H & _).
  - discriminate.
  - vm_compute. eexists. reflexivity.
  - apply H. vm_compute. reflexivity.
Defined.

(** ** The extension file of an SSL cert *)

Lemma ssl_extensions_config_standard b subjAltName :
  sharedConfig b = make_sharedConfig (options b) ->
  ssl_extensions_config b subjAltName
  = [ (js "cert_extensions",
        [ (js "basicConstraints", js "critical,CA:FALSE");
          (js "keyUsage", js "critical,digitalSignature,keyEncipherment");
          (js "extendedKeyUsage", js "serverAuth,clientAuth");
          (js "subjectKeyIdentifier", js "hash");
          (js "subjectAltName", join_with (js ",") subjAltName);
          (js "authorityKeyIdentifier", js "keyid:always") ]) ].
Proof.
  intros H. unfold ssl_extensions_config. rewrite H. reflexivity.
Qed.

Lemma obeys_bind_ret {A B} I P T X (a : A) (f : A -> M State B) :
  obeys I P T X (f a) -> obeys I P T X (bind (ret a) f).
Proof. intros H. exact H. Qed.

Lemma obeys_bind_then_ret {A B C} I P T X (m : M State A) (b : B)
    (f : B -> M State C) :
  obeys I P T X m -> obeys I P T X (f b) ->
  obeys I P T X (bind (bind m (fun _ => ret b)) f).
Proof.
  intros Hm Hf st HI. unfold bind, ret.
  destruct (Hm st HI) as (HI1 & (evs1 & E1 & F1) & HT1 & HX1).
  destruct (m st) as [[a|e|c] st1]; cbn [fst snd] in *.
  - destruct (Hf st1 HI1) as (HI2 & (evs2 & E2 & F2) & HT2 & HX2).
    split; [exact HI2|]. split; [|split; [exact HT2|exact HX2]].
    exists (evs1 ++ evs2). rewrite E2, E1, app_assoc. split; [reflexivity|].
    apply Forall_app. split; assumption.
  - split; [exact HI1|]. split; [eauto|].
    split; [intros e' [= <-]; exact (HT1 e eq_refl)|discriminate].
  - split; [exact HI1|]. split; [eauto|].
    split; [discriminate|intros c' [= <-]; exact (HX1 c eq_refl)].
Qed.

Lemma issueSignedCert_obeys_ssl env name issuer hostnames d o0 :
  d <> [] -> has_hostnames hostnames = true ->
  obeys (fun b => tempDir b = Some d /\ options b = o0
                  /\ sharedConfig b = make_sharedConfig o0)
    (ssl_issuing_event env d (hostname_array hostnames))
    (fun _ => False) (fun c => c = 1%Z)
    (issueSignedCert env name issuer hostnames).
Proof.
  intros Hne Hh. unfold issueSignedCert. rewrite Hh.
  assert (Hd : forall b : Builder,
             tempDir b = Some d /\ options b = o0
             /\ sharedConfig b = make_sharedConfig o0 ->
             tempDir b = Some d)
    by (intros b H; exact (proj1 H)).
  repeat lazymatch goal with
  | |- obeys _ _ _ _ (bind (ret _) _) => apply obeys_bind_ret; cbv beta iota
  | |- obeys _ _ _ _ (bind (bind _ (fun _ => ret _)) _) =>
      apply obeys_bind_then_ret
  | |- _ => obeys_step ltac:(tmp_known d Hd Hne)
  end.
  all: try exact I.
  all: try (intros; exact I).
  all: try reflexivity.
  all: try (split; [reflexivity|left; reflexivity]).
  all: try (split; [reflexivity|];
            destruct Hb as (_ & Ho & Hs); rewrite <- Ho in Hs;
            rewrite (ssl_extensions_config_standard b _ Hs); reflexivity).
  all: split; [reflexivity|right; split; [reflexivity|]].
  all: unfold sign_args.
  all: exists [js "x509"; js "-req"; js "-in"; path_join env d (js "req.csr");
               js "-CA"; certPath issuer; js "-CAkey"; keyPath issuer;
               js "-CAserial"; path_join env d (js "ca.srl"); js "-CAcreateserial"].
  all: eexists; split; [reflexivity|].
  all: eexists _, _; reflexivity.
Qed.

(** X27.  The extension file of an SSL cert.  For a builder with the
    standard shared configuration and its workspace [d] recorded, issuing a
    certificate for hostnames writes one kind of file only,
    [ssl_extensions.conf] in [d], and what it writes there is the section
    [cert_extensions] of a certificate that is no CA ([CA:FALSE], no name
    constraints) whose alternative names are the requested hostnames, in
    the order given.  Every signing run takes its extensions from that
    file and that section. *)
Theorem ssl_cert_extension_file env name issuer hostnames st d :
  sharedConfig (this st) = make_sharedConfig (options (this st)) ->
  tempDir (this st) = Some d -> d <> [] ->
  has_hostnames hostnames = true ->
  Forall (ssl_issuing_event env d (hostname_array hostnames))
    (events_since st (snd (issueSignedCert env name issuer hostnames st))).
Proof.
  intros Hs Hd Hne Hh.
  exact (proj1 (proj2 (obeys_run _ _ _ _ _ st
           (issueSignedCert_obeys_ssl env name issuer hostnames d _ Hne Hh)
           (conj Hd (conj eq_refl Hs))))).
Qed.

Lemma ssl_cert_extension_file_witness :
  Forall (ssl_issuing_event (Demo.env [] [] []) (js "/tmp/ws") [js "a.test"; js "b.test"])
    (events_since
       {| this := set_tempDir (js "/tmp/ws") (this Demo.builder_DE);
          world := Demo.empty_world |}
       (snd (issueSignedCert (Demo.env [] [] []) (js "a.test") Demo.root
               (HostsArray [js "a.test"; js "b.test"])
               {| this := set_tempDir (js "/tmp/ws") (this Demo.builder_DE);
                  world := Demo.empty_world |}))).
Proof.
  apply (ssl_cert_extension_file (Demo.env [] [] []) (js "a.test") Demo.root
           (HostsArray [js "a.test"; js "b.test"])
           {| this := set_tempDir (js "/tmp/ws") (this Demo.builder_DE);
              world := Demo.empty_world |} (js "/tmp/ws")).
  - reflexivity.
  - reflexivity.
  - discriminate.
  - reflexivity.
Defined.

(** What is written for [a.test] and [b.test]. *)
Example ssl_cert_extension_file_text :
  render_conf (ssl_extensions_for [js "a.test"; js "b.test"])
  = js "[cert_extensions]" ++ nl
    ++ js "basicConstraints = critical,CA:FALSE" ++ nl
    ++ js "keyUsage = critical,digitalSignature,keyEncipherment" ++ nl
    ++ js "extendedKeyUsage = serverAuth,clientAuth" ++ nl
    ++ js "subjectKeyIdentifier = hash" ++ nl
    ++ js "subjectAltName = DNS:a.test,DNS:b.test" ++ nl
    ++ js "authorityKeyIdentifier = keyid:always" ++ nl.
Proof. vm_compute. reflexivity. Qed.


(** ** The key of an ephemeral root CA *)

Lemma obeys_bind_getTempDir_then_ret I P T X env d {B C} (g : jsstring -> B)
    (k : B -> M State C) :
  (forall b, I b -> tempDir b = Some d) -> d <> [] ->
  obeys I P T X (k (g d)) ->
  obeys I P T X (bind (bind (getTempDir env) (fun d' => ret (g d'))) k).
Proof.
  intros Hd Hne Hk st HI.
  assert (E : bind (bind (getTempDir env) (fun d' => ret (g d'))) k st = k (g d) st).
  { unfold bind. rewrite (getTempDir_recorded env st d (Hd _ HI) Hne). reflexivity. }
  rewrite E. exact (Hk st HI).
Qed.

Lemma createRootCA_obeys_ephemeral env d :
  d <> [] ->
  obeys (fun b => tempDir b = Some d /\ truthy (persistentRootCAKeyPath b) = false)
    (ephemeral_root_event env d) (fun e => e = undefined_section_error)
    (fun c => c = 1%Z) (createRootCA env).
Proof.
  intros Hne. unfold createRootCA.
  assert (Hd : forall b : Builder,
             tempDir b = Some d /\ truthy (persistentRootCAKeyPath b) = false ->
             tempDir b = Some d)
    by (intros b H; exact (proj1 H)).
  apply obeys_read. intros b Hb. cbv zeta.
  destruct (get (sharedConfig b) (js "root_distinguished_name"))
    as [root_distinguished_name|]; [|apply obeys_throw; reflexivity].
  destruct Hb as [Hb1 Hb2].
  assert (Hcases : persistentRootCAKeyPath b = None
                   \/ persistentRootCAKeyPath b = Some []).
  { destruct (persistentRootCAKeyPath b) as [[|c p]|]; auto. discriminate Hb2. }
  destruct Hcases as [E|E]; rewrite E; cbn [truthy];
    (apply (obeys_bind_getTempDir_then_ret _ _ _ _ env d _ _ Hd Hne));
    repeat lazymatch goal with
    | |- obeys _ _ _ _ (bind (ret _) _) => apply obeys_bind_ret; cbv beta iota
    | |- _ => obeys_step ltac:(tmp_known d Hd Hne)
    end.
  all: try exact I.
  all: try (intros; exact I).
  all: try reflexivity.
  all: try (intros ? [H1 H2]; split; assumption).
  all: split; [reflexivity|split; [reflexivity|]].
  all: unfold root_req_args; cbn [keyPath certPath].
  all: exists [js "req"; js "-x509"; js "-new"; js "-newkey"; keyType (options b)].
  all: eexists; reflexivity.
Qed.

(** X28.  The key of an ephemeral root CA stays in the workspace.  With no
    persistent key path and the workspace [d] recorded, every engine run
    of [createRootCA] is told to write the key to the file
    [$certName.key] in [d] (the name is this literal text), protected by
    the random password, which it is given on the standard input;
    [createRootCA] writes no file itself. *)
Theorem ephemeral_root_key_stays_in_workspace env st d :
  tempDir (this st) = Some d -> d <> [] ->
  truthy (persistentRootCAKeyPath (this st)) = false ->
  Forall (ephemeral_root_event env d)
    (events_since st (snd (createRootCA env st))).
Proof.
  intros Hd Hne Heph.
  exact (proj1 (proj2 (obeys_run _ _ _ _ _ st
           (createRootCA_obeys_ephemeral env d Hne) (conj Hd Heph)))).
Qed.

Lemma ephemeral_root_key_stays_in_workspace_witness :
  Forall (ephemeral_root_event (Demo.env [] [] []) (js "/tmp/ws"))
    (events_since
       {| this := set_tempDir (js "/tmp/ws") (this Demo.builder_DE);
          world := Demo.empty_world |}
       (snd (createRootCA (Demo.env [] [] [])
               {| this := set_tempDir (js "/tmp/ws") (this Demo.builder_DE);
                  world := Demo.empty_world |}))).
Proof.
  apply (ephemeral_root_key_stays_in_workspace (Demo.env [] [] [])
           {| this := set_tempDir (js "/tmp/ws") (this Demo.builder_DE);
              world := Demo.empty_world |} (js "/tmp/ws")).
  - reflexivity.
  - discriminate.
  - reflexivity.
Defined.
